(** * Weekly availability scheduler: the aggregation and grid-interaction engine

    A shallow embedding of the scheduler's page component ([Home] and the
    helpers above it) and the properties its specification states about it.

    Conventions of the embedding.
    - A JavaScript object used as a string-keyed record is an association
      list in property (insertion) order with at most one entry per key;
      [obj_set] overwrites in place or appends, [obj_delete] removes.
      The records are plain objects, so a read [o[k]] that finds no own
      property goes on to [Object.prototype].  At a slot key, at the empty
      string and at the field names of a row nothing is inherited and the
      read is the list lookup [prop]; where the key is arbitrary (the keys
      of a fetched cell set, in [sameCells]) the read is [truthyRead], and
      the write [assign] accounts for the setter behind [__proto__].
    - JavaScript numbers that the program uses as integers (day and slot
      indices, millisecond instants, minutes) are [Z].  Pointer coordinates
      are whole pixels, also [Z]; on whole pixels the double-precision
      product [absY * 1.2] compares with [absX] as the exact product does,
      so the axis ratio is the rational 12/10.
    - React state is a record; an event handler is a function from the state
      of the last render to the next state together with the log of the
      edits and commits it issued.  A ref that mirrors a piece of state
      ([draftCellsRef], [touchGestureRef]) holds, during a handler, the value
      of that state at the last render, and renders happen between events. *)

From Stdlib Require Import QArith Ascii.
From stdpp Require Import base list strings pretty numbers.

Open Scope Z_scope.

(** ** JavaScript values, as far as the row feed can deliver them *)

#[warnings="-register-all"]
Inductive jsval : Type :=
| JUndefined
| JNull
| JBool (b : bool)
| JNum (n : Z)
| JNaN
| JStr (s : string)
| JArr (elems : list jsval)
| JObj (props : list (string * jsval)).

(** [Boolean(v)] and [!v]. *)
Definition truthy (v : jsval) : bool :=
  match v with
  | JUndefined | JNull | JNaN => false
  | JBool b => b
  | JNum n => negb (n =? 0)
  | JStr s => negb (s =? "")%string
  | JArr _ | JObj _ => true
  end.

(** [typeof v === "object"] *)
Definition typeof_object (v : jsval) : bool :=
  match v with
  | JNull | JArr _ | JObj _ => true
  | _ => false
  end.

Definition JTrue : jsval := JBool true.

(** ** String-keyed records *)

Definition obj (V : Type) : Type := list (string * V).

Fixpoint obj_get {V} (o : obj V) (k : string) : option V :=
  match o with
  | [] => None
  | (k', v) :: o' => if (k' =? k)%string then Some v else obj_get o' k
  end.

(** [o[k] = v] *)
Fixpoint obj_set {V} (k : string) (v : V) (o : obj V) : obj V :=
  match o with
  | [] => [(k, v)]
  | (k', v') :: o' =>
      if (k' =? k)%string then (k', v) :: o' else (k', v') :: obj_set k v o'
  end.

(** [delete o[k]] *)
Fixpoint obj_delete {V} (k : string) (o : obj V) : obj V :=
  match o with
  | [] => []
  | (k', v') :: o' =>
      if (k' =? k)%string then obj_delete k o' else (k', v') :: obj_delete k o'
  end.

(** [Object.keys(o)] *)
Definition obj_keys {V} (o : obj V) : list string := o.*1.

(** [o[k]] read as a value at a key that is not a name inherited from
    [Object.prototype] (a slot key, the empty string, a field name of a
    row): a missing property is [undefined]. *)
Definition prop (o : obj jsval) (k : string) : jsval :=
  default JUndefined (obj_get o k).

(** The property names every plain object inherits from
    [Object.prototype]. *)
Definition objectPrototypeNames : list string :=
  ["constructor"; "__defineGetter__"; "__defineSetter__"; "hasOwnProperty";
   "__lookupGetter__"; "__lookupSetter__"; "isPrototypeOf";
   "propertyIsEnumerable"; "toString"; "valueOf"; "__proto__";
   "toLocaleString"].

Definition inherited (k : string) : bool :=
  existsb (λ name, (name =? k)%string) objectPrototypeNames.

(** [Boolean(o[k])] at any key: an own property decides by its value;
    without one the read reaches [Object.prototype], whose members are
    functions and, behind [__proto__], the prototype object: all truthy. *)
Definition truthyRead (o : obj jsval) (k : string) : bool :=
  match obj_get o k with
  | Some v => truthy v
  | None => inherited k
  end.

(** [o[k] = v] at any key, for a [v] that is not an object and an [o]
    without an own [__proto__] property: that name is the accessor of
    [Object.prototype], whose setter ignores such a value and stores
    nothing. *)
Definition assign (k : string) (v : jsval) (o : obj jsval) : obj jsval :=
  if (k =? "__proto__")%string then o else obj_set k v o.

(** [data.k] on a value that may not be a plain object. *)
Definition field (v : jsval) (k : string) : jsval :=
  match v with
  | JObj props => prop props k
  | _ => JUndefined
  end.

(** [Object.entries(v)] for a value that passed the object test. *)
Definition entries (v : jsval) : list (string * jsval) :=
  match v with
  | JObj props => props
  | JArr elems => imap (λ i e, (pretty i, e)) elems
  | _ => []
  end.

(** A JavaScript object has one entry per key. *)
Definition obj_wf {V} (o : obj V) : Prop := NoDup (obj_keys o).

(** A value of type [Record<string, true>]: an object all of whose stored
    values are the literal [true]. *)
Definition all_true (o : obj jsval) : Prop := Forall (λ kv, kv.2 = JTrue) o.

Definition cell_set (o : obj jsval) : Prop := obj_wf o ∧ all_true o.

(** Two records hold the same set of keys. *)
Definition set_equal {V W} (l : obj V) (r : obj W) : Prop :=
  ∀ k, k ∈ obj_keys l ↔ k ∈ obj_keys r.

(** No key of the record is a name inherited from [Object.prototype]. *)
Definition own_names {V} (o : obj V) : Prop :=
  Forall (λ k, inherited k = false) (obj_keys o).

(** ** Types of the component *)

Record TeamMember := {
  id : string;
  team_code : string;
  user_id : string;
  display_name : string;
  cells : obj jsval;
  updated_at : option string;
  last_editor : option string;
  is_stale : bool;
  is_legacy_unavailable_mode : bool;
}.

Record DrawingState := {
  dr_active : bool;
  dr_value : bool;
}.

Inductive PaintMode := smart | mark | erase.
Inductive MobileSection := users | table | result.
Inductive GestureMode := pending | paint | scroll.

Record TouchGestureState := {
  tg_active : bool;
  tg_pointerId : option Z;
  tg_startX : Z;
  tg_startY : Z;
  tg_startDay : Z;
  tg_startSlot : Z;
  tg_value : bool;
  tg_mode : GestureMode;
}.

Record TimeBlock := {
  day : Z;
  startSlot : Z;
  endSlot : Z;
  minutes : Z;
}.

(** ** Constants *)

Definition TEAM_CODE : string := "online-ministry-team".
Definition DAY_LABELS : list string :=
  ["월"; "화"; "수"; "목"; "금"; "토"; "일"].
Definition DAY_COUNT : Z := Z.of_nat (length DAY_LABELS).
Definition START_HOUR : Z := 16.
Definition END_HOUR : Z := 24.
Definition SLOT_MINUTES : Z := 30.
Definition SLOT_COUNT : Z := ((END_HOUR - START_HOUR) * 60) / SLOT_MINUTES.
Definition DURATION_OPTIONS : list Z := [30; 60; 90; 120].
Definition TOUCH_GESTURE_START_PX : Z := 10.
Definition TOUCH_GESTURE_AXIS_RATIO : Q := 12 # 10.
Definition UNNAMED : string := "이름 미지정".

(** ** Helpers above the component *)

Definition keyFor (day slot : Z) : string :=
  pretty day +:+ "-" +:+ pretty slot.

(** The keys are those of the fetched object and may be any string. *)
Definition sanitizeCells (value : jsval) : obj jsval :=
  if negb (truthy value) || negb (typeof_object value) then []
  else
    fold_left
      (λ result '(key, marked),
         if truthy marked then assign key JTrue result else result)
      (entries value) [].

Definition as_string (v : jsval) (dflt : string) : string :=
  match v with JStr s => s | _ => dflt end.

Definition as_string_or_null (v : jsval) : option string :=
  match v with JStr s => Some s | _ => None end.

Definition is_unavailable_mode (v : jsval) : bool :=
  match v with JStr s => (s =? "unavailable")%string | _ => false end.

Definition toMember (row : jsval) : TeamMember :=
  let legacyUnavailable := is_unavailable_mode (field row "mode") in
  {| id := as_string (field row "id") "";
     team_code := as_string (field row "team_code") TEAM_CODE;
     user_id := as_string (field row "user_id") "";
     display_name := as_string (field row "display_name") UNNAMED;
     cells := if legacyUnavailable then [] else sanitizeCells (field row "cells");
     updated_at := as_string_or_null (field row "updated_at");
     last_editor := as_string_or_null (field row "last_editor");
     is_stale := false;
     is_legacy_unavailable_mode := legacyUnavailable |}.

(** Every call passes a slot key. *)
Definition isAvailable (member : TeamMember) (key : string) : bool :=
  truthy (prop (cells member) key).

(** The keys of [left] are those of a fetched or edited cell set and may be
    any string, so the test [!right[key]] reads through the prototype. *)
Definition sameCells (left right : obj jsval) : bool :=
  let leftKeys := obj_keys left in
  let rightKeys := obj_keys right in
  if negb (length leftKeys =? length rightKeys)%nat then false
  else forallb (λ key, truthyRead right key) leftKeys.

(** ** Staleness against the week boundary

    [new Date(s).getTime()] is the platform's date parser: [parseDate s] is
    the instant in milliseconds, or [None] where JavaScript gives [NaN]. *)

Section Staleness.

Variable parseDate : string → option Z.

(** The instant a stored [updated_at] denotes; [None] when it is [null]
    or does not parse. *)
Definition instantOf (updatedAt : option string) : option Z :=
  match updatedAt with
  | None => None
  | Some s => parseDate s
  end.

Definition isStaleWeek (updatedAt : option string) (weekStartMs : Z) : bool :=
  match updatedAt with
  | None => true
  | Some s =>
      if (s =? "")%string then true
      else
        match parseDate s with
        | None => true
        | Some ms => ms <? weekStartMs
        end
  end.

(** The callback [fetchMembers] maps over the fetched rows. *)
Definition presentRow (currentWeekStartMs : Z) (row : jsval) : TeamMember :=
  let member := toMember row in
  if isStaleWeek (updated_at member) currentWeekStartMs then
    {| id := id member;
       team_code := team_code member;
       user_id := user_id member;
       display_name := display_name member;
       cells := [];
       updated_at := updated_at member;
       last_editor := last_editor member;
       is_stale := true;
       is_legacy_unavailable_mode := is_legacy_unavailable_mode member |}
  else
    {| id := id member;
       team_code := team_code member;
       user_id := user_id member;
       display_name := display_name member;
       cells := cells member;
       updated_at := updated_at member;
       last_editor := last_editor member;
       is_stale := false;
       is_legacy_unavailable_mode := is_legacy_unavailable_mode member |}.

End Staleness.

(** ** State of the [Home] component *)

Record HomeState := {
  client : bool;  (* the backend client handle is non-null *)
  userId : string;
  isMobileViewport : bool;
  mobileSection : MobileSection;
  mobileEditEnabled : bool;
  members : list TeamMember;
  selectedMemberId : string;
  minimumDuration : Z;
  currentWeekStartMs : Z;
  draftCells : obj jsval;
  drawing : DrawingState;
  paintMode : PaintMode;
  touchGesture : TouchGestureState;
}.

Definition idleGesture : TouchGestureState :=
  {| tg_active := false; tg_pointerId := None; tg_startX := 0; tg_startY := 0;
     tg_startDay := 0; tg_startSlot := 0; tg_value := true; tg_mode := pending |}.

Definition initialState (hasClient : bool) : HomeState :=
  {| client := hasClient; userId := ""; isMobileViewport := false;
     mobileSection := table; mobileEditEnabled := false; members := [];
     selectedMemberId := ""; minimumDuration := 60; currentWeekStartMs := 0;
     draftCells := []; drawing := {| dr_active := false; dr_value := true |};
     paintMode := smart; touchGesture := idleGesture |}.

(** State setters: [setX(f)] applies the updater [f] to the current value. *)

Definition setDraftCells (f : obj jsval → obj jsval) (st : HomeState) : HomeState :=
  {| client := client st; userId := userId st;
     isMobileViewport := isMobileViewport st; mobileSection := mobileSection st;
     mobileEditEnabled := mobileEditEnabled st; members := members st;
     selectedMemberId := selectedMemberId st;
     minimumDuration := minimumDuration st;
     currentWeekStartMs := currentWeekStartMs st;
     draftCells := f (draftCells st); drawing := drawing st;
     paintMode := paintMode st; touchGesture := touchGesture st |}.

Definition setDrawing (f : DrawingState → DrawingState) (st : HomeState) : HomeState :=
  {| client := client st; userId := userId st;
     isMobileViewport := isMobileViewport st; mobileSection := mobileSection st;
     mobileEditEnabled := mobileEditEnabled st; members := members st;
     selectedMemberId := selectedMemberId st;
     minimumDuration := minimumDuration st;
     currentWeekStartMs := currentWeekStartMs st;
     draftCells := draftCells st; drawing := f (drawing st);
     paintMode := paintMode st; touchGesture := touchGesture st |}.

Definition setTouchGesture (f : TouchGestureState → TouchGestureState)
    (st : HomeState) : HomeState :=
  {| client := client st; userId := userId st;
     isMobileViewport := isMobileViewport st; mobileSection := mobileSection st;
     mobileEditEnabled := mobileEditEnabled st; members := members st;
     selectedMemberId := selectedMemberId st;
     minimumDuration := minimumDuration st;
     currentWeekStartMs := currentWeekStartMs st;
     draftCells := draftCells st; drawing := drawing st;
     paintMode := paintMode st; touchGesture := f (touchGesture st) |}.

Definition setMembers (nextMembers : list TeamMember) (st : HomeState) : HomeState :=
  {| client := client st; userId := userId st;
     isMobileViewport := isMobileViewport st; mobileSection := mobileSection st;
     mobileEditEnabled := mobileEditEnabled st; members := nextMembers;
     selectedMemberId := selectedMemberId st;
     minimumDuration := minimumDuration st;
     currentWeekStartMs := currentWeekStartMs st;
     draftCells := draftCells st; drawing := drawing st;
     paintMode := paintMode st; touchGesture := touchGesture st |}.

Definition with_mode (m : GestureMode) (g : TouchGestureState) : TouchGestureState :=
  {| tg_active := tg_active g; tg_pointerId := tg_pointerId g;
     tg_startX := tg_startX g; tg_startY := tg_startY g;
     tg_startDay := tg_startDay g; tg_startSlot := tg_startSlot g;
     tg_value := tg_value g; tg_mode := m |}.

(** ** Values derived on every render *)

Definition myMember (st : HomeState) : option TeamMember :=
  find (λ member, (user_id member =? userId st)%string) (members st).

Definition resolvedSelectedMemberId (st : HomeState) : string :=
  if existsb (λ member, (id member =? selectedMemberId st)%string) (members st)
  then selectedMemberId st
  else
    match myMember st with
    | Some m => id m
    | None => match members st with m :: _ => id m | [] => "" end
    end.

Definition selectedMember (st : HomeState) : option TeamMember :=
  find (λ member, (id member =? resolvedSelectedMemberId st)%string) (members st).

Definition canEditSelected (st : HomeState) : bool :=
  match selectedMember st with
  | Some m => (user_id m =? userId st)%string
  | None => false
  end.

Definition isCellInputEnabled (st : HomeState) : bool :=
  canEditSelected st && (negb (isMobileViewport st) || mobileEditEnabled st).

Definition displayedCells (st : HomeState) : obj jsval :=
  match selectedMember st with
  | None => []
  | Some m => if (user_id m =? userId st)%string then draftCells st else cells m
  end.

(** ** The draft buffer: reconciliation, commit, edits *)

(** The effect that follows a change of [myMember] or of [drawing.active]. *)
Definition reconcileDraft (st : HomeState) : HomeState :=
  if dr_active (drawing st) then st
  else
    match myMember st with
    | None => st
    | Some m =>
        let nextCells := cells m in
        setDraftCells
          (λ previous, if sameCells previous nextCells then previous else nextCells)
          st
    end.

(** The row update [persistMyCells] sends; [None] when it sends nothing. *)
Record RowUpdate := {
  upd_cells : obj jsval;
  upd_last_editor : string;
  upd_updated_at : string;
}.

Definition persistMyCells (now : string) (nextCells : obj jsval)
    (st : HomeState) : option RowUpdate :=
  match myMember st with
  | None => None
  | Some m =>
      if negb (client st) || (userId st =? "")%string then None
      else if sameCells (cells m) nextCells then None
      else
        let editorName := display_name m in
        Some {| upd_cells := nextCells;
                upd_last_editor := editorName;
                upd_updated_at := now |}
  end.

(** What a handler issues besides its state updates: an edit enqueued on the
    draft buffer, or a call of [persistMyCells(draftCellsRef.current)], made
    at once ([delayMs = 0]) or from a [window.setTimeout] of [delayMs]. *)
Inductive Effect :=
| EditCell (day slot : Z) (value : bool)
| Commit (delayMs : Z).

Definition Handler : Type := HomeState → HomeState * list Effect.

(** The updater [paintCell] hands to [setDraftCells]; [key] is a slot key. *)
Definition paintUpdater (key : string) (value : bool)
    (previous : obj jsval) : obj jsval :=
  let currentlyMarked := truthy (prop previous key) in
  if Bool.eqb currentlyMarked value then previous
  else
    let nextCells := previous in
    if value then obj_set key JTrue nextCells else obj_delete key nextCells.

Definition paintCell (day slot : Z) (value : bool) : Handler := λ st,
  if negb (isCellInputEnabled st) then (st, [])
  else
    let key := keyFor day slot in
    (setDraftCells (paintUpdater key value) st, [EditCell day slot value]).

(** The debounced save armed after a render in which the buffer changed. *)
Definition draftDebounce (st : HomeState) : list Effect :=
  if negb (dr_active (drawing st)) || negb (isCellInputEnabled st) then []
  else [Commit 120].

Definition clearMyCells (now : string) (st : HomeState)
    : HomeState * option RowUpdate :=
  match myMember st with
  | None => (st, None)
  | Some _ =>
      let empty : obj jsval := [] in
      (setDraftCells (λ _, empty) st, persistMyCells now empty st)
  end.

(** ** Pointer events *)

Record PointerEvent := {
  pointerId : Z;
  isTouch : bool;                (* pointerType === "touch" *)
  clientX : Z;
  clientY : Z;
  cellAtPoint : option (Z * Z);  (* findCellByPoint(clientX, clientY) *)
}.

(** [gesture.pointerId !== null && event.pointerId !== gesture.pointerId] *)
Definition otherPointer (gesture : TouchGestureState) (event : PointerEvent) : bool :=
  match tg_pointerId gesture with
  | None => false
  | Some p => negb (pointerId event =? p)
  end.

Definition is_pending (m : GestureMode) : bool :=
  match m with pending => true | _ => false end.

Definition is_scroll (m : GestureMode) : bool :=
  match m with scroll => true | _ => false end.

Definition stopDrawing (event : option PointerEvent) : Handler := λ st,
  let gesture := touchGesture st in
  if tg_active gesture
     && match event with Some e => otherPointer gesture e | None => false end
  then (st, [])
  else
    let '(st1, log1, handledPendingTap) :=
      if tg_active gesture then
        let '(st', log') :=
          if is_pending (tg_mode gesture)
          then paintCell (tg_startDay gesture) (tg_startSlot gesture)
                 (tg_value gesture) st
          else (st, []) in
        (setTouchGesture
           (λ previous, if tg_active previous then idleGesture else previous) st',
         log', is_pending (tg_mode gesture))
      else (st, [], false) in
    let st2 :=
      setDrawing
        (λ previous,
           if dr_active previous
           then {| dr_active := false; dr_value := dr_value previous |}
           else previous) st1 in
    if canEditSelected st then
      if handledPendingTap then (st2, log1 ++ [Commit 80])
      else (st2, log1 ++ [Commit 0])
    else (st2, log1).

(** [a > b] on rationals. *)
Definition Qgtb (a b : Q) : bool := negb (Qle_bool a b).

Definition paintFound (found : option (Z * Z)) (value : bool) : Handler := λ st,
  match found with
  | None => (st, [])
  | Some (d, s) => paintCell d s value st
  end.

Definition handlePointerMove (event : PointerEvent) : Handler := λ st,
  let gesture := touchGesture st in
  if tg_active gesture then
    if otherPointer gesture event then (st, [])
    else
      (* [latest] re-reads the ref, which still holds [gesture] *)
      let latest := gesture in
      let continue : Handler := λ st',
        if is_scroll (tg_mode latest) then (st', [])
        else paintFound (cellAtPoint event) (tg_value latest) st' in
      if is_pending (tg_mode gesture) then
        let dx := clientX event - tg_startX gesture in
        let dy := clientY event - tg_startY gesture in
        let absX := Z.abs dx in
        let absY := Z.abs dy in
        if (absX <? TOUCH_GESTURE_START_PX) && (absY <? TOUCH_GESTURE_START_PX)
        then (st, [])
        else if Qgtb (inject_Z absX) (inject_Z absY * TOUCH_GESTURE_AXIS_RATIO)
        then
          (setTouchGesture
             (λ previous,
                if tg_active previous then with_mode scroll previous else previous)
             st, [])
        else
          let st1 :=
            setTouchGesture
              (λ previous,
                 if tg_active previous then with_mode paint previous else previous)
              st in
          let st2 :=
            setDrawing (λ _, {| dr_active := true; dr_value := tg_value gesture |})
              st1 in
          let '(st3, log3) :=
            paintCell (tg_startDay gesture) (tg_startSlot gesture)
              (tg_value gesture) st2 in
          let '(st4, log4) := continue st3 in
          (st4, log3 ++ log4)
      else continue st
  else if negb (dr_active (drawing st)) then (st, [])
  else paintFound (cellAtPoint event) (dr_value (drawing st)) st.

(** [onPointerDown] of the grid cell [(dayIndex, slot)]. *)
Definition onPointerDown (dayIndex slot : Z) (event : PointerEvent) : Handler := λ st,
  if negb (isCellInputEnabled st) then (st, [])
  else
    let key := keyFor dayIndex slot in
    let currentValue := truthy (prop (displayedCells st) key) in
    let nextValue :=
      match paintMode st with
      | smart => negb currentValue
      | mark => true
      | erase => false
      end in
    if isTouch event then
      (setTouchGesture
         (λ _, {| tg_active := true; tg_pointerId := Some (pointerId event);
                  tg_startX := clientX event; tg_startY := clientY event;
                  tg_startDay := dayIndex; tg_startSlot := slot;
                  tg_value := nextValue; tg_mode := pending |}) st, [])
    else
      paintCell dayIndex slot nextValue
        (setDrawing (λ _, {| dr_active := true; dr_value := nextValue |}) st).

(** [onPointerEnter] of the grid cell [(dayIndex, slot)]. *)
Definition onPointerEnter (dayIndex slot : Z) : Handler := λ st,
  if negb (dr_active (drawing st)) then (st, [])
  else paintCell dayIndex slot (dr_value (drawing st)) st.

(** ** Aggregation *)

Definition with_cells (c : obj jsval) (member : TeamMember) : TeamMember :=
  {| id := id member;
     team_code := team_code member;
     user_id := user_id member;
     display_name := display_name member;
     cells := c;
     updated_at := updated_at member;
     last_editor := last_editor member;
     is_stale := is_stale member;
     is_legacy_unavailable_mode := is_legacy_unavailable_mode member |}.

Definition membersForCalculation (st : HomeState) : list TeamMember :=
  map (λ member,
         if (user_id member =? userId st)%string
         then with_cells (draftCells st) member
         else member)
      (members st).

(** [for (day ...) for (slot ...) body(keyFor(day, slot))] over the grid. *)
Definition forGrid {A} (body : A → string → A) (init : A) : A :=
  fold_left
    (λ acc day,
       fold_left (λ acc slot, body acc (keyFor day slot)) (seqZ 0 SLOT_COUNT) acc)
    (seqZ 0 DAY_COUNT) init.

Definition countAvailable (mfc : list TeamMember) (key : string) : Z :=
  fold_left (λ count member, count + (if isAvailable member key then 1 else 0))
    mfc 0.

Definition availabilityCountByCell (mfc : list TeamMember) : obj Z :=
  forGrid (λ counts key, obj_set key (countAvailable mfc key) counts) [].

Definition memberCount (mfc : list TeamMember) : Z := Z.of_nat (length mfc).

(** [counts[key] === n]; an absent count is [undefined] and equals no number. *)
Definition countIs (counts : obj Z) (key : string) (n : Z) : bool :=
  match obj_get counts key with
  | Some c => c =? n
  | None => false
  end.

Definition commonCells (mfc : list TeamMember) : obj jsval :=
  let common : obj jsval := [] in
  if memberCount mfc =? 0 then common
  else
    forGrid
      (λ common key,
         if countIs (availabilityCountByCell mfc) key (memberCount mfc)
         then obj_set key JTrue common
         else common)
      common.

Definition commonCellCount (mfc : list TeamMember) : nat :=
  length (obj_keys (commonCells mfc)).

(** One iteration of the inner loop of [recommendedBlocks]; the accumulator
    is the pair of [start] and [blocks]. *)
Definition scanSlot (common : obj jsval) (minSlots day : Z)
    (acc : Z * list TimeBlock) (slot : Z) : Z * list TimeBlock :=
  let '(start, blocks) := acc in
  let currentKey := if slot <? SLOT_COUNT then keyFor day slot else ""%string in
  let isCommon := (slot <? SLOT_COUNT) && truthy (prop common currentKey) in
  let start := if isCommon && (start <? 0) then slot else start in
  if negb isCommon && (0 <=? start) then
    let length := slot - start in
    (-1,
     if minSlots <=? length then
       blocks ++ [{| day := day; startSlot := start; endSlot := slot;
                     minutes := length * SLOT_MINUTES |}]
     else blocks)
  else (start, blocks).

Definition scanDay (common : obj jsval) (minSlots : Z)
    (blocks : list TimeBlock) (day : Z) : list TimeBlock :=
  snd (fold_left (scanSlot common minSlots day) (seqZ 0 (SLOT_COUNT + 1))
         (-1, blocks)).

(** [recommendedBlocks], as a function of its dependencies [commonCells],
    [membersForCalculation.length] and [minimumDuration]. *)
Definition recommendedBlocks (common : obj jsval) (membersLength : Z)
    (minimumDuration : Z) : list TimeBlock :=
  let blocks : list TimeBlock := [] in
  if membersLength =? 0 then blocks
  else
    let minSlots := Z.max 1 (minimumDuration / SLOT_MINUTES) in
    fold_left (scanDay common minSlots) (seqZ 0 DAY_COUNT) blocks.

Definition recommendedBlocksOf (st : HomeState) : list TimeBlock :=
  let mfc := membersForCalculation st in
  recommendedBlocks (commonCells mfc) (memberCount mfc) (minimumDuration st).

(** ** The specification's vocabulary *)

(** A slot key is in a cell set. *)
Definition has_key {V} (o : obj V) (key : string) : Prop := key ∈ obj_keys o.

(** The number of members whose cell set contains [key]. *)
Definition membersWith (mfc : list TeamMember) (key : string) : Z :=
  Z.of_nat (length (filter (λ m, key ∈ obj_keys (cells m)) mfc)).

(** Slot [slot] of day [day] is common. *)
Definition commonAt (common : obj jsval) (day slot : Z) : Prop :=
  0 <= slot < SLOT_COUNT ∧ truthy (prop common (keyFor day slot)) = true.

(** [b] spans a run of common slots of its day that can be extended at
    neither end, and carries the run's length in minutes. *)
Definition runIn (common : obj jsval) (b : TimeBlock) : Prop :=
  0 <= startSlot b < endSlot b ∧ endSlot b <= SLOT_COUNT
  ∧ (∀ s, startSlot b <= s < endSlot b → commonAt common (day b) s)
  ∧ ¬ commonAt common (day b) (startSlot b - 1)
  ∧ ¬ commonAt common (day b) (endSlot b)
  ∧ minutes b = (endSlot b - startSlot b) * SLOT_MINUTES.

(** [b] is a maximal run of common slots within one day of the week. *)
Definition maximalRun (common : obj jsval) (b : TimeBlock) : Prop :=
  0 <= day b < DAY_COUNT ∧ runIn common b.

(** The test of the inner loop of [recommendedBlocks]. *)
Definition isCommonSlot (common : obj jsval) (day slot : Z) : bool :=
  (slot <? SLOT_COUNT)
  && truthy (prop common (if slot <? SLOT_COUNT then keyFor day slot else ""%string)).

(** What holds of [start] and [blocks] when the inner loop for day [d],
    entered with [blocks0], is about to visit slot [k]. *)
Definition scanInv (common : obj jsval) (minSlots d : Z)
    (blocks0 : list TimeBlock) (k : Z) (acc : Z * list TimeBlock) : Prop :=
  (acc.1 = -1 ∨ 0 <= acc.1)
  ∧ (0 <= acc.1 →
     acc.1 < k
     ∧ (∀ s, acc.1 <= s < k → commonAt common d s)
     ∧ ¬ commonAt common d (acc.1 - 1))
  ∧ (acc.1 = -1 → ¬ commonAt common d (k - 1))
  ∧ (∀ b, b ∈ acc.2
          ↔ b ∈ blocks0
            ∨ (day b = d ∧ runIn common b ∧ endSlot b < k
               ∧ minSlots <= endSlot b - startSlot b)).

(** Laying out a set of slots of one day as a common-cell record. *)
Definition cellsOfSlots (d : Z) (slots : list Z) : obj jsval :=
  fold_left (λ o s, obj_set (keyFor d s) JTrue o) slots [].

(** ** Sequences of events *)

(** Handlers run one after the other, each on the state the previous one
    left, their logs concatenated. *)
Fixpoint runHandlers (hs : list Handler) : Handler := λ st,
  match hs with
  | [] => (st, [])
  | h :: hs' =>
      let '(st1, log1) := h st in
      let '(st2, log2) := runHandlers hs' st1 in
      (st2, log1 ++ log2)
  end.

Definition is_edit (e : Effect) : bool :=
  match e with EditCell _ _ _ => true | Commit _ => false end.

Definition is_commit (e : Effect) : bool :=
  match e with Commit _ => true | EditCell _ _ _ => false end.

(** The state after [deleteAllUsers] succeeded, before its re-fetch. *)
Definition afterDeleteAll (st : HomeState) : HomeState :=
  setDraftCells (λ _, [])
    {| client := client st; userId := userId st;
       isMobileViewport := isMobileViewport st; mobileSection := mobileSection st;
       mobileEditEnabled := mobileEditEnabled st; members := members st;
       selectedMemberId := "";
       minimumDuration := minimumDuration st;
       currentWeekStartMs := currentWeekStartMs st;
       draftCells := draftCells st; drawing := drawing st;
       paintMode := paintMode st; touchGesture := touchGesture st |}.

(** One transition of the component.  [step_other] stands for every update
    that writes neither the member list nor the draft buffer (sign-in,
    viewport, section, edit mode, paint mode, selection, duration, week). *)
Inductive step : HomeState → HomeState → Prop :=
| step_fetch (parseDate : string → option Z) (rows : list jsval) st :
    step st (setMembers (map (presentRow parseDate (currentWeekStartMs st)) rows) st)
| step_reconcile st :
    step st (reconcileDraft st)
| step_paint d s v st :
    step st (paintCell d s v st).1
| step_pointerDown d s e st :
    step st (onPointerDown d s e st).1
| step_pointerEnter d s st :
    step st (onPointerEnter d s st).1
| step_pointerMove e st :
    step st (handlePointerMove e st).1
| step_stop e st :
    step st (stopDrawing e st).1
| step_clear now st :
    step st (clearMyCells now st).1
| step_deleteAll st :
    step st (afterDeleteAll st)
| step_other st st' :
    members st' = members st → draftCells st' = draftCells st → step st st'.

Inductive reachable : HomeState → Prop :=
| reach_init hasClient : reachable (initialState hasClient)
| reach_step st st' : reachable st → step st st' → reachable st'.

(** Every cells record the state holds is a set of keys. *)
Definition cells_inv (st : HomeState) : Prop :=
  cell_set (draftCells st) ∧ Forall (λ m, cell_set (cells m)) (members st).

(** The selected member is the local user's own row. *)
Definition ownsSelected (st : HomeState) : Prop :=
  ∃ m, selectedMember st = Some m ∧ user_id m = userId st.

(** ** Sample data *)

(** A date parser that knows two instants, for examples. *)
Definition sampleParseDate (s : string) : option Z :=
  if (s =? "2026-10-28T12:00:00.000Z")%string then Some 1793188800000
  else if (s =? "2026-10-20T12:00:00.000Z")%string then Some 1792497600000
  else None.

(** Sunday 2026-10-25 00:00 at UTC+9. *)
Definition sampleWeekStartMs : Z := 1792854000000.

Definition sampleRow (uid name when : string) (marked : list (string * jsval)) : jsval :=
  JObj [("id", JStr ("row-" +:+ uid)); ("team_code", JStr TEAM_CODE);
        ("user_id", JStr uid); ("display_name", JStr name);
        ("cells", JObj marked); ("updated_at", JStr when);
        ("last_editor", JStr name)].

Definition sampleMember (uid name : string) (marked : obj jsval) : TeamMember :=
  {| id := "row-" +:+ uid; team_code := TEAM_CODE; user_id := uid;
     display_name := name; cells := marked;
     updated_at := Some "2026-10-28T12:00:00.000Z"; last_editor := Some name;
     is_stale := false; is_legacy_unavailable_mode := false |}.

(** A desktop session of user ["u1"] with three members, the user's own row
    selected and the draft buffer in step with it. *)
Definition sampleState : HomeState :=
  {| client := true; userId := "u1"; isMobileViewport := false;
     mobileSection := table; mobileEditEnabled := false;
     members := [sampleMember "u1" "Ann" [("0-0", JTrue)];
                 sampleMember "u2" "Ben" [("0-0", JTrue); ("0-1", JTrue)];
                 sampleMember "u3" "Cy" []];
     selectedMemberId := "row-u1"; minimumDuration := 60;
     currentWeekStartMs := sampleWeekStartMs;
     draftCells := [("0-0", JTrue)];
     drawing := {| dr_active := false; dr_value := true |};
     paintMode := smart; touchGesture := idleGesture |}.

(** The keys of the grid, in the order the two nested loops visit them. *)
Definition gridKeys : list string :=
  concat (map (λ day, map (keyFor day) (seqZ 0 SLOT_COUNT)) (seqZ 0 DAY_COUNT)).

(** The displacement of a pointer event from the start of the gesture. *)
Definition absDX (g : TouchGestureState) (e : PointerEvent) : Z :=
  Z.abs (clientX e - tg_startX g).
Definition absDY (g : TouchGestureState) (e : PointerEvent) : Z :=
  Z.abs (clientY e - tg_startY g).

(** Both displacements are below the start threshold. *)
Definition belowThreshold (g : TouchGestureState) (e : PointerEvent) : Prop :=
  absDX g e < TOUCH_GESTURE_START_PX ∧ absDY g e < TOUCH_GESTURE_START_PX.

(** The horizontal displacement exceeds the vertical one scaled by the ratio. *)
Definition horizontalDominates (g : TouchGestureState) (e : PointerEvent) : Prop :=
  (inject_Z (absDY g e) * TOUCH_GESTURE_AXIS_RATIO < inject_Z (absDX g e))%Q.

(** A touch gesture of pointer 1 waiting at (100,100) on cell (0,3). *)
Definition samplePending : HomeState :=
  setTouchGesture
    (λ _, {| tg_active := true; tg_pointerId := Some 1;
             tg_startX := 100; tg_startY := 100;
             tg_startDay := 0; tg_startSlot := 3;
             tg_value := true; tg_mode := pending |})
    sampleState.

Definition sampleMove (x y : Z) (found : option (Z * Z)) : PointerEvent :=
  {| pointerId := 1; isTouch := true; clientX := x; clientY := y;
     cellAtPoint := found |}.

(** A finger put down on cell (0,3) at (100,100) and lifted in place. *)
Definition sampleDown : PointerEvent :=
  {| pointerId := 1; isTouch := true; clientX := 100; clientY := 100;
     cellAtPoint := Some (0, 3) |}.
Definition sampleUp : PointerEvent :=
  {| pointerId := 1; isTouch := true; clientX := 100; clientY := 100;
     cellAtPoint := Some (0, 3) |}.

(** A re-fetch that no longer returns the local user's row. *)
Definition sampleRefetchWithoutMe : Handler := λ st,
  (setMembers
     (map (presentRow sampleParseDate (currentWeekStartMs st))
        [sampleRow "u2" "Ben" "2026-10-28T12:00:00.000Z"
           [("0-0", JTrue); ("0-1", JTrue)];
         sampleRow "u3" "Cy" "2026-10-28T12:00:00.000Z" []])
     st, []).

Definition endDrawing (previous : DrawingState) : DrawingState :=
  if dr_active previous
  then {| dr_active := false; dr_value := dr_value previous |}
  else previous.

(** The same session as seen by user ["u2"], whose draft buffer holds the
    committed keys in the other order. *)
Definition sampleStateBen : HomeState :=
  {| client := true; userId := "u2"; isMobileViewport := false;
     mobileSection := table; mobileEditEnabled := false;
     members := members sampleState;
     selectedMemberId := "row-u2"; minimumDuration := 60;
     currentWeekStartMs := sampleWeekStartMs;
     draftCells := [("0-1", JTrue); ("0-0", JTrue)];
     drawing := {| dr_active := false; dr_value := true |};
     paintMode := smart; touchGesture := idleGesture |}.

(** User ["u1"] looking at the grid of ["u2"]. *)
Definition sampleStateViewing : HomeState :=
  {| client := true; userId := "u1"; isMobileViewport := false;
     mobileSection := table; mobileEditEnabled := false;
     members := members sampleState;
     selectedMemberId := "row-u2"; minimumDuration := 60;
     currentWeekStartMs := sampleWeekStartMs;
     draftCells := [("0-0", JTrue)];
     drawing := {| dr_active := false; dr_value := true |};
     paintMode := smart; touchGesture := idleGesture |}.

(** ** Vocabulary of the further properties *)

(** The string holds no ["-"]. *)
Fixpoint dashfree (s : string) : bool :=
  match s with
  | EmptyString => true
  | String c s' => negb (Ascii.eqb c "-"%char) && dashfree s'
  end.

(** Every member of the list is available at [key]. *)
Definition allAvailable (mfc : list TeamMember) (key : string) : bool :=
  forallb (λ member, isAvailable member key) mfc.

(** A session in which all members are free on Monday's first two slots. *)
Definition sampleStateAllFree : HomeState :=
  {| client := true; userId := "u1"; isMobileViewport := false;
     mobileSection := table; mobileEditEnabled := false;
     members := [sampleMember "u1" "Ann" [("0-0", JTrue); ("0-1", JTrue)];
                 sampleMember "u2" "Ben" [("0-1", JTrue); ("0-0", JTrue)]];
     selectedMemberId := "row-u1"; minimumDuration := 60;
     currentWeekStartMs := sampleWeekStartMs;
     draftCells := [("0-0", JTrue); ("0-1", JTrue)];
     drawing := {| dr_active := false; dr_value := true |};
     paintMode := smart; touchGesture := idleGesture |}.

(** The pointer events of the grid and the handler each one runs. *)
Inductive GridEvent :=
| EvDown (dayIndex slot : Z) (e : PointerEvent)
| EvEnter (dayIndex slot : Z)
| EvMove (e : PointerEvent)
| EvStop (e : option PointerEvent).

Definition handle (ev : GridEvent) : Handler :=
  match ev with
  | EvDown d s e => onPointerDown d s e
  | EvEnter d s => onPointerEnter d s
  | EvMove e => handlePointerMove e
  | EvStop e => stopDrawing e
  end.

(** Everything in the state but the draft buffer, the drawing flag and the
    touch gesture. *)
Definition settings (st : HomeState) :=
  (client st, userId st, isMobileViewport st, mobileSection st,
   mobileEditEnabled st, members st, selectedMemberId st, minimumDuration st,
   currentWeekStartMs st, paintMode st).

(** The edits a log holds. *)
Definition editsOf (log : list Effect) : list Effect := List.filter is_edit log.
Definition commitsOf (log : list Effect) : list Effect := List.filter is_commit log.

(** The value a gesture that starts on cell [(d, s)] paints, as
    [onPointerDown] computes it from the paint mode. *)
Definition firstContactValue (st : HomeState) (d s : Z) : bool :=
  match paintMode st with
  | smart => negb (truthy (prop (displayedCells st) (keyFor d s)))
  | mark => true
  | erase => false
  end.

(** The steps of a drag between press and release, and the edit each one
    makes when drawing with value [v]. *)
Definition isDragStep (ev : GridEvent) : Prop :=
  match ev with EvEnter _ _ | EvMove _ => True | _ => False end.

Definition dragStepEdits (v : bool) (ev : GridEvent) : list Effect :=
  match ev with
  | EvEnter d s => [EditCell d s v]
  | EvMove e =>
      match cellAtPoint e with
      | Some (d, s) => [EditCell d s v]
      | None => []
      end
  | _ => []
  end.

(** A mouse press and release on one cell. *)
Definition click (d s : Z) (down up : PointerEvent) : Handler :=
  runHandlers [onPointerDown d s down; stopDrawing (Some up)].

Definition sampleMouse : PointerEvent :=
  {| pointerId := 2; isTouch := false; clientX := 40; clientY := 60;
     cellAtPoint := Some (0, 3) |}.

(** ** Sessions in which a fetched row holds an inherited name *)

(** User ["u1"] signed in on a desktop with erase mode chosen, before the
    first fetch. *)
Definition sampleSignedIn : HomeState :=
  {| client := true; userId := "u1"; isMobileViewport := false;
     mobileSection := table; mobileEditEnabled := false; members := [];
     selectedMemberId := ""; minimumDuration := 60;
     currentWeekStartMs := sampleWeekStartMs; draftCells := [];
     drawing := {| dr_active := false; dr_value := true |};
     paintMode := erase; touchGesture := idleGesture |}.

(** A fetch that returns the one row of user ["u1"], written this week, with
    the given [cells] object. *)
Definition sampleFetch (marked : list (string * jsval)) (st : HomeState) : HomeState :=
  setMembers
    (map (presentRow sampleParseDate (currentWeekStartMs st))
       [sampleRow "u1" "Ann" "2026-10-28T12:00:00.000Z" marked])
    st.

(** The row arrives with the slots [0-0] and [0-1] and the buffer follows
    it; the user presses the mouse on [0-1], which erases it; before the
    release a re-fetch brings the row with the one key [constructor]. *)
Definition sampleOverwrittenMidDrag : HomeState :=
  sampleFetch [("constructor", JBool true)]
    (onPointerDown 0 1 sampleMouse
       (reconcileDraft
          (sampleFetch [("0-0", JBool true); ("0-1", JBool true)]
             sampleSignedIn))).1.

(** The row arrives with the one key [constructor] and the buffer follows
    it; a re-fetch then brings the row with the one slot [0-0]. *)
Definition sampleStaleInheritedDraft : HomeState :=
  sampleFetch [("0-0", JBool true)]
    (reconcileDraft (sampleFetch [("constructor", JBool true)] sampleSignedIn)).

(** ** Further helpers of the source *)

(** [s.padStart(targetLength, padChar)] for a one-character pad. *)
Definition padStart (targetLength : nat) (padChar : ascii) (s : string) : string :=
  String.string_of_list_ascii (replicate (targetLength - String.length s) padChar) +:+ s.

(** [%] is the remainder with the sign of the dividend, [Math.floor(a / b)]
    the floored quotient. *)
Definition slotToTime (slot : Z) : string :=
  let total := Z.rem (START_HOUR * 60 + slot * SLOT_MINUTES) (24 * 60) in
  let hour := padStart 2 "0" (pretty (total / 60)) in
  let min := padStart 2 "0" (pretty (Z.rem total 60)) in
  hour +:+ ":" +:+ min.

Definition KST_OFFSET_MS : Z := 9 * 60 * 60 * 1000.
Definition WEEK_START_DAY : Z := 0.

(** [Date] on time values in milliseconds since the epoch, as ECMAScript
    defines it for UTC: the day number is the floored quotient by
    [msPerDay], the weekday of day 0 is Thursday, and moving the day of the
    month moves the instant by whole days. *)
Definition msPerDay : Z := 86400000.
Definition getUTCDay (t : Z) : Z := (t / msPerDay + 4) mod 7.
(** [setUTCHours(0, 0, 0, 0)] *)
Definition setUTCMidnight (t : Z) : Z := t / msPerDay * msPerDay.
(** [setUTCDate(getUTCDate() + days)] *)
Definition addUTCDate (t days : Z) : Z := t + days * msPerDay.

Definition getKstWeekStartMs (date : Z) : Z :=
  let shifted := date + KST_OFFSET_MS in
  let dayOfWeek := getUTCDay shifted in
  let diff := Z.rem (dayOfWeek - WEEK_START_DAY + 7) 7 in
  let shifted := setUTCMidnight shifted in
  let shifted := addUTCDate shifted (- diff) in
  shifted - KST_OFFSET_MS.

(** The lazily built backend client.  [cachedClient] is [None] while
    undefined, [Some None] once known to be null.  The result carries the
    handle, the cache afterwards and how often [createClient] ran. *)
Section ClientCache.

Variable Client : Type.
Variable createClient : string → string → Client.

Definition hasSupabaseEnv (url key : string) : bool :=
  negb (url =? "")%string && negb (key =? "")%string.

Definition getSupabaseClient (url key : string)
    (cachedClient : option (option Client))
    : option Client * option (option Client) * nat :=
  match cachedClient with
  | Some c => (c, cachedClient, 0%nat)
  | None =>
      if negb (hasSupabaseEnv url key) then (None, Some None, 0%nat)
      else
        let c := createClient url key in
        (Some c, Some (Some c), 1%nat)
  end.

(** [n] calls in a row: the handles returned, the cache and the number of
    constructions. *)
Fixpoint getSupabaseClientTimes (n : nat) (url key : string)
    (cachedClient : option (option Client))
    : list (option Client) * option (option Client) * nat :=
  match n with
  | O => ([], cachedClient, 0%nat)
  | S n' =>
      let '(c, cache1, made1) := getSupabaseClient url key cachedClient in
      let '(cs, cache2, made2) := getSupabaseClientTimes n' url key cache1 in
      (c :: cs, cache2, (made1 + made2)%nat)
  end.

End ClientCache.

(** The outcome of the query of [fetchMembers]. *)
Inductive FetchResult :=
| FetchError (message : string)
| FetchData (data : option (list jsval)).

Section Fetch.

Variable parseDate : string → option Z.

Definition fetchMembers (response : FetchResult) (st : HomeState) : HomeState :=
  if negb (client st) || (userId st =? "")%string then st
  else
    match response with
    | FetchError message =>
        if negb (message =? "")%string then st
        else setMembers [] st  (* no message: falls through with [data] null *)
    | FetchData data =>
        let nextMembers :=
          map (presentRow parseDate (currentWeekStartMs st)) (default [] data) in
        setMembers nextMembers st
    end.

End Fetch.

(** Setters of the mobile flags. *)
Definition setMobileSection (next : MobileSection) (st : HomeState) : HomeState :=
  {| client := client st; userId := userId st;
     isMobileViewport := isMobileViewport st; mobileSection := next;
     mobileEditEnabled := mobileEditEnabled st; members := members st;
     selectedMemberId := selectedMemberId st;
     minimumDuration := minimumDuration st;
     currentWeekStartMs := currentWeekStartMs st;
     draftCells := draftCells st; drawing := drawing st;
     paintMode := paintMode st; touchGesture := touchGesture st |}.

Definition setMobileEditEnabled (f : bool → bool) (st : HomeState) : HomeState :=
  {| client := client st; userId := userId st;
     isMobileViewport := isMobileViewport st; mobileSection := mobileSection st;
     mobileEditEnabled := f (mobileEditEnabled st); members := members st;
     selectedMemberId := selectedMemberId st;
     minimumDuration := minimumDuration st;
     currentWeekStartMs := currentWeekStartMs st;
     draftCells := draftCells st; drawing := drawing st;
     paintMode := paintMode st; touchGesture := touchGesture st |}.

Definition setIsMobileViewport (isMobile : bool) (st : HomeState) : HomeState :=
  {| client := client st; userId := userId st;
     isMobileViewport := isMobile; mobileSection := mobileSection st;
     mobileEditEnabled := mobileEditEnabled st; members := members st;
     selectedMemberId := selectedMemberId st;
     minimumDuration := minimumDuration st;
     currentWeekStartMs := currentWeekStartMs st;
     draftCells := draftCells st; drawing := drawing st;
     paintMode := paintMode st; touchGesture := touchGesture st |}.

Definition is_table (section : MobileSection) : bool :=
  match section with table => true | _ => false end.

Definition handleMobileSectionChange (next : MobileSection) (st : HomeState)
    : HomeState :=
  let st1 := setMobileSection next st in
  if negb (is_table next) then setMobileEditEnabled (λ _, false) st1 else st1.

(** The media-query listener [sync]. *)
Definition syncViewport (isMobile : bool) (st : HomeState) : HomeState :=
  let st1 := setIsMobileViewport isMobile st in
  if isMobile then setMobileEditEnabled (λ _, false) st1 else st1.

(** The effect that stops a gesture when the mobile table is left or edit
    mode is switched off. *)
Definition mobileStopEffect : Handler := λ st,
  if negb (isMobileViewport st) then (st, [])
  else if negb (is_table (mobileSection st)) || negb (mobileEditEnabled st) then
    if dr_active (drawing st) || tg_active (touchGesture st)
    then stopDrawing None st
    else (st, [])
  else (st, []).

Definition sampleMobileEditing : HomeState :=
  setTouchGesture
    (λ _, {| tg_active := true; tg_pointerId := Some 1;
             tg_startX := 100; tg_startY := 100;
             tg_startDay := 0; tg_startSlot := 3;
             tg_value := true; tg_mode := pending |})
    (setMobileEditEnabled (λ _, true) (setIsMobileViewport true sampleState)).

(** The request [ensureMyRow] sends for the user's own row: a reset to empty
    cells in available mode, or the insertion of a fresh row. *)
Inductive RowRequest :=
| ResetRow (last_editor updated_at : string)
| InsertRow (display_name updated_at : string).

Section EnsureMyRow.

Variable parseDate : string → option Z.

(** [data] and [errorMessage] are the outcome of the query for the user's
    row, [savedName] the trimmed name kept in local storage. *)
Definition ensureMyRow (now : string) (data : jsval) (errorMessage : string)
    (savedName : string) (isViewOnlyMode : bool) (st : HomeState)
    : option RowRequest :=
  if negb (client st) || (userId st =? "")%string then None
  else if negb (errorMessage =? "")%string then None
  else if truthy data then
    let existingMember := toMember data in
    if isStaleWeek parseDate (updated_at existingMember) (currentWeekStartMs st)
       || is_legacy_unavailable_mode existingMember
    then Some (ResetRow (display_name existingMember) now)
    else None
  else
    let defaultName := savedName in
    if isViewOnlyMode then None
    else if (defaultName =? "")%string then None
    else Some (InsertRow defaultName now).

End EnsureMyRow.

(** * Properties *)

(** ** Records *)

Section ObjFacts.
Context {V : Type}.
Implicit Types (o : obj V) (k : string) (v : V).

Lemma obj_get_set_eq k v o : obj_get (obj_set k v o) k = Some v.
Proof.
  induction o as [|[k' v'] o IH]; simpl.
  - by rewrite String.eqb_refl.
  - destruct (String.eqb_spec k' k) as [->|Hne]; simpl.
    + by rewrite String.eqb_refl.
    + by destruct (String.eqb_spec k' k).
Qed.

Lemma obj_get_set_ne k k' v o :
  k ≠ k' → obj_get (obj_set k v o) k' = obj_get o k'.
Proof.
  intros Hne. induction o as [|[k0 v0] o IH]; simpl.
  - by destruct (String.eqb_spec k k').
  - destruct (String.eqb_spec k0 k) as [->|Hk]; simpl.
    + by destruct (String.eqb_spec k k').
    + by rewrite IH.
Qed.

Lemma obj_get_delete_eq k o : obj_get (obj_delete k o) k = None.
Proof.
  induction o as [|[k' v'] o IH]; simpl; [done|].
  destruct (String.eqb_spec k' k) as [->|Hne]; simpl; [done|].
  by destruct (String.eqb_spec k' k).
Qed.

Lemma obj_get_None k o : obj_get o k = None ↔ k ∉ obj_keys o.
Proof.
  unfold obj_keys. induction o as [|[k' v'] o IH]; simpl.
  - split; [intros _; apply not_elem_of_nil | done].
  - rewrite not_elem_of_cons.
    destruct (String.eqb_spec k' k) as [->|Hne].
    + split; [done | intros [? _]; done].
    + rewrite IH. split; [by intros ?; split; [congruence|] | by intros [_ ?]].
Qed.

Lemma obj_get_is_Some k o : is_Some (obj_get o k) ↔ k ∈ obj_keys o.
Proof.
  rewrite <-not_eq_None_Some, obj_get_None.
  split; [apply dec_stable | by intros ? ?].
Qed.

Lemma obj_get_elem_of k v o : obj_get o k = Some v → (k, v) ∈ o.
Proof.
  induction o as [|[k' v'] o IH]; simpl; [done|].
  destruct (String.eqb_spec k' k) as [->|Hne].
  - intros [= ->]. left.
  - intros H. right. auto.
Qed.

Lemma obj_keys_set k k' v o :
  k' ∈ obj_keys (obj_set k v o) ↔ k' = k ∨ k' ∈ obj_keys o.
Proof.
  unfold obj_keys. induction o as [|[k0 v0] o IH]; simpl.
  - rewrite list_elem_of_singleton, elem_of_nil. tauto.
  - destruct (String.eqb_spec k0 k) as [->|Hne]; simpl.
    + rewrite elem_of_cons. tauto.
    + rewrite !elem_of_cons, IH. tauto.
Qed.

Lemma obj_keys_delete k k' o :
  k' ∈ obj_keys (obj_delete k o) ↔ k' ≠ k ∧ k' ∈ obj_keys o.
Proof.
  unfold obj_keys. induction o as [|[k0 v0] o IH]; simpl.
  - rewrite elem_of_nil. tauto.
  - destruct (String.eqb_spec k0 k) as [->|Hne]; simpl.
    + rewrite IH, elem_of_cons. tauto.
    + rewrite !elem_of_cons, IH.
      split; [intros [->|[??]]; auto | tauto].
Qed.

Lemma obj_wf_nil : obj_wf (V:=V) [].
Proof. apply NoDup_nil_2. Qed.

Lemma obj_wf_set k v o : obj_wf o → obj_wf (obj_set k v o).
Proof.
  unfold obj_wf, obj_keys. induction o as [|[k0 v0] o IH]; simpl.
  - intros _. apply NoDup_singleton.
  - rewrite list.NoDup_cons. intros [Hnin Hnd].
    destruct (String.eqb_spec k0 k) as [->|Hne]; simpl.
    + by apply list.NoDup_cons.
    + apply list.NoDup_cons. split; [|by apply IH].
      intros Hin. apply (obj_keys_set k k0 v o) in Hin as [?|?]; done.
Qed.

Lemma obj_wf_delete k o : obj_wf o → obj_wf (obj_delete k o).
Proof.
  unfold obj_wf, obj_keys. induction o as [|[k0 v0] o IH]; simpl; [done|].
  rewrite list.NoDup_cons. intros [Hnin Hnd].
  destruct (String.eqb_spec k0 k) as [->|Hne]; simpl; [by apply IH|].
  apply list.NoDup_cons. split; [|by apply IH].
  intros Hin. apply (obj_keys_delete k k0 o) in Hin as [_ ?]. done.
Qed.

Lemma obj_delete_absent k o : k ∉ obj_keys o → obj_delete k o = o.
Proof.
  unfold obj_keys. induction o as [|[k0 v0] o IH]; simpl; [done|].
  rewrite not_elem_of_cons. intros [Hne Hnin].
  destruct (String.eqb_spec k0 k) as [->|_]; [done|]. by rewrite IH.
Qed.

End ObjFacts.

(** ** Cell sets *)

Lemma all_true_nil : all_true [].
Proof. apply Forall_nil_2. Qed.

Lemma cell_set_nil : cell_set [].
Proof. split; [apply obj_wf_nil | apply all_true_nil]. Qed.

Lemma all_true_set k o : all_true o → all_true (obj_set k JTrue o).
Proof.
  unfold all_true. induction o as [|[k0 v0] o IH]; simpl.
  - intros _. by apply Forall_singleton.
  - rewrite Forall_cons_iff. intros [Hv Ho].
    destruct (k0 =? k)%string; apply Forall_cons; auto.
Qed.

Lemma all_true_delete k o : all_true o → all_true (obj_delete k o).
Proof.
  unfold all_true. induction o as [|[k0 v0] o IH]; simpl; [done|].
  rewrite Forall_cons_iff. intros [Hv Ho].
  destruct (k0 =? k)%string; [auto | apply Forall_cons; auto].
Qed.

Lemma cell_set_set k o : cell_set o → cell_set (obj_set k JTrue o).
Proof. intros [??]. split; [by apply obj_wf_set | by apply all_true_set]. Qed.

Lemma cell_set_delete k o : cell_set o → cell_set (obj_delete k o).
Proof. intros [??]. split; [by apply obj_wf_delete | by apply all_true_delete]. Qed.

(** In a cell set, the truthiness test at a key that inherits nothing is
    membership. *)
Lemma truthy_prop_key o k : truthy (prop o k) = true → k ∈ obj_keys o.
Proof.
  unfold prop. intros H. apply obj_get_is_Some.
  destruct (obj_get o k); [by eexists | done].
Qed.

Lemma all_true_get o k : all_true o → k ∈ obj_keys o → obj_get o k = Some JTrue.
Proof.
  intros Hall Hin. apply obj_get_is_Some in Hin as [v Hv].
  pose proof (obj_get_elem_of _ _ _ Hv) as Hel.
  unfold all_true in Hall. rewrite list.Forall_forall in Hall.
  specialize (Hall _ Hel). simpl in Hall. by subst.
Qed.

Lemma truthy_prop_iff o k :
  all_true o → truthy (prop o k) = true ↔ k ∈ obj_keys o.
Proof.
  intros Hall. split; [apply truthy_prop_key|].
  intros Hin. unfold prop. by rewrite (all_true_get o k Hall Hin).
Qed.

Lemma truthy_prop_false_iff o k :
  all_true o → truthy (prop o k) = false ↔ k ∉ obj_keys o.
Proof.
  intros Hall. rewrite <-(truthy_prop_iff o k Hall).
  destruct (truthy (prop o k)); naive_solver.
Qed.

(** ** [sameCells] against set equality of cell sets

    [sameCells left right] reads [right] at the keys of [left].  A key of
    [left] that names a member of [Object.prototype] reads truthy whether
    or not [right] holds it, so the test decides set equality for a [left]
    without such keys. *)

Lemma set_equal_length {V W} (l : obj V) (r : obj W) :
  obj_wf l → obj_wf r → set_equal l r →
  length (obj_keys l) = length (obj_keys r).
Proof.
  intros Hl Hr Heq. apply Permutation_length.
  by apply NoDup_Permutation.
Qed.

Lemma truthyRead_key o k :
  inherited k = false → truthyRead o k = true → k ∈ obj_keys o.
Proof.
  unfold truthyRead. intros Hk H. apply obj_get_is_Some.
  destruct (obj_get o k); [by eexists | congruence].
Qed.

Lemma truthyRead_elem o k :
  all_true o → k ∈ obj_keys o → truthyRead o k = true.
Proof.
  intros Hall Hin. unfold truthyRead. by rewrite (all_true_get o k Hall Hin).
Qed.

Lemma truthyRead_prop o k :
  inherited k = false → truthyRead o k = truthy (prop o k).
Proof.
  intros Hk. unfold truthyRead, prop. by destruct (obj_get o k).
Qed.

Lemma truthyRead_inherited o k :
  all_true o → inherited k = true → truthyRead o k = true.
Proof.
  intros Hall Hk. unfold truthyRead.
  destruct (obj_get o k) as [v|] eqn:Hget; [|done].
  rewrite (all_true_get o k Hall) in Hget; [by simplify_eq|].
  apply obj_get_is_Some. by eexists.
Qed.

Lemma inherited_dashfree k : inherited k = true → dashfree k = true.
Proof.
  unfold inherited. rewrite existsb_exists.
  intros (name & Hin & ->%String.eqb_eq).
  unfold objectPrototypeNames in Hin. cbn [In] in Hin.
  repeat (destruct Hin as [<-|Hin]; [reflexivity|]). done.
Qed.

Lemma dashfree_app_dash a b : dashfree (a +:+ String "-" b) = false.
Proof.
  induction a as [|c a IH]; [done|].
  change (negb (Ascii.eqb c "-"%char) && dashfree (a +:+ String "-" b) = false).
  by rewrite IH, andb_false_r.
Qed.

(** No slot key is a name inherited from [Object.prototype]. *)
Lemma keyFor_not_inherited d s : inherited (keyFor d s) = false.
Proof.
  destruct (inherited (keyFor d s)) eqn:H; [|done].
  apply inherited_dashfree in H.
  change (dashfree (pretty d +:+ String "-" (pretty s)) = true) in H.
  by rewrite dashfree_app_dash in H.
Qed.

Lemma own_names_elem {V} (o : obj V) k :
  own_names o → k ∈ obj_keys o → inherited k = false.
Proof. unfold own_names. rewrite list.Forall_forall. auto. Qed.

Lemma sameCells_set_equal left right :
  obj_wf left → obj_wf right → all_true right →
  set_equal left right → sameCells left right = true.
Proof.
  intros Hl Hr Hall Heq. unfold sameCells.
  rewrite (set_equal_length left right Hl Hr Heq), Nat.eqb_refl. simpl.
  apply forallb_forall. intros k Hin. apply truthyRead_elem; [done|].
  apply Heq. by apply list_elem_of_In.
Qed.

Lemma sameCells_true_set_equal left right :
  obj_wf left → own_names left →
  sameCells left right = true → set_equal left right.
Proof.
  intros Hl Hown. unfold sameCells.
  destruct (Nat.eqb_spec (length (obj_keys left)) (length (obj_keys right)))
    as [Hlen|Hlen]; simpl; [|done].
  rewrite forallb_forall. intros Hsub.
  assert (∀ x, x ∈ obj_keys left → x ∈ obj_keys right) as Hincl.
  { intros x Hx. apply truthyRead_key; [by eapply own_names_elem|].
    by apply Hsub, list_elem_of_In. }
  intros k. split; [apply Hincl|].
  assert (obj_keys left ≡ₚ obj_keys right) as ->; [|done].
  apply submseteq_length_Permutation; [|lia].
  by apply NoDup_submseteq.
Qed.

Lemma sameCells_true_iff left right :
  obj_wf left → obj_wf right → all_true right → own_names left →
  sameCells left right = true ↔ set_equal left right.
Proof.
  intros Hl Hr Hall Hown. split.
  - by apply sameCells_true_set_equal.
  - by apply sameCells_set_equal.
Qed.

Lemma sameCells_false_iff left right :
  obj_wf left → obj_wf right → all_true right → own_names left →
  sameCells left right = false ↔ ¬ set_equal left right.
Proof.
  intros Hl Hr Hall Hown.
  rewrite <-(sameCells_true_iff left right Hl Hr Hall Hown).
  destruct (sameCells left right); split; done.
Qed.

Lemma set_equal_sym {V W} (l : obj V) (r : obj W) : set_equal l r → set_equal r l.
Proof. intros H k. by rewrite (H k). Qed.

Lemma set_equal_perm {V} (l r : obj V) : l ≡ₚ r → set_equal l r.
Proof. intros H k. unfold obj_keys. by rewrite H. Qed.

(** ** Edits of the draft buffer *)

Lemma paintUpdater_unchanged key value previous :
  truthy (prop previous key) = value → paintUpdater key value previous = previous.
Proof. intros <-. unfold paintUpdater. by rewrite Bool.eqb_reflx. Qed.

Lemma paintUpdater_marks key value previous :
  truthy (prop (paintUpdater key value previous) key) = value.
Proof.
  unfold paintUpdater.
  destruct (Bool.eqb_spec (truthy (prop previous key)) value) as [|Hne]; [done|].
  destruct value; unfold prop.
  - by rewrite obj_get_set_eq.
  - by rewrite obj_get_delete_eq.
Qed.

Lemma paintUpdater_idempotent key value previous :
  paintUpdater key value (paintUpdater key value previous)
  = paintUpdater key value previous.
Proof. apply paintUpdater_unchanged, paintUpdater_marks. Qed.

Lemma paintUpdater_cell_set key value previous :
  cell_set previous → cell_set (paintUpdater key value previous).
Proof.
  intros H. unfold paintUpdater.
  destruct (Bool.eqb _ _); [done|].
  destruct value; [by apply cell_set_set | by apply cell_set_delete].
Qed.

(** The gates read neither the draft buffer nor the gesture state. *)
Lemma canEditSelected_setDraftCells f st :
  canEditSelected (setDraftCells f st) = canEditSelected st.
Proof. reflexivity. Qed.

Lemma isCellInputEnabled_setDraftCells f st :
  isCellInputEnabled (setDraftCells f st) = isCellInputEnabled st.
Proof. reflexivity. Qed.

Lemma isCellInputEnabled_setTouchGesture f st :
  isCellInputEnabled (setTouchGesture f st) = isCellInputEnabled st.
Proof. reflexivity. Qed.

Lemma isCellInputEnabled_setDrawing f st :
  isCellInputEnabled (setDrawing f st) = isCellInputEnabled st.
Proof. reflexivity. Qed.

Lemma setDraftCells_id f st :
  f (draftCells st) = draftCells st → setDraftCells f st = st.
Proof. destruct st; simpl. unfold setDraftCells; simpl. by intros ->. Qed.

Lemma setDraftCells_ext f g st :
  f (draftCells st) = g (draftCells st) → setDraftCells f st = setDraftCells g st.
Proof. unfold setDraftCells. by intros ->. Qed.

Lemma setDraftCells_compose f g st :
  setDraftCells g (setDraftCells f st) = setDraftCells (λ c, g (f c)) st.
Proof. reflexivity. Qed.

Lemma paintCell_disabled d s v st :
  isCellInputEnabled st = false → paintCell d s v st = (st, []).
Proof. intros H. unfold paintCell. by rewrite H. Qed.

Lemma paintCell_enabled d s v st :
  isCellInputEnabled st = true →
  paintCell d s v st
  = (setDraftCells (paintUpdater (keyFor d s) v) st, [EditCell d s v]).
Proof. intros H. unfold paintCell. by rewrite H. Qed.

Lemma canEditSelected_iff st : canEditSelected st = true ↔ ownsSelected st.
Proof.
  unfold canEditSelected, ownsSelected.
  destruct (selectedMember st) as [m|].
  - rewrite String.eqb_eq. split; [by exists m | by intros (? & [= <-] & ?)].
  - split; [done | by intros (? & ? & _)].
Qed.

(** C3. Painting is idempotent: [paintCell(d,s,v)] applied twice leaves the
    state, and so the draft buffer, as one application does; and when the
    slot's membership in the buffer already equals [v] the edit changes
    nothing. *)
Theorem paintCell_idempotent (d s : Z) (v : bool) (st : HomeState) :
  (paintCell d s v (paintCell d s v st).1).1 = (paintCell d s v st).1
  ∧ (all_true (draftCells st) →
     (has_key (draftCells st) (keyFor d s) ↔ v = true) →
     (paintCell d s v st).1 = st).
Proof.
  split.
  - destruct (isCellInputEnabled st) eqn:Hen.
    + rewrite (paintCell_enabled d s v st Hen). simpl.
      rewrite paintCell_enabled by done. simpl.
      rewrite setDraftCells_compose.
      apply setDraftCells_ext, paintUpdater_idempotent.
    + rewrite (paintCell_disabled d s v st Hen). simpl.
      by rewrite (paintCell_disabled d s v st Hen).
  - intros Hall Hmem.
    destruct (isCellInputEnabled st) eqn:Hen.
    + rewrite (paintCell_enabled d s v st Hen). simpl.
      apply setDraftCells_id, paintUpdater_unchanged.
      destruct v.
      * apply truthy_prop_iff; [done|]. by apply Hmem.
      * apply truthy_prop_false_iff; [done|]. intros Hin.
        by apply Hmem in Hin.
    + by rewrite (paintCell_disabled d s v st Hen).
Qed.

(** C9. An edit from a disabled context (the selected member is not the
    local user's own row, or the viewport is mobile with edit mode off)
    returns normally with the whole state, draft buffer and member list
    included, unchanged and nothing issued. *)
Theorem paintCell_disabled_context (d s : Z) (v : bool) (st : HomeState) :
  ¬ ownsSelected st ∨ (isMobileViewport st = true ∧ mobileEditEnabled st = false) →
  paintCell d s v st = (st, [])
  ∧ draftCells (paintCell d s v st).1 = draftCells st
  ∧ members (paintCell d s v st).1 = members st.
Proof.
  intros Hdis.
  assert (isCellInputEnabled st = false) as Hen.
  { unfold isCellInputEnabled. destruct Hdis as [Hown|[-> ->]].
    - rewrite <-canEditSelected_iff in Hown.
      by destruct (canEditSelected st).
    - simpl. by rewrite andb_false_r. }
  by rewrite (paintCell_disabled d s v st Hen).
Qed.

(** ** Commit and reconciliation *)

(** With a committed row [m] for the local user, a commit of a buffer that is
    set-equal to the committed cells, whatever the order in which the keys
    of either record were inserted, sends nothing; when no key of the
    committed cells is a name inherited from [Object.prototype], any other
    buffer is sent whole, with [last_editor] the row's display name and
    [updated_at] the current instant. *)
Lemma persistMyCells_own_names (now : string) (buffer : obj jsval)
    (st : HomeState) (m : TeamMember) :
  myMember st = Some m → client st = true → userId st ≠ ""%string →
  cell_set buffer → cell_set (cells m) →
  (set_equal buffer (cells m) → persistMyCells now buffer st = None)
  ∧ (buffer ≡ₚ cells m → persistMyCells now buffer st = None)
  ∧ (own_names (cells m) → ¬ set_equal buffer (cells m) →
     persistMyCells now buffer st
     = Some {| upd_cells := buffer;
               upd_last_editor := display_name m;
               upd_updated_at := now |}).
Proof.
  intros Hm Hc Hu [Hbw Hbt] [Hmw Hmt].
  unfold persistMyCells. rewrite Hm, Hc. simpl.
  destruct (String.eqb_spec (userId st) "") as [|_]; [done|].
  assert (set_equal buffer (cells m) → sameCells (cells m) buffer = true) as Hsame.
  { intros Heq. apply sameCells_set_equal; [done..|]. by apply set_equal_sym. }
  split; [|split].
  - intros Heq. by rewrite Hsame.
  - intros Hperm. rewrite Hsame; [done|]. by apply set_equal_perm.
  - intros Hown Hne.
    assert (sameCells (cells m) buffer = false) as ->; [|done].
    apply sameCells_false_iff; [done..|].
    intros Heq. apply Hne. by apply set_equal_sym.
Qed.

(** When the local user's row is [m] and no gesture is active, the
    reconciliation effect keeps the draft buffer, the very same record, when
    it is set-equal to the committed cells; when no key of the buffer is a
    name inherited from [Object.prototype], it otherwise replaces the buffer
    by the committed cells; nothing else in the state changes. *)
Lemma reconcileDraft_own_names (st : HomeState) (m : TeamMember) :
  dr_active (drawing st) = false → myMember st = Some m →
  cell_set (draftCells st) → cell_set (cells m) →
  (set_equal (draftCells st) (cells m) → reconcileDraft st = st)
  ∧ (own_names (draftCells st) → ¬ set_equal (draftCells st) (cells m) →
     reconcileDraft st = setDraftCells (λ _, cells m) st).
Proof.
  intros Hd Hm [Hdw Hdt] [Hmw Hmt].
  assert (reconcileDraft st
          = setDraftCells
              (λ _, if sameCells (draftCells st) (cells m)
                    then draftCells st else cells m) st) as ->.
  { unfold reconcileDraft. rewrite Hd, Hm. by apply setDraftCells_ext. }
  split.
  - intros Heq. rewrite sameCells_set_equal; [|done..]. by apply setDraftCells_id.
  - intros Hown Hne.
    by rewrite (proj2 (sameCells_false_iff _ _ Hdw Hmw Hmt Hown) Hne).
Qed.

Lemma reachable_sampleFetch marked st :
  reachable st → reachable (sampleFetch marked st).
Proof. intros H. eapply reach_step; [exact H | apply step_fetch]. Qed.

Lemma reachable_sampleSignedIn : reachable sampleSignedIn.
Proof.
  apply (reach_step (initialState true)); [apply reach_init|].
  by apply step_other.
Qed.

(** C4. The commit does not short-circuit on set equality alone.  It tests
    the buffer at each committed key, and the read of a plain object at a
    name inherited from [Object.prototype] is truthy without the key being
    stored.  In the session [sampleOverwrittenMidDrag], which the component
    reaches, the committed row of the local user holds the one key
    [constructor] and the buffer the one slot [0-0]: both are cell sets and
    they differ, the release of the mouse calls the commit at once, and the
    commit sends nothing. *)
Theorem persistMyCells_inherited_key_defect :
  reachable sampleOverwrittenMidDrag
  ∧ client sampleOverwrittenMidDrag = true
  ∧ userId sampleOverwrittenMidDrag = "u1"%string
  ∧ myMember sampleOverwrittenMidDrag
    = Some (sampleMember "u1" "Ann" [("constructor", JTrue)])
  ∧ draftCells sampleOverwrittenMidDrag = [("0-0", JTrue)]
  ∧ cell_set [("0-0", JTrue)] ∧ cell_set [("constructor", JTrue)]
  ∧ ¬ set_equal (draftCells sampleOverwrittenMidDrag) [("constructor", JTrue)]
  ∧ (stopDrawing (Some sampleMouse) sampleOverwrittenMidDrag).2 = [Commit 0]
  ∧ (∀ now,
       persistMyCells now (draftCells sampleOverwrittenMidDrag)
         sampleOverwrittenMidDrag = None).
Proof.
  split.
  { apply reachable_sampleFetch.
    eapply reach_step; [|apply step_pointerDown].
    eapply reach_step; [|apply step_reconcile].
    apply reachable_sampleFetch, reachable_sampleSignedIn. }
  do 4 (split; [reflexivity|]).
  split; [split; repeat constructor; by intros ?%elem_of_nil|].
  split; [split; repeat constructor; by intros ?%elem_of_nil|].
  split; [|split; [reflexivity | intros now; reflexivity]].
  intros Heq. specialize (Heq "0-0"%string).
  assert ("0-0"%string ∈ obj_keys (V:=jsval) [("constructor", JTrue)]) as Hin.
  { apply Heq. left. }
  apply list_elem_of_singleton in Hin. discriminate Hin.
Qed.

(** C8. The reconciliation does not replace the buffer whenever it differs
    from the committed cells.  It tests the committed cells at each key of
    the buffer, and the read at a name inherited from [Object.prototype] is
    truthy without the key being stored.  In the session
    [sampleStaleInheritedDraft], which the component reaches with no gesture
    active, the buffer holds the one key [constructor] and the committed row
    of the local user the one slot [0-0]: both are cell sets and they
    differ, and the effect leaves the state, buffer included, as it is. *)
Theorem reconcileDraft_inherited_key_defect :
  reachable sampleStaleInheritedDraft
  ∧ dr_active (drawing sampleStaleInheritedDraft) = false
  ∧ tg_active (touchGesture sampleStaleInheritedDraft) = false
  ∧ myMember sampleStaleInheritedDraft
    = Some (sampleMember "u1" "Ann" [("0-0", JTrue)])
  ∧ draftCells sampleStaleInheritedDraft = [("constructor", JTrue)]
  ∧ cell_set [("constructor", JTrue)] ∧ cell_set [("0-0", JTrue)]
  ∧ ¬ set_equal (draftCells sampleStaleInheritedDraft) [("0-0", JTrue)]
  ∧ reconcileDraft sampleStaleInheritedDraft = sampleStaleInheritedDraft.
Proof.
  split.
  { apply reachable_sampleFetch.
    eapply reach_step; [|apply step_reconcile].
    apply reachable_sampleFetch, reachable_sampleSignedIn. }
  do 4 (split; [reflexivity|]).
  split; [split; repeat constructor; by intros ?%elem_of_nil|].
  split; [split; repeat constructor; by intros ?%elem_of_nil|].
  split; [|reflexivity].
  intros Heq. specialize (Heq "0-0"%string).
  assert ("0-0"%string ∈ obj_keys (draftCells sampleStaleInheritedDraft)) as Hin.
  { apply Heq. left. }
  apply list_elem_of_singleton in Hin. discriminate Hin.
Qed.

(** ** Staleness *)

Section StalenessFacts.

Variable parseDate : string → option Z.
Hypothesis parseDate_empty : parseDate "" = None.

Lemma isStaleWeek_true_iff updatedAt weekStartMs :
  isStaleWeek parseDate updatedAt weekStartMs = true
  ↔ instantOf parseDate updatedAt = None
    ∨ ∃ ms, instantOf parseDate updatedAt = Some ms ∧ ms < weekStartMs.
Proof.
  unfold isStaleWeek, instantOf. destruct updatedAt as [s|]; [|by split; auto].
  destruct (String.eqb_spec s "") as [->|_].
  { rewrite parseDate_empty. by split; auto. }
  destruct (parseDate s) as [ms|]; [|by split; auto].
  rewrite Z.ltb_lt. split.
  - intros H. right. by exists ms.
  - intros [|(ms' & [= <-] & H)]; done.
Qed.

Lemma isStaleWeek_false_iff updatedAt weekStartMs :
  isStaleWeek parseDate updatedAt weekStartMs = false
  ↔ ∃ ms, instantOf parseDate updatedAt = Some ms ∧ weekStartMs <= ms.
Proof.
  unfold isStaleWeek, instantOf. destruct updatedAt as [s|].
  - destruct (String.eqb_spec s "") as [->|_].
    + rewrite parseDate_empty. split; [done | by intros (? & ? & _)].
    + destruct (parseDate s) as [ms|].
      * rewrite Z.ltb_ge. split.
        -- intros H. by exists ms.
        -- by intros (ms' & [= <-] & H).
      * split; [done | by intros (? & ? & _)].
  - split; [done | by intros (? & ? & _)].
Qed.

(** C5. A fetched row whose [updated_at] is null, does not parse, or lies
    strictly before the week boundary is presented with empty cells and
    [is_stale = true]; one whose [updated_at] is at or after the boundary
    keeps its cells and gets [is_stale = false]. *)
Theorem presentRow_staleness (weekStartMs : Z) (row : jsval) :
  let member := toMember row in
  let shown := presentRow parseDate weekStartMs row in
  (instantOf parseDate (updated_at member) = None
   ∨ (∃ ms, instantOf parseDate (updated_at member) = Some ms ∧ ms < weekStartMs) →
   cells shown = [] ∧ is_stale shown = true)
  ∧ ((∃ ms, instantOf parseDate (updated_at member) = Some ms ∧ weekStartMs <= ms) →
     cells shown = cells member ∧ is_stale shown = false).
Proof.
  intros member shown. unfold shown, presentRow. fold member. split.
  - intros H. apply isStaleWeek_true_iff in H. by rewrite H.
  - intros H. apply isStaleWeek_false_iff in H. by rewrite H.
Qed.

End StalenessFacts.

Lemma presentRow_staleness_witness :
  (cells (presentRow sampleParseDate sampleWeekStartMs
            (sampleRow "u1" "Ann" "2026-10-20T12:00:00.000Z" [("0-0", JTrue)])) = []
   ∧ is_stale (presentRow sampleParseDate sampleWeekStartMs
                 (sampleRow "u1" "Ann" "2026-10-20T12:00:00.000Z" [("0-0", JTrue)]))
     = true)
  ∧ (cells (presentRow sampleParseDate sampleWeekStartMs
              (sampleRow "u1" "Ann" "2026-10-28T12:00:00.000Z" [("0-0", JTrue)]))
     = [("0-0", JTrue)]
     ∧ is_stale (presentRow sampleParseDate sampleWeekStartMs
                   (sampleRow "u1" "Ann" "2026-10-28T12:00:00.000Z" [("0-0", JTrue)]))
       = false).
Proof.
  split.
  - apply (presentRow_staleness sampleParseDate eq_refl sampleWeekStartMs
             (sampleRow "u1" "Ann" "2026-10-20T12:00:00.000Z" [("0-0", JTrue)])).
    right. exists 1792497600000. split; [reflexivity | vm_compute; reflexivity].
  - apply (presentRow_staleness sampleParseDate eq_refl sampleWeekStartMs
             (sampleRow "u1" "Ann" "2026-10-28T12:00:00.000Z" [("0-0", JTrue)])).
    exists 1793188800000. split; [reflexivity | vm_compute; discriminate].
Defined.

(** ** Loops over the grid *)

Lemma fold_left_fmap {A B C} (f : A → B → A) (g : C → B) (l : list C) (a : A) :
  fold_left f (map g l) a = fold_left (λ acc x, f acc (g x)) l a.
Proof. revert a. induction l as [|x l IH]; intros a; simpl; [done|]. apply IH. Qed.

Lemma fold_left_concat {A B} (f : A → B → A) (ls : list (list B)) (a : A) :
  fold_left f (concat ls) a = fold_left (λ acc l, fold_left f l acc) ls a.
Proof.
  revert a. induction ls as [|l ls IH]; intros a; simpl; [done|].
  by rewrite fold_left_app, IH.
Qed.

Lemma fold_left_pointwise {A B} (f g : A → B → A) (l : list B) (a : A) :
  (∀ acc x, f acc x = g acc x) → fold_left f l a = fold_left g l a.
Proof.
  intros Hfg. revert a. induction l as [|x l IH]; intros a; simpl; [done|].
  by rewrite Hfg, IH.
Qed.

Lemma forGrid_gridKeys {A} (body : A → string → A) (init : A) :
  forGrid body init = fold_left body gridKeys init.
Proof.
  unfold forGrid, gridKeys. rewrite fold_left_concat, fold_left_fmap.
  apply fold_left_pointwise. intros acc day. by rewrite fold_left_fmap.
Qed.

Lemma elem_of_gridKeys key :
  key ∈ gridKeys
  ↔ ∃ d s, 0 <= d < DAY_COUNT ∧ 0 <= s < SLOT_COUNT ∧ key = keyFor d s.
Proof.
  unfold gridKeys. rewrite list_elem_of_In, in_concat. split.
  - intros (l & Hl & Hkey). apply in_map_iff in Hl as (d & <- & Hd).
    apply in_map_iff in Hkey as (s & <- & Hs).
    apply list_elem_of_In, elem_of_seqZ in Hd, Hs. exists d, s. repeat split; lia.
  - intros (d & s & Hd & Hs & ->). exists (map (keyFor d) (seqZ 0 SLOT_COUNT)).
    split; apply in_map_iff.
    + exists d. split; [done|]. apply list_elem_of_In, elem_of_seqZ. lia.
    + exists s. split; [done|]. apply list_elem_of_In, elem_of_seqZ. lia.
Qed.

Lemma obj_get_fold_set {V} (f : string → V) (ks : list string) (init : obj V) k :
  obj_get (fold_left (λ o key, obj_set key (f key) o) ks init) k
  = if decide (k ∈ ks) then Some (f k) else obj_get init k.
Proof.
  revert init. induction ks as [|a ks IH]; intros init; cbn [fold_left].
  - destruct (decide (k ∈ [])) as [Hin|_]; [|done]. by apply elem_of_nil in Hin.
  - rewrite IH. destruct (decide (k ∈ ks)) as [Hin|Hnin].
    + by rewrite decide_True by (by right).
    + destruct (decide (k = a)) as [->|Hne].
      * rewrite decide_True by left. apply obj_get_set_eq.
      * rewrite decide_False by (by intros [?|?]%elem_of_cons).
        by apply obj_get_set_ne.
Qed.

Lemma obj_keys_fold_mark (p : string → bool) (ks : list string) (init : obj jsval) k :
  k ∈ obj_keys (fold_left (λ o key, if p key then obj_set key JTrue o else o) ks init)
  ↔ (k ∈ ks ∧ p k = true) ∨ k ∈ obj_keys init.
Proof.
  revert init. induction ks as [|a ks IH]; intros init; simpl.
  - rewrite elem_of_nil. tauto.
  - rewrite IH, elem_of_cons. destruct (p a) eqn:Hpa.
    + rewrite obj_keys_set. split.
      * intros [[??]|[->|?]]; auto.
      * intros [[[->|?] ?]|?]; auto.
    + split.
      * intros [[??]|?]; auto.
      * intros [[[->|?] ?]|?]; auto. congruence.
Qed.

Lemma cell_set_fold_mark (p : string → bool) (ks : list string) (init : obj jsval) :
  cell_set init →
  cell_set (fold_left (λ o key, if p key then obj_set key JTrue o else o) ks init).
Proof.
  revert init. induction ks as [|a ks IH]; intros init Hinit; simpl; [done|].
  apply IH. destruct (p a); [by apply cell_set_set | done].
Qed.

(** ** Counting *)

Lemma countAvailable_shift (mfc : list TeamMember) key (a : Z) :
  fold_left (λ count member, count + (if isAvailable member key then 1 else 0)) mfc a
  = a + countAvailable mfc key.
Proof.
  unfold countAvailable. revert a.
  induction mfc as [|m mfc IH]; intros a; cbn [fold_left]; [lia|].
  rewrite IH, (IH (0 + _)). lia.
Qed.

Lemma countAvailable_membersWith (mfc : list TeamMember) key :
  Forall (λ m, all_true (cells m)) mfc →
  countAvailable mfc key = membersWith mfc key.
Proof.
  unfold membersWith. induction 1 as [|m mfc Hm Hall IH].
  - done.
  - unfold countAvailable. cbn [fold_left]. rewrite countAvailable_shift, IH, filter_cons.
    unfold isAvailable.
    destruct (decide (key ∈ obj_keys (cells m))) as [Hin|Hnin].
    + rewrite (proj2 (truthy_prop_iff _ _ Hm) Hin). simpl length. lia.
    + rewrite (proj2 (truthy_prop_false_iff _ _ Hm) Hnin). lia.
Qed.

(** ** Aggregation *)

Lemma membersForCalculation_all_true st :
  all_true (draftCells st) → Forall (λ m, all_true (cells m)) (members st) →
  Forall (λ m, all_true (cells m)) (membersForCalculation st).
Proof.
  intros Hd Hm. unfold membersForCalculation.
  induction Hm as [|m ms Hm Hms IH]; simpl; constructor; [|done].
  by destruct (user_id m =? userId st)%string.
Qed.

Lemma membersForCalculation_local st m :
  m ∈ membersForCalculation st → user_id m = userId st → cells m = draftCells st.
Proof.
  unfold membersForCalculation. intros (m0 & -> & _)%list_elem_of_fmap.
  destruct (String.eqb_spec (user_id m0) (userId st)); simpl; [done|].
  intros ?. done.
Qed.

Lemma availabilityCount_lookup (mfc : list TeamMember) key :
  obj_get (availabilityCountByCell mfc) key
  = if decide (key ∈ gridKeys) then Some (countAvailable mfc key) else None.
Proof.
  unfold availabilityCountByCell. rewrite forGrid_gridKeys.
  apply (obj_get_fold_set (countAvailable mfc)).
Qed.

Lemma countIs_true_iff (counts : obj Z) key n :
  countIs counts key n = true ↔ obj_get counts key = Some n.
Proof.
  unfold countIs. destruct (obj_get counts key) as [c|]; [|done].
  rewrite Z.eqb_eq. split; [by intros -> | by intros [= ->]].
Qed.

Lemma memberCount_zero_iff (mfc : list TeamMember) : memberCount mfc = 0 ↔ mfc = [].
Proof. unfold memberCount. destruct mfc; simpl; split; (done || lia). Qed.

Lemma commonCells_key (mfc : list TeamMember) key :
  has_key (commonCells mfc) key
  ↔ mfc ≠ [] ∧ obj_get (availabilityCountByCell mfc) key = Some (memberCount mfc).
Proof.
  unfold has_key, commonCells.
  destruct (Z.eqb_spec (memberCount mfc) 0) as [Hz|Hnz].
  - apply memberCount_zero_iff in Hz. subst mfc.
    split; [by intros ?%elem_of_nil | by intros [? _]].
  - rewrite forGrid_gridKeys.
    rewrite (obj_keys_fold_mark
               (λ key, countIs (availabilityCountByCell mfc) key (memberCount mfc))).
    rewrite countIs_true_iff, availabilityCount_lookup.
    assert (mfc ≠ []) as Hne by (by rewrite <-memberCount_zero_iff).
    destruct (decide (key ∈ gridKeys)) as [Hin|Hnin]; split.
    + intros [[_ ?]|?%elem_of_nil]; done.
    + intros [_ ?]. by left.
    + intros [[? _]|?%elem_of_nil]; done.
    + by intros [_ ?].
Qed.

Lemma commonCells_cell_set (mfc : list TeamMember) : cell_set (commonCells mfc).
Proof.
  unfold commonCells. destruct (memberCount mfc =? 0); [apply cell_set_nil|].
  rewrite forGrid_gridKeys.
  apply (cell_set_fold_mark
           (λ key, countIs (availabilityCountByCell mfc) key (memberCount mfc))).
  apply cell_set_nil.
Qed.

(** C1. With the local user's cells taken from the draft buffer, the count
    computed for a slot key is the number of members whose cell set contains
    the key, and the common set holds exactly the keys whose count is the
    number of members; with no members it is empty. *)
Theorem aggregation_counts_and_common (st : HomeState) :
  all_true (draftCells st) → Forall (λ m, all_true (cells m)) (members st) →
  let mfc := membersForCalculation st in
  (∀ m, m ∈ mfc → user_id m = userId st → cells m = draftCells st)
  ∧ (∀ d s, 0 <= d < DAY_COUNT → 0 <= s < SLOT_COUNT →
       obj_get (availabilityCountByCell mfc) (keyFor d s)
       = Some (membersWith mfc (keyFor d s)))
  ∧ (∀ key, has_key (commonCells mfc) key
            ↔ mfc ≠ []
              ∧ obj_get (availabilityCountByCell mfc) key = Some (memberCount mfc))
  ∧ (∀ d s, 0 <= d < DAY_COUNT → 0 <= s < SLOT_COUNT →
       has_key (commonCells mfc) (keyFor d s)
       ↔ mfc ≠ [] ∧ membersWith mfc (keyFor d s) = memberCount mfc)
  ∧ (members st = [] → commonCells mfc = []).
Proof.
  intros Hd Hm mfc.
  pose proof (membersForCalculation_all_true st Hd Hm) as Hall. fold mfc in Hall.
  assert (∀ d s, 0 <= d < DAY_COUNT → 0 <= s < SLOT_COUNT →
            obj_get (availabilityCountByCell mfc) (keyFor d s)
            = Some (membersWith mfc (keyFor d s))) as Hcount.
  { intros d s Hdr Hsr. rewrite availabilityCount_lookup.
    rewrite decide_True by (apply elem_of_gridKeys; eauto).
    by rewrite countAvailable_membersWith. }
  split; [apply membersForCalculation_local|].
  split; [done|].
  split; [apply commonCells_key|].
  split.
  - intros d s Hdr Hsr. rewrite commonCells_key, Hcount by done.
    split; intros [? Heq]; (split; [done|]); congruence.
  - intros Hnil. unfold mfc, membersForCalculation. by rewrite Hnil.
Qed.

Lemma aggregation_counts_and_common_witness :
  obj_get (availabilityCountByCell (membersForCalculation sampleState)) (keyFor 0 1)
  = Some (membersWith (membersForCalculation sampleState) (keyFor 0 1)).
Proof.
  refine (proj1 (proj2 (aggregation_counts_and_common sampleState _ _)) 0 1 _ _).
  - repeat constructor.
  - repeat constructor.
  - vm_compute. split; intros; discriminate || reflexivity.
  - vm_compute. split; intros; discriminate || reflexivity.
Defined.

(** The worked example of the specification: A marks (0,0), B marks (0,0)
    and (0,1), C marks nothing. *)
Example aggregation_example :
  let mfc := membersForCalculation sampleState in
  obj_get (availabilityCountByCell mfc) "0-0" = Some 2
  ∧ obj_get (availabilityCountByCell mfc) "0-1" = Some 1
  ∧ commonCells mfc = []
  ∧ commonCellCount mfc = 0%nat.
Proof. vm_compute. done. Qed.

Example aggregation_example_all_mark :
  let st := setMembers [sampleMember "u1" "Ann" [("0-0", JTrue)];
                        sampleMember "u2" "Ben" [("0-0", JTrue); ("0-1", JTrue)];
                        sampleMember "u3" "Cy" [("0-0", JTrue)]] sampleState in
  commonCells (membersForCalculation st) = [("0-0", JTrue)]
  ∧ commonCellCount (membersForCalculation st) = 1%nat.
Proof. vm_compute. done. Qed.

(** ** Block extraction *)

Lemma isCommonSlot_iff common d slot :
  0 <= slot → isCommonSlot common d slot = true ↔ commonAt common d slot.
Proof.
  intros Hs. unfold isCommonSlot, commonAt.
  destruct (Z.ltb_spec slot SLOT_COUNT) as [Hlt|Hge]; simpl.
  - split; [intros ?; split; [lia|done] | by intros [_ ?]].
  - split; [done | intros [? _]; lia].
Qed.

Lemma scanSlot_cases common minSlots d start blocks slot :
  scanSlot common minSlots d (start, blocks) slot
  = if isCommonSlot common d slot
    then (if start <? 0 then slot else start, blocks)
    else if 0 <=? start
         then (-1,
               if minSlots <=? slot - start
               then blocks ++ [{| day := d; startSlot := start; endSlot := slot;
                                  minutes := (slot - start) * SLOT_MINUTES |}]
               else blocks)
         else (start, blocks).
Proof.
  unfold scanSlot, isCommonSlot.
  destruct ((slot <? SLOT_COUNT) && truthy _); simpl; [|done].
  by destruct (start <? 0).
Qed.

Lemma scanInv_init common minSlots d blocks0 :
  scanInv common minSlots d blocks0 0 (-1, blocks0).
Proof.
  unfold scanInv; simpl. split; [by left|]. split; [lia|].
  split; [intros _ [? _]; lia|].
  intros b. split; [by left|]. intros [?|(_ & (? & _) & ? & _)]; [done|lia].
Qed.

Lemma runIn_end_common common b :
  runIn common b → commonAt common (day b) (endSlot b - 1).
Proof. intros (? & ? & Hall & _). apply Hall. lia. Qed.

Lemma scanInv_step common minSlots d blocks0 k acc :
  0 <= k <= SLOT_COUNT →
  scanInv common minSlots d blocks0 k acc →
  scanInv common minSlots d blocks0 (k + 1) (scanSlot common minSlots d acc k).
Proof.
  intros Hk. destruct acc as [start blocks].
  intros (Hsign & Hrun & Hidle & Hblocks). simpl in Hsign, Hrun, Hidle, Hblocks.
  rewrite scanSlot_cases. unfold scanInv.
  destruct (isCommonSlot common d k) eqn:Hc.
  - (* slot [k] is common: the run starts or goes on, nothing is emitted *)
    apply isCommonSlot_iff in Hc; [|lia].
    assert (∀ b, b ∈ blocks
                 ↔ b ∈ blocks0
                   ∨ (day b = d ∧ runIn common b ∧ endSlot b < k + 1
                      ∧ minSlots <= endSlot b - startSlot b)) as Hblocks'.
    { intros b. rewrite Hblocks. split.
      - intros [?|(Hd & Hr & Hlt & Hmin)]; [by left|].
        right. refine (conj Hd (conj Hr (conj _ Hmin))). lia.
      - intros [?|(Hd & Hr & Hlt & Hmin)]; [by left|].
        right. refine (conj Hd (conj Hr (conj _ Hmin))).
        destruct (decide (endSlot b = k)) as [He|]; [|lia].
        destruct Hr as (_ & _ & _ & _ & Hend & _). rewrite Hd, He in Hend. done. }
    destruct (Z.ltb_spec start 0) as [Hneg|Hpos]; simpl.
    + split; [right; lia|]. split; [|split; [lia|done]].
      intros _. split; [lia|]. split.
      * intros s Hs. by replace s with k by lia.
      * apply Hidle. lia.
    + destruct (Hrun Hpos) as (Hlt & Hall & Hbefore).
      split; [by right|]. split; [|split; [lia|done]].
      intros _. split; [lia|]. split; [|done].
      intros s Hs. destruct (decide (s = k)) as [->|]; [done|]. apply Hall. lia.
  - (* slot [k] is not common: a run in progress ends here *)
    assert (¬ commonAt common d k) as Hnc.
    { intros Hcom. apply isCommonSlot_iff in Hcom; [|lia]. congruence. }
    destruct (Z.leb_spec 0 start) as [Hpos|Hneg]; simpl.
    + destruct (Hrun Hpos) as (Hlt & Hall & Hbefore).
      split; [by left|]. split; [lia|]. split.
      { intros _. by replace (k + 1 - 1) with k by lia. }
      set (nb := {| day := d; startSlot := start; endSlot := k;
                    minutes := (k - start) * SLOT_MINUTES |}).
      assert (runIn common nb) as Hnb.
      { unfold runIn, nb; cbn [day startSlot endSlot minutes].
        refine (conj _ (conj _ (conj Hall (conj Hbefore (conj Hnc eq_refl))))); lia. }
      assert (∀ b, day b = d → runIn common b → endSlot b = k → b = nb) as Huniq.
      { intros b Hd (Hb1 & Hb2 & Hb3 & Hb4 & Hb5 & Hb6) He.
        assert (startSlot b = start) as Hs.
        { destruct (Z.lt_trichotomy (startSlot b) start) as [Hl|[?|Hg]]; [|done|].
          - destruct Hbefore. rewrite <-Hd. apply Hb3. lia.
          - destruct Hb4. rewrite Hd. apply Hall. lia. }
        destruct b as [bd bs be bm]; simpl in *. unfold nb. by subst. }
      intros b. destruct (Z.leb_spec minSlots (k - start)) as [Hlong|Hshort].
      * rewrite elem_of_app, list_elem_of_singleton, Hblocks. split.
        -- intros [[?|(Hd & Hr & Hlt' & Hmin)]| ->]; [by left| |].
           ++ right. refine (conj Hd (conj Hr (conj _ Hmin))). lia.
           ++ right. refine (conj eq_refl (conj Hnb (conj _ _))); simpl; lia.
        -- intros [?|(Hd & Hr & Hlt' & Hmin)]; [by left; left|].
           destruct (decide (endSlot b = k)) as [He|].
           ++ right. by apply Huniq.
           ++ left. right. refine (conj Hd (conj Hr (conj _ Hmin))). lia.
      * rewrite Hblocks. split.
        -- intros [?|(Hd & Hr & Hlt' & Hmin)]; [by left|].
           right. refine (conj Hd (conj Hr (conj _ Hmin))). lia.
        -- intros [?|(Hd & Hr & Hlt' & Hmin)]; [by left|].
           destruct (decide (endSlot b = k)) as [He|].
           ++ rewrite (Huniq b Hd Hr He) in Hmin. simpl in Hmin. lia.
           ++ right. refine (conj Hd (conj Hr (conj _ Hmin))). lia.
    + assert (start = -1) as -> by lia.
      split; [by left|]. split; [lia|]. split.
      { intros _. by replace (k + 1 - 1) with k by lia. }
      intros b. rewrite Hblocks. split.
      * intros [?|(Hd & Hr & Hlt & Hmin)]; [by left|].
        right. refine (conj Hd (conj Hr (conj _ Hmin))). lia.
      * intros [?|(Hd & Hr & Hlt & Hmin)]; [by left|].
        right. refine (conj Hd (conj Hr (conj _ Hmin))).
        destruct (decide (endSlot b = k)) as [He|]; [|lia].
        destruct (Hidle eq_refl). rewrite <-He, <-Hd. by apply runIn_end_common.
Qed.

Lemma scanInv_prefix common minSlots d blocks0 (n : nat) :
  Z.of_nat n <= SLOT_COUNT + 1 →
  scanInv common minSlots d blocks0 (Z.of_nat n)
    (fold_left (scanSlot common minSlots d) (seqZ 0 (Z.of_nat n)) (-1, blocks0)).
Proof.
  induction n as [|n IH]; intros Hn.
  - apply scanInv_init.
  - rewrite seqZ_S, fold_left_app. cbn [fold_left].
    replace (Z.of_nat (S n)) with (Z.of_nat n + 1) by lia.
    rewrite Z.add_0_l. apply scanInv_step; [lia|]. apply IH. lia.
Qed.

Lemma SLOT_COUNT_nonneg : 0 <= SLOT_COUNT.
Proof. by vm_compute. Qed.

Lemma scanDay_spec common minSlots blocks0 d b :
  b ∈ scanDay common minSlots blocks0 d
  ↔ b ∈ blocks0
    ∨ (day b = d ∧ runIn common b ∧ minSlots <= endSlot b - startSlot b).
Proof.
  pose proof SLOT_COUNT_nonneg as Hsc.
  pose proof (scanInv_prefix common minSlots d blocks0
                (Z.to_nat (SLOT_COUNT + 1))) as Hinv.
  rewrite Z2Nat.id in Hinv by lia. specialize (Hinv ltac:(lia)).
  destruct Hinv as (_ & _ & _ & Hblocks). unfold scanDay. rewrite Hblocks.
  split.
  - intros [?|(Hd & Hr & _ & Hmin)]; [by left|]. by right.
  - intros [?|(Hd & Hr & Hmin)]; [by left|]. right.
    refine (conj Hd (conj Hr (conj _ Hmin))).
    destruct Hr as (_ & ? & _). lia.
Qed.

Lemma scanDays_spec common minSlots (days : list Z) blocks0 b :
  b ∈ fold_left (scanDay common minSlots) days blocks0
  ↔ b ∈ blocks0
    ∨ (day b ∈ days ∧ runIn common b ∧ minSlots <= endSlot b - startSlot b).
Proof.
  revert blocks0. induction days as [|d days IH]; intros blocks0; cbn [fold_left].
  - split; [by left|]. intros [?|(?%elem_of_nil & _)]; done.
  - rewrite IH, scanDay_spec, elem_of_cons. split.
    + intros [[?|(Hd & Hr & Hmin)]|(Hd & Hr & Hmin)]; [by left| |].
      * right. refine (conj _ (conj Hr Hmin)). by left.
      * right. refine (conj _ (conj Hr Hmin)). by right.
    + intros [?|([Hd|Hd] & Hr & Hmin)]; [by left; left| |].
      * left. right. exact (conj Hd (conj Hr Hmin)).
      * right. exact (conj Hd (conj Hr Hmin)).
Qed.

Lemma runIn_start_common common b :
  runIn common b → commonAt common (day b) (startSlot b).
Proof. intros (? & ? & Hall & _). apply Hall. lia. Qed.

(** The blocks are the maximal runs of at least [minSlots] slots. *)
Lemma recommendedBlocks_minSlots common membersLength minimumDuration b :
  (membersLength = 0 → ∀ d s, ¬ commonAt common d s) →
  b ∈ recommendedBlocks common membersLength minimumDuration
  ↔ maximalRun common b
    ∧ Z.max 1 (minimumDuration / SLOT_MINUTES) <= endSlot b - startSlot b.
Proof.
  intros Hempty. unfold recommendedBlocks, maximalRun.
  destruct (Z.eqb_spec membersLength 0) as [Hz|Hnz].
  - split; [by intros ?%elem_of_nil|].
    intros [[_ Hr] _]. destruct (Hempty Hz _ _ (runIn_start_common _ _ Hr)).
  - rewrite scanDays_spec, elem_of_seqZ. split.
    + intros [?%elem_of_nil|(Hd & Hr & Hmin)]; [done|].
      split; [split; [lia|done] | done].
    + intros [[Hd Hr] Hmin]. right. split; [lia|done].
Qed.

Lemma minSlots_minutes (minimumDuration len : Z) :
  (SLOT_MINUTES | minimumDuration) → 1 <= len →
  Z.max 1 (minimumDuration / SLOT_MINUTES) <= len
  ↔ minimumDuration <= len * SLOT_MINUTES.
Proof.
  intros [q ->] Hlen. rewrite Z.div_mul by done.
  unfold SLOT_MINUTES. lia.
Qed.

(** C2, as the code has it.  Each day is scanned on its own over slots
    [0..SLOT_COUNT]; a block [{day, startSlot, endSlot, minutes}] with
    [minutes] the run length times [SLOT_MINUTES] is emitted for exactly the
    maximal runs of consecutive common slots of a day whose length in slots
    is at least [max 1 (floor (minimumDuration / SLOT_MINUTES))]; when
    [minimumDuration] is a multiple of [SLOT_MINUTES], as every offered
    duration is, that is exactly when the run's minutes reach
    [minimumDuration].  A run never extends over a day boundary.  With
    common slots 2,3,4,7,8 of one day and a minimum of 60 minutes the blocks
    are [2,5) of 90 minutes and [7,9) of 60 minutes, and a lone common slot
    gives no block. *)
Theorem recommendedBlocks_maximal_runs (common : obj jsval)
    (membersLength minimumDuration : Z) :
  (membersLength = 0 → ∀ d s, ¬ commonAt common d s) →
  (∀ b, b ∈ recommendedBlocks common membersLength minimumDuration
        ↔ maximalRun common b
          ∧ Z.max 1 (minimumDuration / SLOT_MINUTES) <= endSlot b - startSlot b)
  ∧ ((SLOT_MINUTES | minimumDuration) →
     ∀ b, b ∈ recommendedBlocks common membersLength minimumDuration
          ↔ maximalRun common b ∧ minimumDuration <= minutes b)
  ∧ (membersLength ≠ 0 →
     recommendedBlocks (cellsOfSlots 0 [2; 3; 4; 7; 8]) membersLength 60
     = [{| day := 0; startSlot := 2; endSlot := 5; minutes := 90 |};
        {| day := 0; startSlot := 7; endSlot := 9; minutes := 60 |}]
     ∧ recommendedBlocks (cellsOfSlots 0 [2; 3; 4; 7; 8; 10]) membersLength 60
       = [{| day := 0; startSlot := 2; endSlot := 5; minutes := 90 |};
          {| day := 0; startSlot := 7; endSlot := 9; minutes := 60 |}]
     ∧ recommendedBlocks (cellsOfSlots 0 [10]) membersLength 60 = []
     ∧ recommendedBlocks (cellsOfSlots 0 [15] ++ cellsOfSlots 1 [0]) membersLength 60
       = []
     ∧ recommendedBlocks (cellsOfSlots 0 [15] ++ cellsOfSlots 1 [0]) membersLength 30
       = [{| day := 0; startSlot := 15; endSlot := 16; minutes := 30 |};
          {| day := 1; startSlot := 0; endSlot := 1; minutes := 30 |}]).
Proof.
  intros Hempty. split; [|split].
  - intros b. by apply recommendedBlocks_minSlots.
  - intros Hdiv b. rewrite recommendedBlocks_minSlots by done.
    split; intros [Hrun Hmin]; (split; [done|]);
      pose proof Hrun as (_ & ? & _ & _ & _ & _ & Hminutes).
    + rewrite Hminutes. apply minSlots_minutes; [done|lia|done].
    + rewrite Hminutes in Hmin. apply minSlots_minutes; [done|lia|done].
  - intros Hnz. unfold recommendedBlocks.
    destruct (Z.eqb_spec membersLength 0) as [|_]; [done|].
    repeat split; vm_compute; reflexivity.
Qed.

Lemma recommendedBlocks_maximal_runs_witness :
  {| day := 0; startSlot := 7; endSlot := 9; minutes := 60 |}
    ∈ recommendedBlocks (cellsOfSlots 0 [2; 3; 4; 7; 8]) 3 60
  ↔ maximalRun (cellsOfSlots 0 [2; 3; 4; 7; 8])
      {| day := 0; startSlot := 7; endSlot := 9; minutes := 60 |}
    ∧ 60 <= minutes {| day := 0; startSlot := 7; endSlot := 9; minutes := 60 |}.
Proof.
  refine (proj1 (proj2 (recommendedBlocks_maximal_runs
                          (cellsOfSlots 0 [2; 3; 4; 7; 8]) 3 60 _)) _ _).
  - intros H. discriminate H.
  - exists 2. reflexivity.
Defined.

(** The claim as first stated, with "exactly when the run's minutes meet or
    exceed the minimum" for every minimum, fails for a minimum of 45
    minutes: a lone common slot, 30 minutes long, is emitted. *)
Lemma recommendedBlocks_minutes_counterexample :
  ¬ (∀ b, b ∈ recommendedBlocks (cellsOfSlots 0 [10]) 1 45
          ↔ maximalRun (cellsOfSlots 0 [10]) b ∧ 45 <= minutes b).
Proof.
  intros H.
  assert ({| day := 0; startSlot := 10; endSlot := 11; minutes := 30 |}
            ∈ recommendedBlocks (cellsOfSlots 0 [10]) 1 45) as Hin.
  { assert (recommendedBlocks (cellsOfSlots 0 [10]) 1 45
            = [{| day := 0; startSlot := 10; endSlot := 11; minutes := 30 |}]) as ->
      by (vm_compute; reflexivity).
    apply list_elem_of_here. }
  apply H in Hin as [_ Hmin]. simpl in Hmin. lia.
Qed.

(** ** Touch gestures *)

Lemma setTouchGesture_ext f g st :
  f (touchGesture st) = g (touchGesture st) →
  setTouchGesture f st = setTouchGesture g st.
Proof. unfold setTouchGesture. by intros ->. Qed.

Lemma Qgtb_true_iff (a b : Q) : Qgtb a b = true ↔ (b < a)%Q.
Proof.
  unfold Qgtb. rewrite negb_true_iff, <-not_true_iff_false, Qle_bool_iff.
  split; [apply Qnot_le_lt | apply Qlt_not_le].
Qed.

Lemma belowThreshold_iff g e :
  (absDX g e <? TOUCH_GESTURE_START_PX) && (absDY g e <? TOUCH_GESTURE_START_PX) = true
  ↔ belowThreshold g e.
Proof. unfold belowThreshold. rewrite andb_true_iff, !Z.ltb_lt. done. Qed.

Lemma paintCell_touchGesture d s v st :
  touchGesture (paintCell d s v st).1 = touchGesture st.
Proof. unfold paintCell. by destruct (isCellInputEnabled st). Qed.

Lemma paintCell_drawing d s v st :
  drawing (paintCell d s v st).1 = drawing st.
Proof. unfold paintCell. by destruct (isCellInputEnabled st). Qed.

Lemma paintFound_touchGesture found v st :
  touchGesture (paintFound found v st).1 = touchGesture st.
Proof. destruct found as [[d s]|]; [apply paintCell_touchGesture | done]. Qed.

Lemma paintFound_drawing found v st :
  drawing (paintFound found v st).1 = drawing st.
Proof. destruct found as [[d s]|]; [apply paintCell_drawing | done]. Qed.

(** Every pointer move during a gesture in scroll mode is dropped. *)
Lemma handlePointerMove_scroll e st :
  tg_active (touchGesture st) = true → tg_mode (touchGesture st) = scroll →
  handlePointerMove e st = (st, []).
Proof.
  intros Ha Hm. unfold handlePointerMove. rewrite Ha, Hm. simpl.
  by destruct (otherPointer (touchGesture st) e).
Qed.

Lemma handlePointerMoves_scroll moves st :
  tg_active (touchGesture st) = true → tg_mode (touchGesture st) = scroll →
  runHandlers (map handlePointerMove moves) st = (st, []).
Proof.
  intros Ha Hm. induction moves as [|e moves IH]; simpl; [done|].
  by rewrite (handlePointerMove_scroll e st Ha Hm), IH.
Qed.

Lemma stopDrawing_scroll ev st :
  tg_active (touchGesture st) = true → tg_mode (touchGesture st) = scroll →
  filter (λ x, is_edit x = true) (stopDrawing ev st).2 = [].
Proof.
  intros Ha Hm. unfold stopDrawing. rewrite Ha, Hm. simpl.
  destruct ev as [e|]; [destruct (otherPointer (touchGesture st) e)|];
    simpl; try done; by destruct (canEditSelected st).
Qed.

Lemma handlePointerMove_pending e st :
  tg_active (touchGesture st) = true → tg_mode (touchGesture st) = pending →
  otherPointer (touchGesture st) e = false →
  handlePointerMove e st
  = let g := touchGesture st in
    if (absDX g e <? TOUCH_GESTURE_START_PX) && (absDY g e <? TOUCH_GESTURE_START_PX)
    then (st, [])
    else if Qgtb (inject_Z (absDX g e)) (inject_Z (absDY g e) * TOUCH_GESTURE_AXIS_RATIO)
    then (setTouchGesture (with_mode scroll) st, [])
    else
      let st2 :=
        setDrawing (λ _, {| dr_active := true; dr_value := tg_value g |})
          (setTouchGesture (with_mode paint) st) in
      let r3 := paintCell (tg_startDay g) (tg_startSlot g) (tg_value g) st2 in
      let r4 := paintFound (cellAtPoint e) (tg_value g) r3.1 in
      (r4.1, r3.2 ++ r4.2).
Proof.
  intros Ha Hm Hp. unfold handlePointerMove, absDX, absDY.
  rewrite Ha, Hm, Hp. cbn [is_pending is_scroll].
  destruct (_ && _); [done|]. destruct (Qgtb _ _).
  - f_equal. apply setTouchGesture_ext. by rewrite Ha.
  - rewrite (setTouchGesture_ext _ (with_mode paint) st) by (by rewrite Ha).
    cbv zeta. destruct (paintCell _ _ _ _) as [st3 log3]. simpl.
    by destruct (paintFound _ _ st3) as [st4 log4].
Qed.

Lemma handlePointerMove_below e st :
  tg_active (touchGesture st) = true → tg_mode (touchGesture st) = pending →
  otherPointer (touchGesture st) e = false →
  belowThreshold (touchGesture st) e →
  handlePointerMove e st = (st, []).
Proof.
  intros Ha Hm Hp Hb. rewrite (handlePointerMove_pending e st Ha Hm Hp).
  apply belowThreshold_iff in Hb. cbv zeta. by rewrite Hb.
Qed.

Lemma handlePointerMove_to_scroll e st :
  tg_active (touchGesture st) = true → tg_mode (touchGesture st) = pending →
  otherPointer (touchGesture st) e = false →
  ¬ belowThreshold (touchGesture st) e → horizontalDominates (touchGesture st) e →
  handlePointerMove e st = (setTouchGesture (with_mode scroll) st, []).
Proof.
  intros Ha Hm Hp Hnb Hdom. rewrite (handlePointerMove_pending e st Ha Hm Hp).
  rewrite <-belowThreshold_iff in Hnb. apply not_true_is_false in Hnb.
  apply Qgtb_true_iff in Hdom. cbv zeta. by rewrite Hnb, Hdom.
Qed.

Lemma handlePointerMove_to_paint e st :
  tg_active (touchGesture st) = true → tg_mode (touchGesture st) = pending →
  otherPointer (touchGesture st) e = false →
  ¬ belowThreshold (touchGesture st) e → ¬ horizontalDominates (touchGesture st) e →
  handlePointerMove e st
  = let g := touchGesture st in
    let st2 :=
      setDrawing (λ _, {| dr_active := true; dr_value := tg_value g |})
        (setTouchGesture (with_mode paint) st) in
    let r3 := paintCell (tg_startDay g) (tg_startSlot g) (tg_value g) st2 in
    let r4 := paintFound (cellAtPoint e) (tg_value g) r3.1 in
    (r4.1, r3.2 ++ r4.2).
Proof.
  intros Ha Hm Hp Hnb Hnd. rewrite (handlePointerMove_pending e st Ha Hm Hp).
  rewrite <-belowThreshold_iff in Hnb. apply not_true_is_false in Hnb.
  assert (Qgtb (inject_Z (absDX (touchGesture st) e))
            (inject_Z (absDY (touchGesture st) e) * TOUCH_GESTURE_AXIS_RATIO)
          = false) as Hq.
  { apply not_true_is_false. intros H. apply Hnd. by apply Qgtb_true_iff. }
  cbv zeta. by rewrite Hnb, Hq.
Qed.

(** C6. For a touch gesture in state pending and a move of its pointer:
    while both displacements are below the 10px threshold the move is
    ignored; otherwise the gesture becomes a scroll when the horizontal
    displacement exceeds 1.2 times the vertical one, and a paint, with
    drawing started at the recorded value, when it does not.  Once a scroll,
    no later move and no end of the gesture edits a cell.  From (100,100), a
    move to (112,100) is a scroll and a move to (100,112) is a paint. *)
Theorem touch_axis_lock (st : HomeState) (e : PointerEvent) :
  let g := touchGesture st in
  let st' := (handlePointerMove e st).1 in
  tg_active g = true → tg_mode g = pending → otherPointer g e = false →
  (belowThreshold g e → handlePointerMove e st = (st, []))
  ∧ (¬ belowThreshold g e → horizontalDominates g e →
     handlePointerMove e st = (setTouchGesture (with_mode scroll) st, [])
     ∧ tg_mode (touchGesture st') = scroll
     ∧ (∀ moves, runHandlers (map handlePointerMove moves) st' = (st', []))
     ∧ (∀ ev, filter (λ x, is_edit x = true) (stopDrawing ev st').2 = []))
  ∧ (¬ belowThreshold g e → ¬ horizontalDominates g e →
     tg_mode (touchGesture st') = paint
     ∧ tg_active (touchGesture st') = true
     ∧ drawing st' = {| dr_active := true; dr_value := tg_value g |})
  ∧ (tg_startX g = 100 → tg_startY g = 100 →
     (clientX e = 112 → clientY e = 100 → tg_mode (touchGesture st') = scroll)
     ∧ (clientX e = 100 → clientY e = 112 → tg_mode (touchGesture st') = paint)).
Proof.
  intros g st' Ha Hm Hp.
  assert (¬ belowThreshold g e → horizontalDominates g e →
          handlePointerMove e st = (setTouchGesture (with_mode scroll) st, [])
          ∧ tg_mode (touchGesture st') = scroll
          ∧ (∀ moves, runHandlers (map handlePointerMove moves) st' = (st', []))
          ∧ (∀ ev, filter (λ x, is_edit x = true) (stopDrawing ev st').2 = []))
    as Hscroll.
  { intros Hnb Hdom. unfold st'.
    rewrite (handlePointerMove_to_scroll e st Ha Hm Hp Hnb Hdom).
    cbn [fst]. split; [done|]. split; [done|]. split.
    - intros moves. by apply handlePointerMoves_scroll.
    - intros ev. by apply stopDrawing_scroll. }
  assert (¬ belowThreshold g e → ¬ horizontalDominates g e →
          tg_mode (touchGesture st') = paint
          ∧ tg_active (touchGesture st') = true
          ∧ drawing st' = {| dr_active := true; dr_value := tg_value g |})
    as Hpaint.
  { intros Hnb Hnd. unfold st'.
    rewrite (handlePointerMove_to_paint e st Ha Hm Hp Hnb Hnd).
    cbv zeta. cbn [fst].
    rewrite paintFound_touchGesture, paintCell_touchGesture.
    rewrite paintFound_drawing, paintCell_drawing. done. }
  split; [by apply handlePointerMove_below|].
  split; [done|]. split; [done|].
  intros Hx Hy. split; intros Hcx Hcy.
  - apply Hscroll.
    + unfold belowThreshold, absDX, absDY. fold g. rewrite Hx, Hcx.
      intros [H _]. vm_compute in H. discriminate H.
    + unfold horizontalDominates, absDX, absDY. fold g.
      rewrite Hx, Hy, Hcx, Hcy. by vm_compute.
  - apply Hpaint.
    + unfold belowThreshold, absDX, absDY. fold g. rewrite Hy, Hcy.
      intros [_ H]. vm_compute in H. discriminate H.
    + unfold horizontalDominates, absDX, absDY. fold g.
      rewrite Hx, Hy, Hcx, Hcy. intros H. vm_compute in H. discriminate H.
Qed.

Lemma touch_axis_lock_witness :
  handlePointerMove (sampleMove 112 100 (Some (1, 3))) samplePending
  = (setTouchGesture (with_mode scroll) samplePending, []).
Proof.
  refine (proj1 (proj1 (proj2 (touch_axis_lock samplePending
                                 (sampleMove 112 100 (Some (1, 3))) _ _ _)) _ _)).
  - reflexivity.
  - reflexivity.
  - reflexivity.
  - intros [H _]. vm_compute in H. discriminate H.
  - vm_compute. reflexivity.
Defined.

(** The end of a gesture that is still pending, whatever the gates say. *)
Lemma stopDrawing_pending ev st :
  tg_active (touchGesture st) = true → tg_mode (touchGesture st) = pending →
  match ev with Some e => otherPointer (touchGesture st) e = false | None => True end →
  stopDrawing ev st
  = let g := touchGesture st in
    let r := paintCell (tg_startDay g) (tg_startSlot g) (tg_value g) st in
    let st2 :=
      setDrawing
        (λ previous,
           if dr_active previous
           then {| dr_active := false; dr_value := dr_value previous |}
           else previous)
        (setTouchGesture (λ _, idleGesture) r.1) in
    if canEditSelected st then (st2, r.2 ++ [Commit 80]) else (st2, r.2).
Proof.
  intros Ha Hm Hp. unfold stopDrawing. rewrite Ha, Hm. cbn [is_pending andb].
  assert (match ev with
          | Some e => otherPointer (touchGesture st) e
          | None => false
          end = false) as ->.
  { by destruct ev. }
  cbv zeta. destruct (paintCell _ _ _ st) as [st' log'] eqn:Hr. cbn [fst snd].
  rewrite (setTouchGesture_ext _ (λ _, idleGesture) st'); [done|].
  replace st' with (paintCell (tg_startDay (touchGesture st))
                      (tg_startSlot (touchGesture st))
                      (tg_value (touchGesture st)) st).1 by (by rewrite Hr).
  by rewrite paintCell_touchGesture, Ha.
Qed.

Lemma endDrawing_inactive previous : dr_active (endDrawing previous) = false.
Proof. unfold endDrawing. by destruct previous as [[] ?]. Qed.

Lemma stopDrawing_pending_enabled ev st :
  tg_active (touchGesture st) = true → tg_mode (touchGesture st) = pending →
  match ev with Some e => otherPointer (touchGesture st) e = false | None => True end →
  isCellInputEnabled st = true →
  stopDrawing ev st
  = let g := touchGesture st in
    (setDrawing endDrawing
       (setTouchGesture (λ _, idleGesture)
          (setDraftCells
             (paintUpdater (keyFor (tg_startDay g) (tg_startSlot g)) (tg_value g))
             st)),
     [EditCell (tg_startDay g) (tg_startSlot g) (tg_value g); Commit 80]).
Proof.
  intros Ha Hm Hp Hen. rewrite (stopDrawing_pending ev st Ha Hm Hp). cbv zeta.
  rewrite (paintCell_enabled _ _ _ st Hen). cbn [fst snd].
  assert (canEditSelected st = true) as ->; [|done].
  unfold isCellInputEnabled in Hen. by apply andb_true_iff in Hen as [? _].
Qed.

(** C7, as the code has it.  When a touch gesture ends, by pointer-up or
    pointer-cancel of its pointer or by a forced stop, while still pending
    and with cell input enabled, exactly one edit is applied, at the
    recorded start cell with the recorded value, and exactly one commit of
    the draft buffer is triggered, from the 80 ms timer; no debounced save
    is armed besides.  With cell input disabled the end applies no edit. *)
Theorem pending_tap_commits_once (st : HomeState) (ev : option PointerEvent) :
  let g := touchGesture st in
  let r := stopDrawing ev st in
  tg_active g = true → tg_mode g = pending →
  match ev with Some e => otherPointer g e = false | None => True end →
  (isCellInputEnabled st = true →
   r.2 = [EditCell (tg_startDay g) (tg_startSlot g) (tg_value g); Commit 80]
   ∧ length (filter (λ x, is_edit x = true) r.2) = 1%nat
   ∧ length (filter (λ x, is_commit x = true) r.2) = 1%nat
   ∧ draftCells r.1
     = paintUpdater (keyFor (tg_startDay g) (tg_startSlot g)) (tg_value g)
         (draftCells st)
   ∧ touchGesture r.1 = idleGesture
   ∧ dr_active (drawing r.1) = false
   ∧ draftDebounce r.1 = [])
  ∧ (isCellInputEnabled st = false →
     filter (λ x, is_edit x = true) r.2 = [] ∧ draftCells r.1 = draftCells st).
Proof.
  intros g r Ha Hm Hp. unfold r. split.
  - intros Hen. rewrite (stopDrawing_pending_enabled ev st Ha Hm Hp Hen).
    fold g. cbv zeta. cbn [fst snd].
    split; [done|]. split; [done|]. split; [done|]. split; [done|].
    split; [done|]. split; [apply endDrawing_inactive|].
    unfold draftDebounce.
    assert (dr_active
              (drawing
                 (setDrawing endDrawing
                    (setTouchGesture (λ _, idleGesture)
                       (setDraftCells
                          (paintUpdater (keyFor (tg_startDay g) (tg_startSlot g))
                             (tg_value g)) st)))) = false) as ->; [|done].
    apply endDrawing_inactive.
  - intros Hdis. rewrite (stopDrawing_pending ev st Ha Hm Hp). cbv zeta.
    rewrite (paintCell_disabled _ _ _ st Hdis). cbn [fst snd].
    by destruct (canEditSelected st).
Qed.

Lemma pending_tap_commits_once_witness :
  (stopDrawing (Some sampleUp) (onPointerDown 0 3 sampleDown sampleState).1).2
  = [EditCell 0 3 true; Commit 80].
Proof.
  refine (proj1 (proj1 (pending_tap_commits_once
                          (onPointerDown 0 3 sampleDown sampleState).1
                          (Some sampleUp) _ _ _) _)).
  - reflexivity.
  - reflexivity.
  - reflexivity.
  - reflexivity.
Defined.

(** The claim as first stated, for every pending gesture that ends, fails
    when the gates have closed in the meantime: the finger goes down on the
    user's own grid, a re-fetch comes back without the user's row, the
    finger is lifted, and neither an edit nor a commit follows. *)
Lemma pending_tap_counterexample :
  let st := (runHandlers [onPointerDown 0 3 sampleDown; sampleRefetchWithoutMe]
               sampleState).1 in
  tg_active (touchGesture st) = true
  ∧ tg_mode (touchGesture st) = pending
  ∧ otherPointer (touchGesture st) sampleUp = false
  ∧ (stopDrawing (Some sampleUp) st).2 = []
  ∧ length (filter (λ x, is_edit x = true) (stopDrawing (Some sampleUp) st).2) ≠ 1%nat
  ∧ length (filter (λ x, is_commit x = true) (stopDrawing (Some sampleUp) st).2) ≠ 1%nat.
Proof. vm_compute. repeat split; discriminate. Qed.

(** A whole tap: touch-down on a cell of the user's own grid, moves of the
    same pointer that stay below the threshold, and the end of the gesture
    give one edit of that cell and one commit. *)
Lemma tap_without_move (d s : Z) (down up : PointerEvent)
    (moves : list PointerEvent) (st : HomeState) :
  isCellInputEnabled st = true → isTouch down = true →
  pointerId up = pointerId down →
  Forall (λ m, pointerId m = pointerId down
               ∧ Z.abs (clientX m - clientX down) < TOUCH_GESTURE_START_PX
               ∧ Z.abs (clientY m - clientY down) < TOUCH_GESTURE_START_PX) moves →
  ∃ v,
    (runHandlers (onPointerDown d s down :: map handlePointerMove moves
                  ++ [stopDrawing (Some up)]) st).2
    = [EditCell d s v; Commit 80].
Proof.
  intros Hen Htouch Hup Hmoves. cbn [runHandlers].
  unfold onPointerDown at 1. rewrite Hen, Htouch. cbn [negb].
  set (v := match paintMode st with
            | smart => negb (truthy (prop (displayedCells st) (keyFor d s)))
            | mark => true
            | erase => false
            end).
  set (g := {| tg_active := true; tg_pointerId := Some (pointerId down);
               tg_startX := clientX down; tg_startY := clientY down;
               tg_startDay := d; tg_startSlot := s; tg_value := v;
               tg_mode := pending |}).
  set (st1 := setTouchGesture (λ _, g) st).
  exists v.
  assert (runHandlers (map handlePointerMove moves ++ [stopDrawing (Some up)]) st1
          = stopDrawing (Some up) st1) as ->.
  { induction Hmoves as [|m moves (Hid & Hx & Hy) _ IH]; cbn [map app runHandlers].
    - destruct (stopDrawing (Some up) st1). by rewrite app_nil_r.
    - rewrite (handlePointerMove_below m st1); [| done | done | |].
      + rewrite IH. by destruct (stopDrawing (Some up) st1).
      + unfold otherPointer. cbn. by rewrite Hid, Z.eqb_refl.
      + split; [exact Hx | exact Hy]. }
  rewrite (stopDrawing_pending_enabled (Some up) st1); [done..| |done].
  unfold otherPointer. cbn. by rewrite Hup, Z.eqb_refl.
Qed.

(** ** Every cells record is a set *)

Lemma cell_set_assign k o : cell_set o → cell_set (assign k JTrue o).
Proof.
  intros H. unfold assign. destruct (k =? "__proto__")%string; [done|].
  by apply cell_set_set.
Qed.

Lemma obj_keys_assign k k' (o : obj jsval) :
  k' ∈ obj_keys (assign k JTrue o)
  ↔ (k' = k ∧ k ≠ "__proto__"%string) ∨ k' ∈ obj_keys o.
Proof.
  unfold assign. destruct (String.eqb_spec k "__proto__") as [->|Hne].
  - split; [by right|]. by intros [[_ ?]|?].
  - rewrite obj_keys_set. split; intros [H|H]; auto.
    + left. by destruct H.
Qed.

Lemma sanitize_fold_cell_set (l : list (string * jsval)) (init : obj jsval) :
  cell_set init →
  cell_set
    (fold_left
       (λ result '(key, marked),
          if truthy marked then assign key JTrue result else result) l init).
Proof.
  revert init. induction l as [|[key marked] l IH]; intros init Hinit; [done|].
  cbn [fold_left]. apply IH. destruct (truthy marked); [by apply cell_set_assign|done].
Qed.

Lemma sanitize_fold_keys (l : list (string * jsval)) (init : obj jsval) k :
  k ∈ obj_keys
        (fold_left
           (λ result '(key, marked),
              if truthy marked then assign key JTrue result else result) l init)
  ↔ (k ≠ "__proto__"%string ∧ ∃ v, (k, v) ∈ l ∧ truthy v = true)
    ∨ k ∈ obj_keys init.
Proof.
  revert init. induction l as [|[key marked] l IH]; intros init; cbn [fold_left].
  - split; [by right|]. intros [(_ & v & ?%elem_of_nil & _)|?]; done.
  - rewrite IH. split.
    + intros [(Hk & v & Hin & Hv)|Hin].
      * left. split; [done|]. exists v. split; [by right|done].
      * destruct (truthy marked) eqn:Hm; [|by right].
        apply obj_keys_assign in Hin as [[-> Hk]|?]; [|by right].
        left. split; [done|]. exists marked. split; [left|done].
    + intros [(Hk & v & Hin & Hv)|Hin].
      * apply elem_of_cons in Hin as [[= -> ->]|Hin].
        -- right. rewrite Hv. apply obj_keys_assign. by left.
        -- left. split; [done|]. by exists v.
      * right. destruct (truthy marked); [|done]. apply obj_keys_assign. by right.
Qed.

Lemma sanitizeCells_cell_set value : cell_set (sanitizeCells value).
Proof.
  unfold sanitizeCells. destruct (_ || _); [apply cell_set_nil|].
  apply sanitize_fold_cell_set, cell_set_nil.
Qed.

Lemma sanitizeCells_keys props key :
  key ∈ obj_keys (sanitizeCells (JObj props))
  ↔ key ≠ "__proto__"%string ∧ ∃ v, (key, v) ∈ props ∧ truthy v = true.
Proof.
  unfold sanitizeCells. cbn [truthy typeof_object negb orb entries].
  rewrite sanitize_fold_keys. split.
  - intros [?|?%elem_of_nil]; done.
  - by left.
Qed.

Lemma toMember_cell_set row : cell_set (cells (toMember row)).
Proof.
  unfold toMember. cbn [cells].
  destruct (is_unavailable_mode _); [apply cell_set_nil | apply sanitizeCells_cell_set].
Qed.

Lemma presentRow_cell_set parseDate weekStartMs row :
  cell_set (cells (presentRow parseDate weekStartMs row)).
Proof.
  unfold presentRow. destruct (isStaleWeek _ _ _); cbn [cells];
    [apply cell_set_nil | apply toMember_cell_set].
Qed.

Lemma myMember_elem_of st m : myMember st = Some m → m ∈ members st.
Proof.
  unfold myMember. intros H. apply list_elem_of_In.
  by apply find_some in H as [? _].
Qed.

Lemma cells_inv_paintCell d s v st :
  cells_inv st → cells_inv (paintCell d s v st).1.
Proof.
  intros [Hd Hm]. unfold paintCell.
  destruct (isCellInputEnabled st); [|done].
  split; [|done]. by apply paintUpdater_cell_set.
Qed.

Lemma cells_inv_paintFound found v st :
  cells_inv st → cells_inv (paintFound found v st).1.
Proof. destruct found as [[d s]|]; [apply cells_inv_paintCell | done]. Qed.

Lemma cells_inv_setTouchGesture f st :
  cells_inv st → cells_inv (setTouchGesture f st).
Proof. done. Qed.

Lemma cells_inv_setDrawing f st : cells_inv st → cells_inv (setDrawing f st).
Proof. done. Qed.

Lemma cells_inv_handlePointerMove e st :
  cells_inv st → cells_inv (handlePointerMove e st).1.
Proof.
  intros Hinv. unfold handlePointerMove.
  destruct (tg_active (touchGesture st)).
  - destruct (otherPointer _ e); [done|].
    destruct (is_pending _).
    + destruct (_ && _); [done|]. destruct (Qgtb _ _); [done|].
      destruct (paintCell _ _ _ _) as [st3 log3] eqn:H3.
      destruct (is_scroll _).
      * cbn [fst]. change st3 with (st3, log3).1. rewrite <-H3.
        by apply cells_inv_paintCell.
      * destruct (paintFound _ _ st3) as [st4 log4] eqn:H4.
        cbn [fst]. change st4 with (st4, log4).1. rewrite <-H4.
        apply cells_inv_paintFound. change st3 with (st3, log3).1. rewrite <-H3.
        by apply cells_inv_paintCell.
    + destruct (is_scroll _); [done|]. by apply cells_inv_paintFound.
  - destruct (negb _); [done|]. by apply cells_inv_paintFound.
Qed.

Lemma cells_inv_stopDrawing ev st :
  cells_inv st → cells_inv (stopDrawing ev st).1.
Proof.
  intros Hinv. unfold stopDrawing.
  destruct (_ && _); [done|].
  destruct (tg_active (touchGesture st)).
  - destruct (is_pending _).
    + destruct (paintCell _ _ _ st) as [st' log'] eqn:Hp.
      assert (cells_inv st') as Hinv'.
      { change st' with (st', log').1. rewrite <-Hp. by apply cells_inv_paintCell. }
      by destruct (canEditSelected st).
    + by destruct (canEditSelected st).
  - by destruct (canEditSelected st).
Qed.

Lemma cells_inv_onPointerDown d s e st :
  cells_inv st → cells_inv (onPointerDown d s e st).1.
Proof.
  intros Hinv. unfold onPointerDown.
  destruct (negb _); [done|]. destruct (isTouch e); [done|].
  by apply cells_inv_paintCell.
Qed.

Lemma cells_inv_step st st' : step st st' → cells_inv st → cells_inv st'.
Proof.
  intros Hstep Hinv. destruct Hstep.
  - destruct Hinv as [Hd _]. split; [done|]. cbn.
    apply list.Forall_forall. intros m (row & -> & _)%list_elem_of_fmap.
    apply presentRow_cell_set.
  - unfold reconcileDraft. destruct (dr_active _); [done|].
    destruct (myMember st) as [m|] eqn:Hm; [|done].
    destruct Hinv as [Hd Hms]. split; [|done]. cbn.
    destruct (sameCells _ _); [done|].
    rewrite list.Forall_forall in Hms. by apply Hms, myMember_elem_of.
  - by apply cells_inv_paintCell.
  - by apply cells_inv_onPointerDown.
  - unfold onPointerEnter. destruct (negb _); [done|]. by apply cells_inv_paintCell.
  - by apply cells_inv_handlePointerMove.
  - by apply cells_inv_stopDrawing.
  - unfold clearMyCells. destruct (myMember st); [|done].
    destruct Hinv as [_ Hms]. split; [apply cell_set_nil | done].
  - destruct Hinv as [_ Hms]. split; [apply cell_set_nil | done].
  - destruct Hinv as [Hd Hms]. unfold cells_inv. by rewrite H, H0.
Qed.

Lemma cells_inv_reachable st : reachable st → cells_inv st.
Proof.
  induction 1 as [hasClient|st st' _ IH Hstep].
  - split; [apply cell_set_nil | by constructor].
  - by apply (cells_inv_step st st').
Qed.

Lemma paintCells_cell_set (edits : list (Z * Z * bool)) st :
  cell_set (draftCells st) →
  cell_set
    (draftCells
       (runHandlers (map (λ '(d, s, v), paintCell d s v) edits) st).1).
Proof.
  revert st. induction edits as [|[[d s] v] edits IH]; intros st Hd; [done|].
  cbn [map runHandlers].
  destruct (paintCell d s v st) as [st1 log1] eqn:H1.
  assert (cell_set (draftCells st1)) as Hd1.
  { change st1 with (st1, log1).1. rewrite <-H1. unfold paintCell.
    destruct (isCellInputEnabled st); [|done]. by apply paintUpdater_cell_set. }
  specialize (IH st1 Hd1).
  by destruct (runHandlers _ st1).
Qed.

Lemma paintUpdater_erase key previous :
  all_true previous → key ∉ obj_keys (paintUpdater key false previous).
Proof.
  intros Hall. rewrite <-truthy_prop_false_iff.
  - apply paintUpdater_marks.
  - unfold paintUpdater. destruct (Bool.eqb _ _); [done | by apply all_true_delete].
Qed.

(** C10. Every cells record the program builds is a set of keys, each key
    stored once with the literal [true]: what [sanitizeCells] returns, which
    holds the keys of the entries with a truthy value (no entry with a falsy
    value, and nothing under the name [__proto__], whose assignment stores
    no property); the draft buffer and the members' cells in every state the
    component reaches, and so the buffer after any sequence of [paintCell]
    calls, where erasing deletes the key; and the cleared buffer, which is
    empty.  In such a record a present key reads truthy, and a key that is
    not a name inherited from [Object.prototype] reads truthy only when it
    is present; no slot key is such a name. *)
Theorem cells_records_are_sets :
  (∀ value, cell_set (sanitizeCells value))
  ∧ (∀ props key,
       has_key (sanitizeCells (JObj props)) key
       ↔ key ≠ "__proto__"%string ∧ ∃ v, (key, v) ∈ props ∧ truthy v = true)
  ∧ (∀ st, reachable st → cells_inv st)
  ∧ (∀ edits st, cell_set (draftCells st) →
       cell_set
         (draftCells
            (runHandlers (map (λ '(d, s, v), paintCell d s v) edits) st).1))
  ∧ (∀ key previous, all_true previous →
       ¬ has_key (paintUpdater key false previous) key)
  ∧ (∀ now st m, myMember st = Some m → draftCells (clearMyCells now st).1 = [])
  ∧ (∀ o key, all_true o →
       (has_key o key → truthyRead o key = true)
       ∧ (inherited key = false → truthyRead o key = true → has_key o key))
  ∧ (∀ d s, inherited (keyFor d s) = false).
Proof.
  split; [apply sanitizeCells_cell_set|].
  split; [apply sanitizeCells_keys|].
  split; [apply cells_inv_reachable|].
  split; [apply paintCells_cell_set|].
  split; [apply paintUpdater_erase|].
  split; [intros now st m Hm; unfold clearMyCells; by rewrite Hm|].
  split; [|apply keyFor_not_inherited].
  intros o key Hall. split; [by apply truthyRead_elem | apply truthyRead_key].
Qed.

Lemma cells_records_are_sets_witness :
  cell_set
    (draftCells
       (runHandlers
          (map (λ '(d, s, v), paintCell d s v) [(0, 3, true); (0, 0, false)])
          sampleState).1).
Proof.
  refine (proj1 (proj2 (proj2 (proj2 cells_records_are_sets))) _ sampleState _).
  split; [repeat constructor; vm_compute; by intros ?%elem_of_nil | repeat constructor].
Defined.

(** ** The properties at the sample session *)

Lemma sample_cells_ben :
  cell_set [("0-1", JTrue); ("0-0", JTrue)]
  ∧ cell_set (cells (sampleMember "u2" "Ben" [("0-0", JTrue); ("0-1", JTrue)])).
Proof.
  split; (split; [apply (bool_decide_unpack _); vm_compute; exact I
                 | repeat constructor]).
Qed.

Lemma paintCell_idempotent_witness : (paintCell 0 0 true sampleState).1 = sampleState.
Proof.
  refine (proj2 (paintCell_idempotent 0 0 true sampleState) _ _).
  - repeat constructor.
  - split; [reflexivity|]. intros _. unfold has_key.
    apply (bool_decide_unpack _). vm_compute. exact I.
Defined.

Lemma paintCell_disabled_context_witness :
  paintCell 0 0 false sampleStateViewing = (sampleStateViewing, []).
Proof.
  refine (proj1 (paintCell_disabled_context 0 0 false sampleStateViewing _)).
  left. intros (m & Hsel & Hown). vm_compute in Hsel.
  injection Hsel as <-. vm_compute in Hown. discriminate Hown.
Defined.

(** Two whole gestures on the sample session: a vertical drag paints the
    start cell and the cell under the finger and commits at once on release;
    a horizontal drag edits nothing. *)
Example paint_drag_example :
  (runHandlers [onPointerDown 0 3 sampleDown;
                handlePointerMove (sampleMove 100 112 (Some (0, 4)));
                stopDrawing (Some sampleUp)] sampleState).2
  = [EditCell 0 3 true; EditCell 0 4 true; Commit 0].
Proof. vm_compute. reflexivity. Qed.

Example scroll_drag_example :
  (runHandlers [onPointerDown 0 3 sampleDown;
                handlePointerMove (sampleMove 112 100 (Some (1, 3)));
                handlePointerMove (sampleMove 130 104 (Some (2, 3)));
                stopDrawing (Some sampleUp)] sampleState).2
  = [Commit 0].
Proof. vm_compute. reflexivity. Qed.

(** ** Slot keys *)

Lemma dashfree_pretty_N_go (x : N) (s : string) :
  dashfree s = true → dashfree (pretty_N_go x s) = true.
Proof.
  revert s. induction (N.lt_wf_0 x) as [x _ IH]; intros s Hs.
  assert (x = 0 ∨ 0 < x)%N as [->|Hpos] by lia.
  - by rewrite pretty_N_go_0.
  - rewrite pretty_N_go_step by done. apply IH; [by apply N.div_lt|].
    cbn [dashfree]. rewrite Hs, andb_true_r.
    unfold pretty_N_char. by repeat case_match.
Qed.

Lemma length_pretty_N_go (x : N) (s : string) :
  (String.length s ≤ String.length (pretty_N_go x s))%nat.
Proof.
  revert s. induction (N.lt_wf_0 x) as [x _ IH]; intros s.
  assert (x = 0 ∨ 0 < x)%N as [->|Hpos] by lia.
  - by rewrite pretty_N_go_0.
  - rewrite pretty_N_go_step by done.
    etrans; [|apply IH; by apply N.div_lt]. simpl. lia.
Qed.

Lemma pretty_N_dashfree (x : N) : dashfree (pretty x) = true ∧ pretty x ≠ ""%string.
Proof.
  unfold pretty, pretty_N. destruct (decide (x = 0)%N) as [->|Hne]; [done|].
  split; [by apply dashfree_pretty_N_go|].
  rewrite pretty_N_go_step by lia. intros Heq.
  pose proof (length_pretty_N_go (x `div` 10)
                (String (pretty_N_char (x `mod` 10)) "")) as Hlen.
  rewrite Heq in Hlen. simpl in Hlen. lia.
Qed.

Lemma dash_split (a b r r' : string) :
  dashfree a = true → dashfree b = true →
  a +:+ String "-" r = b +:+ String "-" r' → a = b ∧ r = r'.
Proof.
  revert b. induction a as [|c a IH]; intros [|c' b] Ha Hb Heq; simpl in *.
  - by injection Heq as ->.
  - injection Heq as <- _. by rewrite Ascii.eqb_refl in Hb.
  - injection Heq as -> _. by rewrite Ascii.eqb_refl in Ha.
  - injection Heq as -> Heq.
    apply andb_true_iff in Ha as [_ Ha]. apply andb_true_iff in Hb as [_ Hb].
    destruct (IH b Ha Hb Heq) as [-> ->]. done.
Qed.

(** The sign and digits of a day index, and what follows it in a key. *)
Lemma keyFor_split (d d' : Z) (r r' : string) :
  pretty d +:+ String "-" r = pretty d' +:+ String "-" r' → d = d' ∧ r = r'.
Proof.
  assert (∀ p : positive, dashfree (pretty (Z.pos p)) = true
                          ∧ pretty (Z.pos p) ≠ ""%string) as Hpos.
  { intros p. apply (pretty_N_dashfree (N.pos p)). }
  assert (dashfree (pretty 0) = true ∧ pretty 0 ≠ ""%string) as Hzero by done.
  assert (∀ z, 0 <= z → dashfree (pretty z) = true ∧ pretty z ≠ ""%string) as Hnn.
  { intros [|p|p] Hz; [done|apply Hpos|lia]. }
  assert (∀ z p s s', 0 <= z →
            pretty z +:+ String "-" s ≠ pretty (Z.neg p) +:+ s') as Hmix.
  { intros z p s s' Hz Heq. destruct (Hnn z Hz) as [Hdf Hne].
    destruct (pretty z) as [|c a]; [done|].
    change (pretty (Z.neg p)) with ("-" +:+ pretty (N.pos p)) in Heq.
    simpl in Heq. injection Heq as -> _. simpl in Hdf. discriminate Hdf. }
  intros Heq. destruct (Z.neg_nonneg_cases d) as [Hd|Hd];
    destruct (Z.neg_nonneg_cases d') as [Hd'|Hd'].
  - destruct d as [|p|p]; [lia..|]. destruct d' as [|p'|p']; [lia..|].
    change (pretty (Z.neg p)) with ("-" +:+ pretty (Z.pos p)) in Heq.
    change (pretty (Z.neg p')) with ("-" +:+ pretty (Z.pos p')) in Heq.
    simpl in Heq. injection Heq as Heq.
    apply dash_split in Heq as [Heq ->]; [|apply Hpos..].
    change (pretty (Z.pos p) = pretty (Z.pos p')) in Heq.
    apply (inj (pretty (A:=Z))) in Heq. injection Heq as ->. done.
  - destruct d as [|p|p]; [lia..|]. symmetry in Heq. by apply Hmix in Heq.
  - destruct d' as [|p'|p']; [lia..|]. by apply Hmix in Heq.
  - apply dash_split in Heq as [Heq ->]; [|by apply Hnn..].
    by apply (inj pretty) in Heq.
Qed.

Lemma keyFor_eq_inv (d s d' s' : Z) :
  keyFor d s = keyFor d' s' → (d, s) = (d', s').
Proof.
  unfold keyFor. intros Heq.
  apply keyFor_split in Heq as [-> Heq].
  by apply (inj pretty) in Heq as ->.
Qed.

(** X1. [keyFor] is injective: two slot addresses have the same key exactly
    when they are the same address, for all integer days and slots, negative
    ones included; so the 112 keys of the grid are pairwise distinct. *)
Theorem keyFor_inj (d s d' s' : Z) :
  (keyFor d s = keyFor d' s' ↔ d = d' ∧ s = s')
  ∧ NoDup gridKeys.
Proof.
  split.
  - split.
    + intros Heq. apply keyFor_eq_inv in Heq. by injection Heq.
    + by intros [-> ->].
  - apply (bool_decide_unpack _). vm_compute. exact I.
Qed.

Lemma keyFor_inj_witness : 3 = 3 ∧ 5 = 5.
Proof. exact (proj1 (proj1 (keyFor_inj 3 5 3 5)) eq_refl). Defined.

(** ** The aggregation records in closed form *)

Lemma gridKeys_NoDup : NoDup gridKeys.
Proof. apply (bool_decide_unpack _). vm_compute. exact I. Qed.

Lemma gridKeys_length : length gridKeys = 112%nat.
Proof. reflexivity. Qed.

Lemma obj_set_fresh {V} (k : string) (v : V) (o : obj V) :
  k ∉ obj_keys o → obj_set k v o = o ++ [(k, v)].
Proof.
  unfold obj_keys. induction o as [|[k0 v0] o IH]; simpl; [done|].
  rewrite not_elem_of_cons. intros [Hne Hnin].
  destruct (String.eqb_spec k0 k) as [->|_]; [done|]. by rewrite IH.
Qed.

Lemma fold_set_fresh {V} (f : string → V) (ks : list string) (init : obj V) :
  NoDup ks → (∀ k, k ∈ ks → k ∉ obj_keys init) →
  fold_left (λ o key, obj_set key (f key) o) ks init
  = init ++ map (λ k, (k, f k)) ks.
Proof.
  intros Hnd. revert init.
  induction Hnd as [|a ks Ha Hnd IH]; intros init Hfresh; cbn [fold_left map].
  - by rewrite app_nil_r.
  - rewrite obj_set_fresh by (apply Hfresh; left).
    rewrite IH; [by rewrite <-app_assoc|].
    intros k Hk. unfold obj_keys. rewrite fmap_app, not_elem_of_app. split.
    + apply Hfresh. by right.
    + cbn. rewrite list_elem_of_singleton. by intros ->.
Qed.

Lemma fold_mark_fresh (p : string → bool) (ks : list string) (init : obj jsval) :
  NoDup ks → (∀ k, k ∈ ks → k ∉ obj_keys init) →
  fold_left (λ o key, if p key then obj_set key JTrue o else o) ks init
  = init ++ map (λ k, (k, JTrue)) (List.filter p ks).
Proof.
  intros Hnd. revert init.
  induction Hnd as [|a ks Ha Hnd IH]; intros init Hfresh;
    cbn [fold_left List.filter].
  - by rewrite app_nil_r.
  - destruct (p a).
    + rewrite obj_set_fresh by (apply Hfresh; left).
      rewrite IH; [by rewrite <-app_assoc|].
      intros k Hk. unfold obj_keys. rewrite fmap_app, not_elem_of_app. split.
      * apply Hfresh. by right.
      * cbn. rewrite list_elem_of_singleton. by intros ->.
    + apply IH. intros k Hk. apply Hfresh. by right.
Qed.

Lemma countAvailable_cons m (mfc : list TeamMember) key :
  countAvailable (m :: mfc) key
  = (if isAvailable m key then 1 else 0) + countAvailable mfc key.
Proof.
  unfold countAvailable at 1. cbn [fold_left]. rewrite countAvailable_shift. lia.
Qed.

Lemma countAvailable_bounds (mfc : list TeamMember) key :
  0 <= countAvailable mfc key <= memberCount mfc.
Proof.
  unfold memberCount. induction mfc as [|m mfc IH]; [done|].
  rewrite countAvailable_cons. cbn [length].
  destruct (isAvailable m key); lia.
Qed.

Lemma countAvailable_full (mfc : list TeamMember) key :
  (countAvailable mfc key =? memberCount mfc) = allAvailable mfc key.
Proof.
  unfold allAvailable. induction mfc as [|m mfc IH]; [done|].
  rewrite countAvailable_cons. cbn [forallb].
  pose proof (countAvailable_bounds mfc key) as Hb.
  unfold memberCount in *. cbn [length].
  destruct (isAvailable m key); cbn [andb].
  - rewrite <-IH. destruct (Z.eqb_spec (countAvailable mfc key) (Z.of_nat (length mfc)));
      [apply Z.eqb_eq | apply Z.eqb_neq]; lia.
  - apply Z.eqb_neq. lia.
Qed.

Lemma obj_keys_tabulate {V} (f : string → V) (ks : list string) :
  obj_keys (map (λ key, (key, f key)) ks) = ks.
Proof. unfold obj_keys. induction ks as [|k ks IH]; cbn; [done|]. by f_equal. Qed.

(** X2. The record of counts has one entry for each of the 112 grid cells,
    in the order of the two loops, holding the number of available members,
    which lies between 0 and the number of members. *)
Theorem availabilityCountByCell_closed_form (mfc : list TeamMember) :
  availabilityCountByCell mfc = map (λ key, (key, countAvailable mfc key)) gridKeys
  ∧ length (availabilityCountByCell mfc) = 112%nat
  ∧ obj_wf (availabilityCountByCell mfc)
  ∧ (∀ key c, obj_get (availabilityCountByCell mfc) key = Some c →
       0 <= c <= memberCount mfc).
Proof.
  assert (availabilityCountByCell mfc
          = map (λ key, (key, countAvailable mfc key)) gridKeys) as Hcf.
  { unfold availabilityCountByCell. rewrite forGrid_gridKeys.
    rewrite (fold_set_fresh (countAvailable mfc)); [done|apply gridKeys_NoDup|].
    intros k _. apply not_elem_of_nil. }
  split; [done|]. split; [by rewrite Hcf, length_map|]. split.
  - unfold obj_wf. rewrite Hcf, obj_keys_tabulate. apply gridKeys_NoDup.
  - intros key c. rewrite availabilityCount_lookup.
    destruct (decide (key ∈ gridKeys)); [|done].
    intros [= <-]. apply countAvailable_bounds.
Qed.

(** X3. A key is in the common set exactly when there is at least one
    member, the key is a grid key, and every member is available at it;
    this needs no assumption on the stored values. *)
Theorem commonCells_all_available (mfc : list TeamMember) (key : string) :
  has_key (commonCells mfc) key
  ↔ mfc ≠ [] ∧ key ∈ gridKeys ∧ ∀ m, m ∈ mfc → isAvailable m key = true.
Proof.
  rewrite commonCells_key, availabilityCount_lookup.
  assert ((∀ m, m ∈ mfc → isAvailable m key = true)
          ↔ countAvailable mfc key = memberCount mfc) as ->.
  { rewrite <-Z.eqb_eq, countAvailable_full. unfold allAvailable.
    rewrite forallb_forall. by setoid_rewrite <-list_elem_of_In. }
  destruct (decide (key ∈ gridKeys)) as [Hin|Hnin]; split.
  - intros [? [= ?]]. done.
  - intros (? & _ & ->). done.
  - by intros [_ ?].
  - by intros (_ & ? & _).
Qed.

(** X4. The common set, as a record: the grid keys at which every member is
    available, in grid order, each stored once with [true]; it is empty
    without members and never has more than 112 keys. *)
Theorem commonCells_closed_form (mfc : list TeamMember) :
  commonCells mfc
  = (if memberCount mfc =? 0 then []
     else map (λ key, (key, JTrue)) (List.filter (allAvailable mfc) gridKeys))
  ∧ (commonCellCount mfc ≤ 112)%nat.
Proof.
  assert (commonCells mfc
          = (if memberCount mfc =? 0 then []
             else map (λ key, (key, JTrue))
                    (List.filter (allAvailable mfc) gridKeys))) as Hcf.
  { unfold commonCells. destruct (memberCount mfc =? 0); [done|].
    rewrite forGrid_gridKeys.
    rewrite (fold_mark_fresh
               (λ key, countIs (availabilityCountByCell mfc) key (memberCount mfc)));
      [|apply gridKeys_NoDup|intros k _; apply not_elem_of_nil].
    cbn [app]. f_equal. apply filter_ext_in. intros k Hk.
    unfold countIs. rewrite availabilityCount_lookup.
    rewrite decide_True by (by apply list_elem_of_In).
    apply countAvailable_full. }
  split; [done|]. unfold commonCellCount, obj_keys. rewrite Hcf.
  destruct (memberCount mfc =? 0); [cbn; lia|].
  rewrite !length_map. etrans; [apply filter_length_le|]. by rewrite gridKeys_length.
Qed.

(** ** More on the recommended blocks *)

(** Membership in a list that evaluates to a literal. *)
Ltac elem_of_computed :=
  match goal with
  | |- _ ∈ ?l =>
      let l' := eval vm_compute in l in
      replace l with l' by (vm_compute; reflexivity);
      repeat first [apply list_elem_of_here | apply list_elem_of_further]
  end.

Lemma recommendedBlocks_elem common membersLength minimumDuration b :
  b ∈ recommendedBlocks common membersLength minimumDuration
  ↔ membersLength ≠ 0 ∧ maximalRun common b
    ∧ Z.max 1 (minimumDuration / SLOT_MINUTES) <= endSlot b - startSlot b.
Proof.
  unfold recommendedBlocks, maximalRun.
  destruct (Z.eqb_spec membersLength 0) as [Hz|Hnz].
  - split; [by intros ?%elem_of_nil | by intros [? _]].
  - rewrite scanDays_spec, elem_of_seqZ. split.
    + intros [?%elem_of_nil|(Hd & Hr & Hmin)]; [done|].
      split; [done|]. split; [split; [lia|done] | done].
    + intros (_ & [Hd Hr] & Hmin). right. split; [lia|done].
Qed.

Lemma runIn_same_or_apart common b1 b2 :
  runIn common b1 → runIn common b2 → day b1 = day b2 →
  b1 = b2 ∨ endSlot b1 < startSlot b2 ∨ endSlot b2 < startSlot b1.
Proof.
  intros (Hr1 & He1 & Hall1 & Hbefore1 & Hafter1 & Hmin1)
         (Hr2 & He2 & Hall2 & Hbefore2 & Hafter2 & Hmin2) Hday.
  destruct (Z.lt_trichotomy (endSlot b1) (startSlot b2)) as [?|[Heq|Hgt]];
    [by right; left| |].
  { destruct Hafter1. rewrite Hday, Heq. apply Hall2. lia. }
  destruct (Z.lt_trichotomy (endSlot b2) (startSlot b1)) as [?|[Heq|Hgt']];
    [by right; right| |].
  { destruct Hafter2. rewrite <-Hday, Heq. apply Hall1. lia. }
  left.
  assert (startSlot b1 = startSlot b2) as Hs.
  { destruct (Z.lt_trichotomy (startSlot b1) (startSlot b2)) as [Hl|[?|Hg]]; [|done|].
    - destruct Hbefore2. rewrite <-Hday. apply Hall1. lia.
    - destruct Hbefore1. rewrite Hday. apply Hall2. lia. }
  assert (endSlot b1 = endSlot b2) as He.
  { destruct (Z.lt_trichotomy (endSlot b1) (endSlot b2)) as [Hl|[?|Hg]]; [|done|].
    - destruct Hafter1. rewrite Hday. apply Hall2. lia.
    - destruct Hafter2. rewrite <-Hday. apply Hall1. lia. }
  destruct b1, b2; simpl in *. by subst.
Qed.

(** X5. Two recommended blocks of the same day are the same block or lie
    apart with at least one slot between them: blocks never overlap and
    never touch. *)
Theorem recommendedBlocks_apart (common : obj jsval)
    (membersLength minimumDuration : Z) (b1 b2 : TimeBlock) :
  b1 ∈ recommendedBlocks common membersLength minimumDuration →
  b2 ∈ recommendedBlocks common membersLength minimumDuration →
  day b1 = day b2 →
  b1 = b2 ∨ endSlot b1 < startSlot b2 ∨ endSlot b2 < startSlot b1.
Proof.
  intros (_ & [_ Hr1] & _)%recommendedBlocks_elem
         (_ & [_ Hr2] & _)%recommendedBlocks_elem Hday.
  exact (runIn_same_or_apart common b1 b2 Hr1 Hr2 Hday).
Qed.

Lemma recommendedBlocks_apart_witness :
  {| day := 0; startSlot := 2; endSlot := 5; minutes := 90 |}
  = {| day := 0; startSlot := 7; endSlot := 9; minutes := 60 |}
  ∨ 5 < 7 ∨ 9 < 2.
Proof.
  refine (recommendedBlocks_apart (cellsOfSlots 0 [2; 3; 4; 7; 8]) 3 60
            {| day := 0; startSlot := 2; endSlot := 5; minutes := 90 |}
            {| day := 0; startSlot := 7; endSlot := 9; minutes := 60 |} _ _ _).
  - elem_of_computed.
  - elem_of_computed.
  - reflexivity.
Defined.

(** X6. Every recommended block lies within one day of the week and within
    the slot range, is not empty, carries 30 minutes per slot, and so lasts
    between 30 and 480 minutes and at least the minimum duration rounded
    down to whole slots. *)
Theorem recommendedBlocks_well_formed (common : obj jsval)
    (membersLength minimumDuration : Z) (b : TimeBlock) :
  b ∈ recommendedBlocks common membersLength minimumDuration →
  0 <= day b < 7
  ∧ 0 <= startSlot b < endSlot b ∧ endSlot b <= 16
  ∧ minutes b = (endSlot b - startSlot b) * 30
  ∧ 30 <= minutes b <= 480
  ∧ minimumDuration / 30 * 30 <= minutes b.
Proof.
  intros (_ & [Hd (Hr & He & _ & _ & _ & Hmin)] & Hlen)%recommendedBlocks_elem.
  change DAY_COUNT with 7 in Hd. change SLOT_COUNT with 16 in He.
  change SLOT_MINUTES with 30 in Hmin, Hlen. lia.
Qed.

Lemma recommendedBlocks_well_formed_witness :
  0 <= 0 < 7 ∧ 0 <= 7 < 9 ∧ 9 <= 16 ∧ 60 = (9 - 7) * 30 ∧ 30 <= 60 <= 480
  ∧ 60 / 30 * 30 <= 60.
Proof.
  refine (recommendedBlocks_well_formed (cellsOfSlots 0 [2; 3; 4; 7; 8]) 3 60
            {| day := 0; startSlot := 7; endSlot := 9; minutes := 60 |} _).
  elem_of_computed.
Defined.

(** X7. Raising the minimum duration only removes blocks: every block
    recommended for a longer minimum is recommended for a shorter one. *)
Theorem recommendedBlocks_antitone (common : obj jsval)
    (membersLength shorter longer : Z) (b : TimeBlock) :
  shorter <= longer →
  b ∈ recommendedBlocks common membersLength longer →
  b ∈ recommendedBlocks common membersLength shorter.
Proof.
  intros Hle (Hn & Hrun & Hlen)%recommendedBlocks_elem.
  apply recommendedBlocks_elem. split; [done|]. split; [done|].
  assert (shorter / SLOT_MINUTES <= longer / SLOT_MINUTES)
    by (by apply Z.div_le_mono). lia.
Qed.

Lemma recommendedBlocks_antitone_witness :
  {| day := 0; startSlot := 2; endSlot := 5; minutes := 90 |}
    ∈ recommendedBlocks (cellsOfSlots 0 [2; 3; 4; 7; 8]) 3 30.
Proof.
  refine (recommendedBlocks_antitone (cellsOfSlots 0 [2; 3; 4; 7; 8]) 3 30 90
            {| day := 0; startSlot := 2; endSlot := 5; minutes := 90 |} _ _).
  - vm_compute. discriminate.
  - elem_of_computed.
Defined.

(** X8. In the blocks recommended for a state, every member, the local user
    by the draft buffer, is available at every slot of every block. *)
Theorem recommendedBlocksOf_everyone_available (st : HomeState) (b : TimeBlock)
    (s : Z) (m : TeamMember) :
  b ∈ recommendedBlocksOf st → startSlot b <= s < endSlot b →
  m ∈ membersForCalculation st →
  isAvailable m (keyFor (day b) s) = true.
Proof.
  intros (_ & [_ (_ & _ & Hall & _)] & _)%recommendedBlocks_elem Hs Hm.
  destruct (Hall s Hs) as [_ Htruthy].
  apply truthy_prop_key in Htruthy.
  apply commonCells_key in Htruthy as [_ Hcount].
  rewrite availabilityCount_lookup in Hcount.
  destruct (decide (_ ∈ gridKeys)); [|done]. injection Hcount as Hcount.
  apply Z.eqb_eq in Hcount. rewrite countAvailable_full in Hcount.
  unfold allAvailable in Hcount. rewrite forallb_forall in Hcount.
  by apply Hcount, list_elem_of_In.
Qed.

Lemma recommendedBlocksOf_everyone_available_witness :
  isAvailable (sampleMember "u2" "Ben" [("0-1", JTrue); ("0-0", JTrue)])
    (keyFor 0 1) = true.
Proof.
  refine (recommendedBlocksOf_everyone_available sampleStateAllFree
            {| day := 0; startSlot := 0; endSlot := 2; minutes := 60 |} 1
            (sampleMember "u2" "Ben" [("0-1", JTrue); ("0-0", JTrue)]) _ _ _).
  - elem_of_computed.
  - simpl. lia.
  - elem_of_computed.
Defined.

(** ** Reading back what was written *)

Lemma sanitize_fold_fresh (l init : obj jsval) :
  obj_wf l → all_true l → "__proto__" ∉ obj_keys l →
  (∀ k, k ∈ obj_keys l → k ∉ obj_keys init) →
  fold_left
    (λ result '(key, marked),
       if truthy marked then assign key JTrue result else result) l init
  = init ++ l.
Proof.
  unfold obj_wf, all_true, obj_keys. revert init.
  induction l as [|[k v] l IH]; intros init Hwf Hall Hproto Hfresh; cbn [fold_left].
  - by rewrite app_nil_r.
  - apply list.NoDup_cons in Hwf as [Hk Hwf].
    apply Forall_cons_iff in Hall as [Hv Hall]. simpl in Hv. subst v.
    cbn in Hproto. apply not_elem_of_cons in Hproto as [Hne Hproto].
    cbn [truthy JTrue]. unfold assign.
    destruct (String.eqb_spec k "__proto__") as [->|_]; [done|].
    rewrite obj_set_fresh by (apply Hfresh; left).
    rewrite IH; [by rewrite <-app_assoc|done|done|done|].
    intros k' Hk'. unfold obj_keys. rewrite fmap_app, not_elem_of_app. split.
    + apply Hfresh. by right.
    + cbn. rewrite list_elem_of_singleton. intros ->. done.
Qed.

Lemma sanitizeCells_no_proto value : "__proto__" ∉ obj_keys (sanitizeCells value).
Proof.
  unfold sanitizeCells. destruct (_ || _); [apply not_elem_of_nil|].
  rewrite sanitize_fold_keys. intros [[Hk _]|?%elem_of_nil]; done.
Qed.

(** X9. [sanitizeCells] gives back unchanged a cell set that holds no key
    [__proto__]; what it returns never holds that key, so sanitizing twice
    is sanitizing once. *)
Theorem sanitizeCells_round_trip :
  (∀ o, cell_set o → "__proto__" ∉ obj_keys o → sanitizeCells (JObj o) = o)
  ∧ (∀ value, "__proto__" ∉ obj_keys (sanitizeCells value))
  ∧ (∀ value, sanitizeCells (JObj (sanitizeCells value)) = sanitizeCells value).
Proof.
  assert (∀ o, cell_set o → "__proto__" ∉ obj_keys o → sanitizeCells (JObj o) = o)
    as Hid.
  { intros o [Hwf Hall] Hproto. unfold sanitizeCells.
    cbn [truthy typeof_object negb orb entries].
    rewrite sanitize_fold_fresh; [done..|]. intros k _. apply not_elem_of_nil. }
  split; [done|]. split; [apply sanitizeCells_no_proto|].
  intros value. apply Hid; [apply sanitizeCells_cell_set|apply sanitizeCells_no_proto].
Qed.

Lemma sanitizeCells_round_trip_witness :
  sanitizeCells (JObj [("0-1", JTrue); ("0-0", JTrue)])
  = [("0-1", JTrue); ("0-0", JTrue)].
Proof.
  refine (proj1 sanitizeCells_round_trip [("0-1", JTrue); ("0-0", JTrue)] _ _).
  - apply sample_cells_ben.
  - apply (bool_decide_unpack _). vm_compute. exact I.
Defined.

(** X10. On cell sets [sameCells] is reflexive and transitive, and it is
    symmetric on cell sets none of whose keys is a name inherited from
    [Object.prototype].  With such a key it is not: the set holding only
    [constructor] passes for the set holding only the slot [0-0], and not
    the other way round. *)
Theorem sameCells_equivalence (a b c : obj jsval) :
  cell_set a → cell_set b → cell_set c →
  sameCells a a = true
  ∧ (own_names a → own_names b → sameCells a b = sameCells b a)
  ∧ (sameCells a b = true → sameCells b c = true → sameCells a c = true)
  ∧ sameCells [("constructor", JTrue)] [("0-0", JTrue)] = true
  ∧ sameCells [("0-0", JTrue)] [("constructor", JTrue)] = false.
Proof.
  intros [Haw Hat] [Hbw Hbt] [Hcw Hct].
  split; [by apply sameCells_set_equal|]. split; [|split; [|done]].
  - intros Hao Hbo. destruct (sameCells b a) eqn:Hba.
    + apply sameCells_set_equal; [done..|].
      apply set_equal_sym. by apply sameCells_true_set_equal in Hba.
    + apply sameCells_false_iff; [done..|].
      apply sameCells_false_iff in Hba; [|done..].
      intros Hab. apply Hba. by apply set_equal_sym.
  - unfold sameCells.
    destruct (Nat.eqb_spec (length (obj_keys a)) (length (obj_keys b)))
      as [Hab|]; [|done].
    destruct (Nat.eqb_spec (length (obj_keys b)) (length (obj_keys c)))
      as [Hbc|]; [|done].
    rewrite Hab, Hbc, Nat.eqb_refl. cbn [negb]. rewrite !forallb_forall.
    intros Ha Hb k Hk. specialize (Ha k Hk). unfold truthyRead in Ha.
    destruct (obj_get b k) as [v|] eqn:Hget.
    + apply Hb, list_elem_of_In, obj_get_is_Some. by eexists.
    + by apply truthyRead_inherited.
Qed.

Lemma sameCells_equivalence_witness :
  sameCells [("0-1", JTrue); ("0-0", JTrue)] [("0-0", JTrue); ("0-1", JTrue)]
  = sameCells [("0-0", JTrue); ("0-1", JTrue)] [("0-1", JTrue); ("0-0", JTrue)].
Proof.
  refine (proj1 (proj2 (sameCells_equivalence
                          [("0-1", JTrue); ("0-0", JTrue)]
                          [("0-0", JTrue); ("0-1", JTrue)] [] _ _ _)) _ _);
    [apply sample_cells_ben | apply sample_cells_ben | apply cell_set_nil
     | repeat constructor | repeat constructor].
Defined.

(** ** How edits compose *)

Lemma obj_get_delete_ne {V} (k k' : string) (o : obj V) :
  k ≠ k' → obj_get (obj_delete k o) k' = obj_get o k'.
Proof.
  intros Hne. induction o as [|[k0 v0] o IH]; simpl; [done|].
  destruct (String.eqb_spec k0 k) as [->|Hk]; simpl.
  - rewrite IH. by destruct (String.eqb_spec k k').
  - by rewrite IH.
Qed.

Lemma paintUpdater_other key value previous k :
  k ≠ key → obj_get (paintUpdater key value previous) k = obj_get previous k.
Proof.
  intros Hne. unfold paintUpdater. destruct (Bool.eqb _ _); [done|].
  destruct value; [by apply obj_get_set_ne | by apply obj_get_delete_ne].
Qed.

Lemma paintUpdater_same key value previous :
  all_true previous →
  obj_get (paintUpdater key value previous) key
  = if value then Some JTrue else None.
Proof.
  intros Hall.
  assert (all_true (paintUpdater key value previous)) as Hall'.
  { unfold paintUpdater. destruct (Bool.eqb _ _); [done|].
    destruct value; [by apply all_true_set | by apply all_true_delete]. }
  pose proof (paintUpdater_marks key value previous) as Hmark.
  destruct value.
  - apply truthy_prop_iff in Hmark; [|done]. by apply all_true_get.
  - apply truthy_prop_false_iff in Hmark; [|done]. by apply obj_get_None.
Qed.

Lemma paintUpdater_lookup key value previous k :
  all_true previous →
  obj_get (paintUpdater key value previous) k
  = if decide (k = key) then (if value then Some JTrue else None)
    else obj_get previous k.
Proof.
  intros Hall. destruct (decide (k = key)) as [->|Hne].
  - by apply paintUpdater_same.
  - by apply paintUpdater_other.
Qed.

Lemma paintUpdater_all_true key value previous :
  all_true previous → all_true (paintUpdater key value previous).
Proof.
  intros Hall. unfold paintUpdater. destruct (Bool.eqb _ _); [done|].
  destruct value; [by apply all_true_set | by apply all_true_delete].
Qed.

Lemma paintUpdater_last_wins key v1 v2 previous k :
  all_true previous →
  obj_get (paintUpdater key v2 (paintUpdater key v1 previous)) k
  = obj_get (paintUpdater key v2 previous) k.
Proof.
  intros Hall.
  rewrite !paintUpdater_lookup by (done || by apply paintUpdater_all_true).
  by destruct (decide (k = key)).
Qed.

(** X11. On a buffer of [true] values, edits of different cells commute and
    of two edits of the same cell the later one decides: either way every
    key reads the same afterwards. *)
Theorem paintUpdater_compose (k1 k2 : string) (v1 v2 : bool)
    (previous : obj jsval) :
  all_true previous →
  (k1 ≠ k2 →
   ∀ k, obj_get (paintUpdater k1 v1 (paintUpdater k2 v2 previous)) k
        = obj_get (paintUpdater k2 v2 (paintUpdater k1 v1 previous)) k)
  ∧ (∀ k, obj_get (paintUpdater k1 v2 (paintUpdater k1 v1 previous)) k
          = obj_get (paintUpdater k1 v2 previous) k).
Proof.
  intros Hall. split.
  - intros Hne k.
    rewrite !paintUpdater_lookup by (done || by apply paintUpdater_all_true).
    destruct (decide (k = k1)) as [E1|?], (decide (k = k2)) as [E2|?];
      [congruence | done..].
  - intros k.
    rewrite !paintUpdater_lookup by (done || by apply paintUpdater_all_true).
    by destruct (decide (k = k1)).
Qed.

Lemma paintUpdater_compose_witness :
  obj_get (paintUpdater "0-1" false (paintUpdater "0-1" true [("0-0", JTrue)])) "0-1"
  = obj_get (paintUpdater "0-1" false [("0-0", JTrue)]) "0-1".
Proof.
  refine (proj2 (paintUpdater_compose "0-1" "0-0" true false [("0-0", JTrue)] _)
            "0-1").
  repeat constructor.
Defined.

(** ** What the pointer handlers leave alone *)

Lemma settings_paintCell d s v st : settings (paintCell d s v st).1 = settings st.
Proof. unfold paintCell. by destruct (isCellInputEnabled st). Qed.

Lemma settings_paintFound found v st :
  settings (paintFound found v st).1 = settings st.
Proof. destruct found as [[d s]|]; [apply settings_paintCell | done]. Qed.

Lemma settings_handle ev st : settings (handle ev st).1 = settings st.
Proof.
  destruct ev as [d s e|d s|e|e]; cbn [handle].
  - unfold onPointerDown. destruct (negb _); [done|]. destruct (isTouch e); [done|].
    by rewrite settings_paintCell.
  - unfold onPointerEnter. destruct (negb _); [done|]. apply settings_paintCell.
  - unfold handlePointerMove. destruct (tg_active (touchGesture st)).
    + destruct (otherPointer _ e); [done|]. destruct (is_pending _).
      * destruct (_ && _); [done|]. destruct (Qgtb _ _); [done|].
        destruct (paintCell _ _ _ _) as [st3 log3] eqn:H3.
        assert (settings st3 = settings st) as H3'.
        { change st3 with (st3, log3).1. rewrite <-H3. by rewrite settings_paintCell. }
        destruct (is_scroll _); [done|].
        destruct (paintFound _ _ st3) as [st4 log4] eqn:H4. cbn [fst].
        change st4 with (st4, log4).1. rewrite <-H4. by rewrite settings_paintFound.
      * destruct (is_scroll _); [done|]. apply settings_paintFound.
    + destruct (negb _); [done|]. apply settings_paintFound.
  - unfold stopDrawing. destruct (_ && _); [done|].
    destruct (tg_active (touchGesture st)).
    + destruct (is_pending _).
      * destruct (paintCell _ _ _ st) as [st' log'] eqn:Hp.
        assert (settings st' = settings st) as Hp'.
        { change st' with (st', log').1. rewrite <-Hp. apply settings_paintCell. }
        by destruct (canEditSelected st).
      * by destruct (canEditSelected st).
    + by destruct (canEditSelected st).
Qed.

Lemma settings_isCellInputEnabled st st' :
  settings st' = settings st → isCellInputEnabled st' = isCellInputEnabled st.
Proof.
  destruct st, st'. unfold settings. cbn. intros [= -> -> -> -> -> -> -> -> -> ->].
  reflexivity.
Qed.

Lemma settings_runHandlers events st :
  settings (runHandlers (map handle events) st).1 = settings st.
Proof.
  revert st. induction events as [|ev events IH]; intros st; [done|].
  cbn [map runHandlers].
  destruct (handle ev st) as [st1 log1] eqn:H1.
  specialize (IH st1). destruct (runHandlers _ st1) as [st2 log2]. cbn [fst] in *.
  rewrite IH. change st1 with (st1, log1).1. rewrite <-H1. apply settings_handle.
Qed.

(** X12. No sequence of pointer events on the grid changes anything but the
    draft buffer, the drawing flag and the touch gesture: the member list,
    the signed-in user, the selection, the viewport and section flags, the
    edit and paint modes, the minimum duration and the week start stay as
    they were, and with them the gates [canEditSelected] and
    [isCellInputEnabled]. *)
Theorem pointer_events_frame (events : list GridEvent) (st : HomeState) :
  let st' := (runHandlers (map handle events) st).1 in
  settings st' = settings st
  ∧ isCellInputEnabled st' = isCellInputEnabled st
  ∧ membersForCalculation st'
    = map (λ member, if (user_id member =? userId st)%string
                     then with_cells (draftCells st') member else member)
        (members st).
Proof.
  intros st'. pose proof (settings_runHandlers events st) as Hs. fold st' in Hs.
  split; [done|]. split; [by apply settings_isCellInputEnabled|].
  unfold membersForCalculation. injection Hs as _ Hu _ _ _ Hm _ _ _ _.
  by rewrite Hu, Hm.
Qed.

(** ** Gated handlers *)

Lemma paintFound_disabled found v st :
  isCellInputEnabled st = false → paintFound found v st = (st, []).
Proof. intros H. destruct found as [[d s]|]; [by apply paintCell_disabled | done]. Qed.

Lemma handle_disabled ev st :
  isCellInputEnabled st = false →
  draftCells (handle ev st).1 = draftCells st ∧ editsOf (handle ev st).2 = [].
Proof.
  intros Hdis. destruct ev as [d s e|d s|e|e]; cbn [handle].
  - unfold onPointerDown. by rewrite Hdis.
  - unfold onPointerEnter. destruct (negb _); [done|].
    by rewrite paintCell_disabled.
  - unfold handlePointerMove. destruct (tg_active (touchGesture st)).
    + destruct (otherPointer _ e); [done|]. destruct (is_pending _).
      * destruct (_ && _); [done|]. destruct (Qgtb _ _); [done|].
        rewrite paintCell_disabled by exact Hdis.
        destruct (is_scroll _); [done|].
        by rewrite paintFound_disabled by exact Hdis.
      * destruct (is_scroll _); [done|]. by rewrite paintFound_disabled.
    + destruct (negb _); [done|]. by rewrite paintFound_disabled.
  - unfold stopDrawing. destruct (_ && _); [done|].
    destruct (tg_active (touchGesture st)).
    + destruct (is_pending _).
      * rewrite paintCell_disabled by exact Hdis. by destruct (canEditSelected st).
      * by destruct (canEditSelected st).
    + by destruct (canEditSelected st).
Qed.

Lemma editsOf_app l1 l2 : editsOf (l1 ++ l2) = editsOf l1 ++ editsOf l2.
Proof. apply List.filter_app. Qed.

Lemma commitsOf_app l1 l2 : commitsOf (l1 ++ l2) = commitsOf l1 ++ commitsOf l2.
Proof. apply List.filter_app. Qed.

(** X13. While cell input is disabled no sequence of pointer events, downs,
    enters, moves and releases in any order, touches the draft buffer or
    issues an edit. *)
Theorem disabled_events_never_edit (events : list GridEvent) (st : HomeState) :
  isCellInputEnabled st = false →
  draftCells (runHandlers (map handle events) st).1 = draftCells st
  ∧ editsOf (runHandlers (map handle events) st).2 = [].
Proof.
  revert st. induction events as [|ev events IH]; intros st Hdis; [done|].
  cbn [map runHandlers].
  pose proof (handle_disabled ev st Hdis) as [Hd He].
  pose proof (settings_isCellInputEnabled st (handle ev st).1
                (settings_handle ev st)) as Hen.
  destruct (handle ev st) as [st1 log1]. cbn [fst snd] in *.
  rewrite Hdis in Hen. specialize (IH st1 Hen).
  destruct (runHandlers _ st1) as [st2 log2]. cbn [fst snd] in *.
  destruct IH as [IHd IHe]. split; [congruence|].
  by rewrite editsOf_app, He, IHe.
Qed.

Lemma disabled_events_never_edit_witness :
  draftCells
    (runHandlers
       (map handle [EvDown 0 3 sampleDown; EvMove (sampleMove 100 130 (Some (0, 5)));
                    EvEnter 0 6; EvStop (Some sampleUp)])
       sampleStateViewing).1
  = draftCells sampleStateViewing.
Proof.
  refine (proj1 (disabled_events_never_edit
                   [EvDown 0 3 sampleDown; EvMove (sampleMove 100 130 (Some (0, 5)));
                    EvEnter 0 6; EvStop (Some sampleUp)] sampleStateViewing _)).
  reflexivity.
Defined.

(** X14. A release, cancel or forced stop that is not of another pointer
    than the gesture's leaves no gesture and no drawing active, applies at
    most one edit and triggers at most one commit; a release of another
    pointer during a touch gesture changes nothing at all. *)
Theorem stopDrawing_ends_input (ev : option PointerEvent) (st : HomeState) :
  let foreign :=
    tg_active (touchGesture st)
    && match ev with Some e => otherPointer (touchGesture st) e | None => false end in
  (foreign = true → stopDrawing ev st = (st, []))
  ∧ (foreign = false →
     tg_active (touchGesture (stopDrawing ev st).1) = false
     ∧ dr_active (drawing (stopDrawing ev st).1) = false
     ∧ (length (editsOf (stopDrawing ev st).2) ≤ 1)%nat
     ∧ (length (commitsOf (stopDrawing ev st).2) ≤ 1)%nat
     ∧ (canEditSelected st = true → length (commitsOf (stopDrawing ev st).2) = 1%nat)).
Proof.
  intros foreign. unfold stopDrawing. fold foreign. split; intros ->; [done|].
  destruct (tg_active (touchGesture st)) eqn:Ha.
  - destruct (is_pending _).
    + unfold paintCell. destruct (isCellInputEnabled st); cbn [negb fst snd];
        destruct (canEditSelected st); cbn; rewrite ?Ha;
        (split; [done|]); (split; [by destruct (drawing st) as [[] ?]|]);
        repeat split; (lia || done).
    + destruct (canEditSelected st); cbn; rewrite ?Ha;
        (split; [done|]); (split; [by destruct (drawing st) as [[] ?]|]);
        repeat split; (lia || done).
  - destruct (canEditSelected st); cbn; rewrite ?Ha;
      (split; [done|]); (split; [by destruct (drawing st) as [[] ?]|]);
      repeat split; (lia || done).
Qed.

Lemma stopDrawing_ends_input_witness :
  stopDrawing (Some (sampleMove 100 100 None))
    (setTouchGesture (with_mode paint)
       (setTouchGesture (λ g, {| tg_active := true; tg_pointerId := Some 7;
                                 tg_startX := 0; tg_startY := 0;
                                 tg_startDay := 0; tg_startSlot := 0;
                                 tg_value := true; tg_mode := pending |})
          sampleState))
  = (setTouchGesture (with_mode paint)
       (setTouchGesture (λ g, {| tg_active := true; tg_pointerId := Some 7;
                                 tg_startX := 0; tg_startY := 0;
                                 tg_startDay := 0; tg_startSlot := 0;
                                 tg_value := true; tg_mode := pending |})
          sampleState), []).
Proof.
  refine (proj1 (stopDrawing_ends_input _ _) _). reflexivity.
Defined.

(** ** Mouse gestures *)

Lemma enabled_displayedCells st :
  isCellInputEnabled st = true → displayedCells st = draftCells st.
Proof.
  unfold isCellInputEnabled, canEditSelected, displayedCells.
  destruct (selectedMember st) as [m|]; [|done].
  by destruct (user_id m =? userId st)%string.
Qed.

Lemma enabled_canEditSelected st :
  isCellInputEnabled st = true → canEditSelected st = true.
Proof. unfold isCellInputEnabled. by intros [? _]%andb_true_iff. Qed.

Lemma onPointerDown_mouse d s e st :
  isCellInputEnabled st = true → isTouch e = false →
  onPointerDown d s e st
  = (setDraftCells (paintUpdater (keyFor d s) (firstContactValue st d s))
       (setDrawing (λ _, {| dr_active := true;
                            dr_value := firstContactValue st d s |}) st),
     [EditCell d s (firstContactValue st d s)]).
Proof.
  intros Hen Hm. unfold onPointerDown. rewrite Hen, Hm. cbn [negb].
  by rewrite paintCell_enabled.
Qed.

Lemma dragStep_drawing v ev st :
  isCellInputEnabled st = true → tg_active (touchGesture st) = false →
  drawing st = {| dr_active := true; dr_value := v |} → isDragStep ev →
  (handle ev st).2 = dragStepEdits v ev
  ∧ isCellInputEnabled (handle ev st).1 = true
  ∧ tg_active (touchGesture (handle ev st).1) = false
  ∧ drawing (handle ev st).1 = {| dr_active := true; dr_value := v |}.
Proof.
  intros Hen Hg Hd Hstep. destruct ev as [| d s | e |]; try done; cbn [handle].
  - unfold onPointerEnter. rewrite Hd. cbn [dr_active dr_value negb].
    by rewrite paintCell_enabled.
  - unfold handlePointerMove. rewrite Hg, Hd. cbn [dr_active dr_value negb].
    unfold dragStepEdits, paintFound.
    destruct (cellAtPoint e) as [[d s]|]; [|done].
    by rewrite paintCell_enabled.
Qed.

Lemma dragSteps_drawing v steps st :
  isCellInputEnabled st = true → tg_active (touchGesture st) = false →
  drawing st = {| dr_active := true; dr_value := v |} → Forall isDragStep steps →
  (runHandlers (map handle steps) st).2 = flat_map (dragStepEdits v) steps
  ∧ isCellInputEnabled (runHandlers (map handle steps) st).1 = true
  ∧ tg_active (touchGesture (runHandlers (map handle steps) st).1) = false
  ∧ drawing (runHandlers (map handle steps) st).1
    = {| dr_active := true; dr_value := v |}.
Proof.
  intros Hen Hg Hd Hsteps. revert st Hen Hg Hd.
  induction Hsteps as [|ev steps Hev _ IH]; intros st Hen Hg Hd; [done|].
  cbn [map runHandlers flat_map].
  destruct (dragStep_drawing v ev st Hen Hg Hd Hev) as (Hlog & Hen1 & Hg1 & Hd1).
  destruct (handle ev st) as [st1 log1]. cbn [fst snd] in *.
  destruct (IH st1 Hen1 Hg1 Hd1) as (IHlog & IHen & IHg & IHd).
  destruct (runHandlers _ st1) as [st2 log2]. cbn [fst snd] in *.
  by rewrite Hlog, IHlog.
Qed.

Lemma runHandlers_app hs1 hs2 st :
  runHandlers (hs1 ++ hs2) st
  = let r1 := runHandlers hs1 st in
    let r2 := runHandlers hs2 r1.1 in
    (r2.1, r1.2 ++ r2.2).
Proof.
  revert st. induction hs1 as [|h hs1 IH]; intros st; cbn [app runHandlers].
  - cbv zeta. cbn [fst snd app]. by destruct (runHandlers hs2 st).
  - destruct (h st) as [st1 log1]. rewrite IH. cbv zeta.
    destruct (runHandlers hs1 st1) as [st2 log2]. cbn [fst snd].
    destruct (runHandlers hs2 st2) as [st3 log3]. cbn [fst snd].
    by rewrite app_assoc.
Qed.

(** X15. A mouse gesture on the user's own grid: a press on a cell, any
    number of cells entered or moved over, and the release.  The handlers
    edit the pressed cell and each cell passed, in order, all with the one
    value fixed at the press by the paint mode, and they call the commit
    once, at the release and without delay.  After the press and after
    every step a drawing is active with input enabled, so the debounce
    effect arms a further save 120 ms after each change of the buffer; after
    the release the effect arms nothing. *)
Theorem mouse_drag_paints_one_value (d s : Z) (down : PointerEvent)
    (up : option PointerEvent) (steps : list GridEvent) (st : HomeState) :
  isCellInputEnabled st = true → tg_active (touchGesture st) = false →
  isTouch down = false → Forall isDragStep steps →
  (runHandlers (map handle (EvDown d s down :: steps ++ [EvStop up])) st).2
  = EditCell d s (firstContactValue st d s)
    :: flat_map (dragStepEdits (firstContactValue st d s)) steps ++ [Commit 0]
  ∧ (∀ n, draftDebounce
            (runHandlers (map handle (EvDown d s down :: take n steps)) st).1
          = [Commit 120])
  ∧ draftDebounce
      (runHandlers (map handle (EvDown d s down :: steps ++ [EvStop up])) st).1
    = [].
Proof.
  intros Hen Hg Hm Hsteps. cbn [map runHandlers handle].
  rewrite (onPointerDown_mouse d s down st Hen Hm).
  set (v := firstContactValue st d s).
  set (st1 := setDraftCells _ _).
  assert (∀ l, Forall isDragStep l →
            let r := runHandlers (map handle l) st1 in
            r.2 = flat_map (dragStepEdits v) l
            ∧ isCellInputEnabled r.1 = true
            ∧ tg_active (touchGesture r.1) = false
            ∧ drawing r.1 = {| dr_active := true; dr_value := v |}) as Hdrag.
  { intros l Hl. by apply dragSteps_drawing. }
  refine (conj _ (conj _ _)).
  - rewrite map_app, runHandlers_app. cbv zeta.
    destruct (Hdrag steps Hsteps) as (Hlog & Hen2 & Hg2 & _).
    destruct (runHandlers (map handle steps) st1) as [st2 log2]. cbn [fst snd] in *.
    cbn [map runHandlers handle]. unfold stopDrawing. rewrite Hg2. cbn [andb].
    rewrite (enabled_canEditSelected st2 Hen2). cbn [fst snd app].
    by rewrite Hlog.
  - intros n.
    assert (Forall isDragStep (take n steps)) as Htake by (by apply Forall_take).
    destruct (Hdrag (take n steps) Htake) as (_ & Hen2 & _ & Hd2).
    destruct (runHandlers (map handle (take n steps)) st1) as [st2 log2].
    cbn [fst snd] in *. unfold draftDebounce. by rewrite Hd2, Hen2.
  - rewrite map_app, runHandlers_app. cbv zeta.
    destruct (Hdrag steps Hsteps) as (_ & Hen2 & Hg2 & Hd2).
    destruct (runHandlers (map handle steps) st1) as [st2 log2]. cbn [fst snd] in *.
    cbn [map runHandlers handle]. unfold stopDrawing. rewrite Hg2. cbn [andb].
    rewrite (enabled_canEditSelected st2 Hen2). cbn [fst snd].
    unfold draftDebounce. cbn [drawing setDrawing]. by rewrite Hd2.
Qed.

Lemma mouse_drag_paints_one_value_witness :
  (runHandlers
     (map handle (EvDown 0 3 sampleMouse
                  :: [EvEnter 0 4; EvMove (sampleMove 40 90 (Some (0, 5)))]
                  ++ [EvStop (Some sampleMouse)])) sampleState).2
  = EditCell 0 3 (firstContactValue sampleState 0 3)
    :: flat_map (dragStepEdits (firstContactValue sampleState 0 3))
         [EvEnter 0 4; EvMove (sampleMove 40 90 (Some (0, 5)))]
    ++ [Commit 0].
Proof.
  refine (proj1 (mouse_drag_paints_one_value 0 3 sampleMouse (Some sampleMouse)
                   [EvEnter 0 4; EvMove (sampleMove 40 90 (Some (0, 5)))]
                   sampleState _ _ _ _)).
  - reflexivity.
  - reflexivity.
  - reflexivity.
  - repeat constructor.
Defined.

Lemma click_mouse d s down up st :
  isCellInputEnabled st = true → tg_active (touchGesture st) = false →
  isTouch down = false →
  click d s down up st
  = (setDrawing endDrawing
       (setDraftCells (paintUpdater (keyFor d s) (firstContactValue st d s))
          (setDrawing (λ _, {| dr_active := true;
                               dr_value := firstContactValue st d s |}) st)),
     [EditCell d s (firstContactValue st d s); Commit 0]).
Proof.
  intros Hen Hg Hm. unfold click. cbn [runHandlers].
  rewrite (onPointerDown_mouse d s down st Hen Hm).
  unfold stopDrawing. cbn [touchGesture setDraftCells setDrawing].
  rewrite Hg. cbn [andb].
  assert (canEditSelected
            (setDraftCells (paintUpdater (keyFor d s) (firstContactValue st d s))
               (setDrawing (λ _, {| dr_active := true;
                                    dr_value := firstContactValue st d s |}) st))
          = true) as Hc by (by apply enabled_canEditSelected).
  unfold canEditSelected, selectedMember, resolvedSelectedMemberId, myMember in Hc.
  cbn in Hc. unfold canEditSelected, selectedMember, resolvedSelectedMemberId,
    myMember. cbn. by rewrite Hc.
Qed.

Lemma obj_delete_fresh {V} (k : string) (o : obj V) :
  k ∉ obj_keys o → obj_delete k o = o.
Proof.
  unfold obj_keys. induction o as [|[k0 v0] o IH]; simpl; [done|].
  rewrite not_elem_of_cons. intros [Hne Hnin].
  destruct (String.eqb_spec k0 k) as [->|_]; [done|]. by rewrite IH.
Qed.

Lemma obj_delete_length {V} (k : string) (o : obj V) :
  obj_wf o → k ∈ obj_keys o → S (length (obj_delete k o)) = length o.
Proof.
  unfold obj_wf, obj_keys. induction o as [|[k0 v0] o IH]; simpl.
  - by intros _ ?%elem_of_nil.
  - rewrite list.NoDup_cons, elem_of_cons. intros [Hk0 Hwf] Hin.
    destruct (String.eqb_spec k0 k) as [->|Hne].
    + by rewrite obj_delete_fresh.
    + simpl. rewrite IH; [done|done|]. by destruct Hin as [->|].
Qed.

(** An edit that flips a key changes the number of keys. *)
Lemma paintUpdater_flip_length key previous :
  cell_set previous →
  length (obj_keys (paintUpdater key (negb (truthy (prop previous key))) previous))
  ≠ length (obj_keys previous).
Proof.
  intros [Hwf Hall]. unfold paintUpdater, obj_keys. rewrite !length_fmap.
  destruct (truthy (prop previous key)) eqn:Hmark; cbn [negb Bool.eqb].
  - apply truthy_prop_iff in Hmark; [|done].
    pose proof (obj_delete_length key previous Hwf Hmark). lia.
  - apply truthy_prop_false_iff in Hmark; [|done].
    rewrite obj_set_fresh by done. rewrite length_app. simpl. lia.
Qed.

(** X16. In smart mode, on the user's own grid with the buffer in step with
    the committed row [m]: a mouse click makes the cell display the opposite
    of what it displayed, and its release commits the edited buffer, which
    is sent whole.  The reconciliation effect that follows the release then
    puts the committed cells back into the buffer, the written row not
    having been fetched yet; a second click on the cell made before that
    fetch issues the same edit as the first. *)
Theorem smart_click_then_reconcile (d s : Z) (down up down' up' : PointerEvent)
    (now : string) (st : HomeState) (m : TeamMember) :
  isCellInputEnabled st = true → tg_active (touchGesture st) = false →
  paintMode st = smart → isTouch down = false → isTouch down' = false →
  client st = true → userId st ≠ ""%string → myMember st = Some m →
  cell_set (draftCells st) → cell_set (cells m) →
  set_equal (draftCells st) (cells m) →
  let st1 := (click d s down up st).1 in
  let st2 := reconcileDraft st1 in
  truthy (prop (displayedCells st1) (keyFor d s))
  = negb (truthy (prop (displayedCells st) (keyFor d s)))
  ∧ (click d s down up st).2
    = [EditCell d s (firstContactValue st d s); Commit 0]
  ∧ persistMyCells now (draftCells st1) st1
    = Some {| upd_cells := draftCells st1;
              upd_last_editor := display_name m;
              upd_updated_at := now |}
  ∧ draftCells st2 = cells m
  ∧ (click d s down' up' st2).2
    = [EditCell d s (firstContactValue st d s); Commit 0].
Proof.
  intros Hen Hg Hmode Hm Hm' Hc Hu Hmy Hd Hcm Heq st1 st2.
  pose proof Hd as [Hdw Hdt]. pose proof Hcm as [Hmw Hmt].
  assert (firstContactValue st d s
          = negb (truthy (prop (draftCells st) (keyFor d s)))) as Hv.
  { unfold firstContactValue. by rewrite Hmode, enabled_displayedCells. }
  assert (st1 = setDrawing endDrawing
                  (setDraftCells
                     (paintUpdater (keyFor d s) (firstContactValue st d s))
                     (setDrawing (λ _, {| dr_active := true;
                                          dr_value := firstContactValue st d s |})
                        st))) as Hst1.
  { unfold st1. by rewrite click_mouse. }
  assert (isCellInputEnabled st1 = true) as Hen1 by (by rewrite Hst1).
  assert (draftCells st1
          = paintUpdater (keyFor d s) (firstContactValue st d s) (draftCells st))
    as Hd1 by (by rewrite Hst1).
  assert (myMember st1 = Some m) as Hmy1 by (by rewrite Hst1).
  assert (length (obj_keys (draftCells st1)) ≠ length (obj_keys (cells m))) as Hlen.
  { rewrite Hd1, Hv, <-(set_equal_length _ _ Hdw Hmw Heq).
    by apply paintUpdater_flip_length. }
  assert (st2 = setDraftCells (λ _, cells m) st1) as Hst2.
  { unfold st2, reconcileDraft.
    replace (dr_active (drawing st1)) with false by (by rewrite Hst1).
    rewrite Hmy1. apply setDraftCells_ext. unfold sameCells.
    by destruct (Nat.eqb_spec (length (obj_keys (draftCells st1)))
                   (length (obj_keys (cells m)))). }
  refine (conj _ (conj _ (conj _ (conj _ _)))).
  - rewrite !enabled_displayedCells by done.
    by rewrite Hd1, paintUpdater_marks.
  - by rewrite click_mouse.
  - unfold persistMyCells. rewrite Hmy1.
    replace (client st1) with true by (by rewrite Hst1).
    replace (userId st1) with (userId st) by (by rewrite Hst1).
    destruct (String.eqb_spec (userId st) "") as [|_]; [done|]. cbn [negb orb].
    unfold sameCells.
    destruct (Nat.eqb_spec (length (obj_keys (cells m)))
                (length (obj_keys (draftCells st1)))) as [Hl|_]; [|done].
    by destruct Hlen.
  - by rewrite Hst2.
  - assert (isCellInputEnabled st2 = true) as Hen2 by (by rewrite Hst2).
    assert (firstContactValue st2 d s = firstContactValue st d s) as Hv2.
    { rewrite Hv. unfold firstContactValue.
      replace (paintMode st2) with smart by (by rewrite Hst2, Hst1).
      rewrite enabled_displayedCells by done.
      replace (draftCells st2) with (cells m) by (by rewrite Hst2).
      f_equal. destruct (truthy (prop (draftCells st) (keyFor d s))) eqn:Hmark.
      - apply truthy_prop_iff; [done|]. apply Heq. by apply truthy_prop_iff in Hmark.
      - apply truthy_prop_false_iff; [done|]. intros Hin%Heq.
        by apply truthy_prop_false_iff in Hmark. }
    rewrite click_mouse; [by rewrite Hv2|done| |done]. by rewrite Hst2, Hst1.
Qed.

Lemma smart_click_then_reconcile_witness :
  draftCells (reconcileDraft (click 0 3 sampleMouse sampleMouse sampleState).1)
  = cells (sampleMember "u1" "Ann" [("0-0", JTrue)]).
Proof.
  refine (proj1 (proj2 (proj2 (proj2
            (smart_click_then_reconcile 0 3 sampleMouse sampleMouse sampleMouse
               sampleMouse "2026-10-29T08:00:00.000Z" sampleState
               (sampleMember "u1" "Ann" [("0-0", JTrue)])
               _ _ _ _ _ _ _ _ _ _ _))))).
  - reflexivity.
  - reflexivity.
  - reflexivity.
  - reflexivity.
  - reflexivity.
  - reflexivity.
  - discriminate.
  - reflexivity.
  - split; [repeat constructor; by intros ?%elem_of_nil | repeat constructor].
  - split; [repeat constructor; by intros ?%elem_of_nil | repeat constructor].
  - done.
Defined.

(** X17. An edit in an enabled context shows at once: the painted cell
    displays the painted value, and every other cell of the grid displays
    what it displayed before. *)
Theorem paintCell_displays (d s : Z) (v : bool) (st : HomeState) :
  isCellInputEnabled st = true →
  let st' := (paintCell d s v st).1 in
  truthy (prop (displayedCells st') (keyFor d s)) = v
  ∧ (∀ d' s', (d', s') ≠ (d, s) →
       prop (displayedCells st') (keyFor d' s')
       = prop (displayedCells st) (keyFor d' s')).
Proof.
  intros Hen st'.
  assert (displayedCells st' = paintUpdater (keyFor d s) v (draftCells st)) as Hd.
  { unfold st'. rewrite paintCell_enabled by done. cbn [fst].
    by rewrite enabled_displayedCells. }
  rewrite Hd, (enabled_displayedCells st Hen). split.
  - apply paintUpdater_marks.
  - intros d' s' Hne. unfold prop. rewrite paintUpdater_other; [done|].
    intros Heq%keyFor_eq_inv. done.
Qed.

Lemma paintCell_displays_witness :
  truthy (prop (displayedCells (paintCell 0 3 true sampleState).1) (keyFor 0 3))
  = true.
Proof.
  refine (proj1 (paintCell_displays 0 3 true sampleState _)). reflexivity.
Defined.

(** ** The week boundary *)

Lemma getKstWeekStartMs_unfold (date : Z) :
  getKstWeekStartMs date
  = ((date + KST_OFFSET_MS) / msPerDay
     - ((date + KST_OFFSET_MS) / msPerDay + 4) mod 7) * msPerDay - KST_OFFSET_MS.
Proof.
  unfold getKstWeekStartMs, getUTCDay, setUTCMidnight, addUTCDate, WEEK_START_DAY.
  cbv zeta.
  pose proof (Z.mod_pos_bound ((date + KST_OFFSET_MS) / msPerDay + 4) 7 eq_refl).
  rewrite Z.sub_0_r.
  replace (Z.rem (((date + KST_OFFSET_MS) / msPerDay + 4) mod 7 + 7) 7)
    with (((date + KST_OFFSET_MS) / msPerDay + 4) mod 7).
  - lia.
  - rewrite Z.rem_mod_nonneg by lia.
    rewrite <-(Z.mul_1_l 7) at 3. rewrite Z.mod_add by done.
    by rewrite Z.mod_mod.
Qed.

Lemma week_of_day (q q' : Z) :
  q - (q + 4) mod 7 <= q' < q - (q + 4) mod 7 + 7 →
  q' - (q' + 4) mod 7 = q - (q + 4) mod 7.
Proof.
  intros Hq.
  pose proof (Z.div_mod (q + 4) 7 ltac:(done)) as H1.
  pose proof (Z.mod_pos_bound (q + 4) 7 eq_refl) as H2.
  assert ((q' + 4) mod 7 = q' + 4 - 7 * ((q + 4) / 7)) as ->; [|lia].
  symmetry. apply Z.mod_unique with ((q + 4) / 7); lia.
Qed.

Lemma weekStart_bounds (date : Z) :
  getKstWeekStartMs date <= date < getKstWeekStartMs date + 7 * msPerDay.
Proof.
  rewrite getKstWeekStartMs_unfold.
  set (s := date + KST_OFFSET_MS). set (q := s / msPerDay).
  pose proof (Z.mod_pos_bound (q + 4) 7 eq_refl) as Hw.
  pose proof (Z.div_mod s msPerDay ltac:(done)) as Hs.
  pose proof (Z.mod_pos_bound s msPerDay eq_refl) as Hr. fold q in Hs.
  unfold s, msPerDay, KST_OFFSET_MS in *. lia.
Qed.

Lemma weekStart_same (date t : Z) :
  getKstWeekStartMs date <= t < getKstWeekStartMs date + 7 * msPerDay →
  getKstWeekStartMs t = getKstWeekStartMs date.
Proof.
  rewrite !getKstWeekStartMs_unfold.
  set (q := (date + KST_OFFSET_MS) / msPerDay).
  set (q' := (t + KST_OFFSET_MS) / msPerDay). intros Ht.
  assert (q - (q + 4) mod 7 <= q' < q - (q + 4) mod 7 + 7) as Hq'.
  { unfold q'. split.
    - apply Z.div_le_lower_bound; [done|]. unfold msPerDay, KST_OFFSET_MS in *. lia.
    - apply Z.div_lt_upper_bound; [done|]. unfold msPerDay, KST_OFFSET_MS in *. lia. }
  by rewrite (week_of_day q q' Hq').
Qed.

(** X18. The week start computed for an instant is the Sunday 00:00 of
    UTC+9 at or before it: it is not later than the instant and less than
    seven days earlier, it falls on a midnight and a Sunday of UTC+9, and
    every instant of the week it opens, itself included, has the same week
    start. *)
Theorem getKstWeekStartMs_week (date : Z) :
  let ws := getKstWeekStartMs date in
  ws <= date < ws + 7 * msPerDay
  ∧ (ws + KST_OFFSET_MS) mod msPerDay = 0
  ∧ getUTCDay (ws + KST_OFFSET_MS) = 0
  ∧ (∀ t, ws <= t < ws + 7 * msPerDay → getKstWeekStartMs t = ws).
Proof.
  intros ws. split; [apply weekStart_bounds|].
  split; [|split; [|intros t Ht; by apply weekStart_same]].
  - unfold ws. rewrite getKstWeekStartMs_unfold.
    set (q := (date + KST_OFFSET_MS) / msPerDay).
    replace ((q - (q + 4) mod 7) * msPerDay - KST_OFFSET_MS + KST_OFFSET_MS)
      with ((q - (q + 4) mod 7) * msPerDay) by lia.
    apply Z.mod_mul. done.
  - unfold ws, getUTCDay. rewrite getKstWeekStartMs_unfold.
    set (q := (date + KST_OFFSET_MS) / msPerDay).
    replace ((q - (q + 4) mod 7) * msPerDay - KST_OFFSET_MS + KST_OFFSET_MS)
      with ((q - (q + 4) mod 7) * msPerDay) by lia.
    rewrite Z.div_mul by done.
    pose proof (Z.div_mod (q + 4) 7 ltac:(done)) as Hq.
    replace (q - (q + 4) mod 7 + 4) with ((q + 4) / 7 * 7) by lia.
    apply Z.mod_mul. done.
Qed.

Lemma getKstWeekStartMs_week_witness :
  getKstWeekStartMs 1793188800000 = getKstWeekStartMs 1792854000000.
Proof.
  refine (eq_trans
            (proj2 (proj2 (proj2 (getKstWeekStartMs_week 1792854000000)))
               1793188800000 _) _).
  - vm_compute. split; [discriminate | reflexivity].
  - symmetry.
    refine (proj2 (proj2 (proj2 (getKstWeekStartMs_week 1792854000000)))
              1792854000000 _).
    vm_compute. split; [discriminate | reflexivity].
Defined.

(** X19. Against the week start computed now, a row whose [updated_at]
    parses to an instant not after now is fresh exactly when that instant
    lies in the same week as now; in particular a row written just now is
    never stale. *)
Theorem isStaleWeek_same_week (parseDate : string → option Z)
    (updatedAt : string) (t now : Z) :
  updatedAt ≠ ""%string → parseDate updatedAt = Some t → t <= now →
  isStaleWeek parseDate (Some updatedAt) (getKstWeekStartMs now) = false
  ↔ getKstWeekStartMs t = getKstWeekStartMs now.
Proof.
  intros Hne Hparse Hle. unfold isStaleWeek. rewrite Hparse.
  destruct (String.eqb_spec updatedAt "") as [|_]; [done|].
  rewrite Z.ltb_ge.
  pose proof (weekStart_bounds now) as Hnow.
  pose proof (weekStart_bounds t) as Ht.
  split.
  - intros Hge. apply weekStart_same. lia.
  - intros <-. lia.
Qed.

Lemma isStaleWeek_same_week_witness :
  isStaleWeek sampleParseDate (Some "2026-10-28T12:00:00.000Z")
    (getKstWeekStartMs 1793188800000) = false
  ↔ getKstWeekStartMs 1793188800000 = getKstWeekStartMs 1793188800000.
Proof.
  refine (isStaleWeek_same_week sampleParseDate "2026-10-28T12:00:00.000Z"
            1793188800000 1793188800000 _ _ _).
  - discriminate.
  - reflexivity.
  - vm_compute. discriminate.
Defined.

(** ** Selection *)

Lemma find_id_hit (ms : list TeamMember) (m : TeamMember) :
  NoDup (map id ms) → m ∈ ms →
  find (λ member, (id member =? id m)%string) ms = Some m.
Proof.
  induction ms as [|m0 ms IH]; cbn [map find]; [by intros _ ?%elem_of_nil|].
  rewrite list.NoDup_cons. intros [Hnin Hnd] [->|Hin]%elem_of_cons.
  - by rewrite String.eqb_refl.
  - destruct (String.eqb_spec (id m0) (id m)) as [Heq|_]; [|by apply IH].
    destruct Hnin. rewrite Heq. by apply list_elem_of_fmap_2.
Qed.

(** X20. The selection always resolves to a member while there is one, and
    without a valid selection it falls on the local user's own row: if the
    stored selection names a member, the selected member has that id; if it
    names none and the user has a row, that row is selected and may be
    edited, provided row ids are unique. *)
Theorem selection_resolves (st : HomeState) :
  (members st ≠ [] → is_Some (selectedMember st))
  ∧ ((∃ m, m ∈ members st ∧ id m = selectedMemberId st) →
     ∃ m, selectedMember st = Some m ∧ id m = selectedMemberId st)
  ∧ (NoDup (map id (members st)) →
     (∀ m, m ∈ members st → id m ≠ selectedMemberId st) →
     ∀ mine, myMember st = Some mine →
       selectedMember st = Some mine ∧ canEditSelected st = true).
Proof.
  assert (∀ (ms : list TeamMember) x,
            existsb (λ member, (id member =? x)%string) ms = true →
            ∃ m, find (λ member, (id member =? x)%string) ms = Some m ∧ id m = x)
    as Hfind.
  { intros ms x. induction ms as [|m0 ms IH]; cbn [existsb find]; [done|].
    destruct (String.eqb_spec (id m0) x) as [Heq|_]; [by exists m0|]. apply IH. }
  assert (∀ (ms : list TeamMember) x,
            existsb (λ member, (id member =? x)%string) ms = false →
            ∀ m, m ∈ ms → id m ≠ x) as Hnone.
  { intros ms x. induction ms as [|m0 ms IH]; cbn [existsb];
      [by intros _ ? ?%elem_of_nil|].
    destruct (String.eqb_spec (id m0) x) as [|Hne]; [done|].
    intros Hex m [->|Hin]%elem_of_cons; [done | by apply IH]. }
  split; [|split].
  - intros Hne. unfold selectedMember, resolvedSelectedMemberId.
    destruct (existsb _ _) eqn:Hex.
    + apply Hfind in Hex as (m & -> & _). by eexists.
    + destruct (myMember st) as [mine|] eqn:Hmine.
      * destruct (Hfind (members st) (id mine)) as (m & -> & _); [|by eexists].
        apply existsb_exists. exists mine. split; [|apply String.eqb_refl].
        apply list_elem_of_In. by apply myMember_elem_of.
      * destruct (members st) as [|m0 ms]; [done|]. cbn [find].
        rewrite String.eqb_refl. by eexists.
  - intros (m & Hin & Hid). unfold selectedMember, resolvedSelectedMemberId.
    assert (existsb (λ member, (id member =? selectedMemberId st)%string)
              (members st) = true) as Hex.
    { apply existsb_exists. exists m. split; [by apply list_elem_of_In|].
      by apply String.eqb_eq. }
    rewrite Hex. by apply Hfind.
  - intros Hnd Hnone' mine Hmine.
    assert (selectedMember st = Some mine) as Hsel.
    { unfold selectedMember, resolvedSelectedMemberId.
      destruct (existsb _ _) eqn:Hex.
      - apply Hfind in Hex as (m & Hm & Hid).
        destruct (Hnone' m); [|done].
        apply list_elem_of_In. by apply find_some in Hm as [? _].
      - rewrite Hmine. apply find_id_hit; [done | by apply myMember_elem_of]. }
    split; [done|]. unfold canEditSelected. rewrite Hsel.
    unfold myMember in Hmine. by apply find_some in Hmine as [_ ?].
Qed.

Lemma selection_resolves_witness : is_Some (selectedMember sampleStateViewing).
Proof.
  refine (proj1 (selection_resolves sampleStateViewing) _). discriminate.
Defined.

(** ** Clock labels *)

Lemma slotToTime_mod (slot : Z) :
  0 <= slot → slotToTime slot = slotToTime (slot mod 48).
Proof.
  intros Hs.
  pose proof (Z.mod_pos_bound slot 48 eq_refl) as Hr.
  assert (Z.rem (START_HOUR * 60 + slot * SLOT_MINUTES) (24 * 60)
          = Z.rem (START_HOUR * 60 + slot mod 48 * SLOT_MINUTES) (24 * 60)) as Htotal.
  { unfold START_HOUR, SLOT_MINUTES. rewrite !Z.rem_mod_nonneg by lia.
    rewrite (Z.div_mod slot 48) at 1 by done.
    replace (16 * 60 + (48 * (slot / 48) + slot mod 48) * 30)
      with (16 * 60 + slot mod 48 * 30 + slot / 48 * (24 * 60)) by lia.
    apply Z.mod_add. done. }
  unfold slotToTime. cbv zeta. by rewrite Htotal.
Qed.

Lemma slotToTime_day_labels :
  Forall (λ r, String.length (slotToTime r) = 5%nat
               ∧ Forall (λ r', slotToTime r = slotToTime r' → r = r') (seqZ 0 48))
    (seqZ 0 48).
Proof. apply (bool_decide_unpack _). vm_compute. exact I. Qed.

(** X21. For slots from 0 on, the clock label has five characters and wraps
    around the day: two slots get the same label exactly when they differ
    by a multiple of 48 half-hours. *)
Theorem slotToTime_wraps (slot slot' : Z) :
  0 <= slot → 0 <= slot' →
  String.length (slotToTime slot) = 5%nat
  ∧ (slotToTime slot = slotToTime slot' ↔ slot mod 48 = slot' mod 48).
Proof.
  intros Hs Hs'.
  pose proof (Z.mod_pos_bound slot 48 eq_refl) as Hr.
  pose proof (Z.mod_pos_bound slot' 48 eq_refl) as Hr'.
  pose proof slotToTime_day_labels as Hday.
  rewrite Forall_seqZ in Hday.
  destruct (Hday (slot mod 48) ltac:(lia)) as [Hlen Hinj].
  rewrite Forall_seqZ in Hinj.
  rewrite (slotToTime_mod slot Hs), (slotToTime_mod slot' Hs').
  split; [done|]. split.
  - apply Hinj. lia.
  - by intros ->.
Qed.

Lemma slotToTime_wraps_witness :
  String.length (slotToTime 16) = 5%nat
  ∧ (slotToTime 16 = slotToTime 64 ↔ 16 mod 48 = 64 mod 48).
Proof. apply (slotToTime_wraps 16 64); vm_compute; discriminate. Defined.

Example slotToTime_examples :
  slotToTime 0 = "16:00"%string ∧ slotToTime 15 = "23:30"%string
  ∧ slotToTime 16 = "00:00"%string.
Proof. vm_compute. done. Qed.

(** ** The backend client is built at most once *)

Section ClientCacheFacts.

Variable Client : Type.
Variable createClient : string → string → Client.

Lemma getSupabaseClientTimes_cached (n : nat) url key (c : option Client) :
  getSupabaseClientTimes Client createClient n url key (Some c)
  = (replicate n c, Some c, 0%nat).
Proof.
  induction n as [|n IH]; [done|].
  cbn [getSupabaseClientTimes getSupabaseClient]. by rewrite IH.
Qed.

(** X22. From an undefined cache, any number of calls of
    [getSupabaseClient] return one and the same handle, null exactly when
    the URL or the key is missing, and construct a client at most once: not
    at all without the environment, once otherwise. *)
Theorem getSupabaseClient_once (n : nat) (url key : string) :
  let handle := if hasSupabaseEnv url key then Some (createClient url key) else None in
  getSupabaseClientTimes Client createClient (S n) url key None
  = (replicate (S n) handle, Some handle,
     if hasSupabaseEnv url key then 1%nat else 0%nat).
Proof.
  cbn [getSupabaseClientTimes getSupabaseClient].
  destruct (hasSupabaseEnv url key); cbn [negb];
    by rewrite getSupabaseClientTimes_cached.
Qed.

End ClientCacheFacts.

(** ** Clearing and refreshing *)

Lemma sameCells_nil_r (o : obj jsval) : sameCells o [] = true ↔ o = [].
Proof.
  unfold sameCells, obj_keys. destruct o as [|[k v] o]; [done|].
  cbn. split; discriminate.
Qed.

Lemma sameCells_nil_l (o : obj jsval) : sameCells [] o = true ↔ o = [].
Proof.
  unfold sameCells, obj_keys. destruct o as [|[k v] o]; [done|].
  cbn. split; discriminate.
Qed.

(** X23. Clearing empties the draft buffer at once and writes the empty set
    to the user's row exactly when the committed cells are not already
    empty; without a row of the user it does nothing. *)
Theorem clearMyCells_writes_iff_nonempty (now : string) (st : HomeState) :
  (myMember st = None → clearMyCells now st = (st, None))
  ∧ (∀ m, myMember st = Some m → client st = true → userId st ≠ ""%string →
       draftCells (clearMyCells now st).1 = []
       ∧ (cells m = [] → (clearMyCells now st).2 = None)
       ∧ (cells m ≠ [] →
          (clearMyCells now st).2
          = Some {| upd_cells := []; upd_last_editor := display_name m;
                    upd_updated_at := now |})).
Proof.
  split.
  - intros Hm. unfold clearMyCells. by rewrite Hm.
  - intros m Hm Hc Hu. unfold clearMyCells, persistMyCells. rewrite Hm, Hc.
    destruct (String.eqb_spec (userId st) "") as [|_]; [done|]. cbn [fst snd negb orb].
    split; [done|]. split.
    + intros ->. done.
    + intros Hne. destruct (sameCells (cells m) []) eqn:Hsame; [|done].
      by apply sameCells_nil_r in Hsame.
Qed.

Lemma clearMyCells_writes_iff_nonempty_witness :
  (clearMyCells "2026-10-29T08:00:00.000Z" sampleState).2
  = Some {| upd_cells := []; upd_last_editor := "Ann";
            upd_updated_at := "2026-10-29T08:00:00.000Z" |}.
Proof.
  refine (proj2 (proj2 (proj2 (clearMyCells_writes_iff_nonempty
                                 "2026-10-29T08:00:00.000Z" sampleState)
                          (sampleMember "u1" "Ann" [("0-0", JTrue)]) _ _ _)) _).
  - reflexivity.
  - reflexivity.
  - discriminate.
  - discriminate.
Defined.

Lemma presentRow_stale_cells parseDate weekStartMs row :
  is_stale (presentRow parseDate weekStartMs row) = true →
  cells (presentRow parseDate weekStartMs row) = [].
Proof. unfold presentRow. by destruct (isStaleWeek _ _ _). Qed.

(** X24. A fetch keeps one member per row, in the order of the rows, and a
    fetch that returns the local user's row as stale empties the draft
    buffer at the next reconciliation, unless the user is drawing. *)
Theorem stale_row_clears_draft (parseDate : string → option Z)
    (rows : list jsval) (st : HomeState) :
  client st = true → userId st ≠ ""%string →
  let st' := fetchMembers parseDate (FetchData (Some rows)) st in
  map user_id (members st') = map (λ row, user_id (toMember row)) rows
  ∧ draftCells st' = draftCells st
  ∧ (∀ mine, myMember st' = Some mine → is_stale mine = true →
       dr_active (drawing st) = false →
       draftCells (reconcileDraft st') = []).
Proof.
  intros Hc Hu st'.
  assert (st' = setMembers (map (presentRow parseDate (currentWeekStartMs st)) rows)
                  st) as Hst'.
  { unfold st', fetchMembers. rewrite Hc.
    by destruct (String.eqb_spec (userId st) ""). }
  split; [|split].
  - rewrite Hst'. cbn [members setMembers]. rewrite map_map.
    apply map_ext. intros row. unfold presentRow. by destruct (isStaleWeek _ _ _).
  - by rewrite Hst'.
  - intros mine Hmine Hstale Hd.
    assert (cells mine = []) as Hcells.
    { apply myMember_elem_of in Hmine. rewrite Hst' in Hmine.
      cbn [members setMembers] in Hmine.
      apply list_elem_of_fmap in Hmine as (row & -> & _).
      by apply presentRow_stale_cells. }
    unfold reconcileDraft. replace (drawing st') with (drawing st) by (by rewrite Hst').
    rewrite Hd, Hmine, Hcells. cbn [draftCells setDraftCells].
    destruct (sameCells (draftCells st') []) eqn:Hsame; [|done].
    by apply sameCells_nil_r in Hsame.
Qed.

Lemma stale_row_clears_draft_witness :
  draftCells
    (reconcileDraft
       (fetchMembers sampleParseDate
          (FetchData (Some [sampleRow "u1" "Ann" "2026-10-20T12:00:00.000Z"
                              [("0-0", JTrue)]]))
          sampleState)) = [].
Proof.
  refine (proj2 (proj2 (stale_row_clears_draft sampleParseDate
                          [sampleRow "u1" "Ann" "2026-10-20T12:00:00.000Z"
                             [("0-0", JTrue)]] sampleState _ _))
            (presentRow sampleParseDate sampleWeekStartMs
               (sampleRow "u1" "Ann" "2026-10-20T12:00:00.000Z" [("0-0", JTrue)]))
            _ _ _).
  - reflexivity.
  - discriminate.
  - reflexivity.
  - reflexivity.
  - reflexivity.
Defined.

(** ** Leaving the editable view on a mobile viewport *)

Lemma stopDrawing_forced_disabled st :
  isCellInputEnabled st = false →
  tg_active (touchGesture (stopDrawing None st).1) = false
  ∧ dr_active (drawing (stopDrawing None st).1) = false
  ∧ editsOf (stopDrawing None st).2 = []
  ∧ draftCells (stopDrawing None st).1 = draftCells st.
Proof.
  intros Hdis. unfold stopDrawing. rewrite andb_false_r.
  destruct (tg_active (touchGesture st)) eqn:Ha.
  - destruct (is_pending _).
    + rewrite paintCell_disabled by done. cbn [fst snd].
      destruct (canEditSelected st); cbn; rewrite Ha;
        (split; [done|]); (split; [by destruct (drawing st) as [[] ?]|]); done.
    + destruct (canEditSelected st); cbn; rewrite Ha;
        (split; [done|]); (split; [by destruct (drawing st) as [[] ?]|]); done.
  - destruct (canEditSelected st); cbn; rewrite Ha;
      (split; [done|]); (split; [by destruct (drawing st) as [[] ?]|]); done.
Qed.

(** X25. On a mobile viewport, leaving the table section, or a change to a
    mobile viewport, switches cell input off; and the stop effect that
    follows the leaving ends any gesture or drawing in progress without
    applying an edit, a pending tap included. *)
Theorem leaving_table_stops_input (next : MobileSection) (st : HomeState) :
  (isCellInputEnabled (syncViewport true st) = false)
  ∧ (isMobileViewport st = true → next ≠ table →
     let st1 := handleMobileSectionChange next st in
     let r := mobileStopEffect st1 in
     isCellInputEnabled st1 = false
     ∧ tg_active (touchGesture r.1) = false
     ∧ dr_active (drawing r.1) = false
     ∧ editsOf r.2 = []
     ∧ draftCells r.1 = draftCells st).
Proof.
  split.
  - unfold syncViewport, isCellInputEnabled. cbn. apply andb_false_r.
  - intros Hmob Hnext st1 r.
    assert (st1 = setMobileEditEnabled (λ _, false) (setMobileSection next st))
      as Hst1.
    { unfold st1, handleMobileSectionChange. by destruct next. }
    assert (isCellInputEnabled st1 = false) as Hdis.
    { rewrite Hst1. unfold isCellInputEnabled. cbn. rewrite Hmob. apply andb_false_r. }
    split; [done|]. unfold r, mobileStopEffect.
    replace (isMobileViewport st1) with true by (by rewrite Hst1).
    replace (mobileEditEnabled st1) with false by (by rewrite Hst1).
    cbn [negb orb]. rewrite orb_true_r.
    destruct (dr_active (drawing st1) || tg_active (touchGesture st1)) eqn:Hact.
    + destruct (stopDrawing_forced_disabled st1 Hdis) as (? & ? & ? & Hd).
      repeat split; try done. rewrite Hd. by rewrite Hst1.
    + apply orb_false_iff in Hact as [? ?]. cbn [fst snd].
      repeat split; try done. by rewrite Hst1.
Qed.

Lemma leaving_table_stops_input_witness :
  editsOf (mobileStopEffect (handleMobileSectionChange users sampleMobileEditing)).2
  = [].
Proof.
  refine (proj1 (proj2 (proj2 (proj2 (proj2 (leaving_table_stops_input users
                                               sampleMobileEditing) _ _))))).
  - reflexivity.
  - discriminate.
Defined.

(** ** The weekly reset of the user's own row *)

(** X26. [ensureMyRow] resets only rows that every client already shows
    empty: whenever it answers an existing row with a reset, that row is
    stale or in the legacy unavailable mode, and [fetchMembers] presents it
    with no cells; a row in the legacy mode is always reset, whatever cells
    it carries; and a row is never inserted while one exists. *)
Theorem ensureMyRow_resets_shown_empty (parseDate : string → option Z)
    (now : string) (data : jsval) (savedName : string) (isViewOnlyMode : bool)
    (st : HomeState) :
  truthy data = true →
  (∀ editor at_, ensureMyRow parseDate now data "" savedName isViewOnlyMode st
                 = Some (ResetRow editor at_) →
     cells (presentRow parseDate (currentWeekStartMs st) data) = []
     ∧ editor = display_name (toMember data) ∧ at_ = now)
  ∧ (∀ name at_, ensureMyRow parseDate now data "" savedName isViewOnlyMode st
                 ≠ Some (InsertRow name at_))
  ∧ (client st = true → userId st ≠ ""%string →
     field data "mode" = JStr "unavailable" →
     cells (toMember data) = []
     ∧ ensureMyRow parseDate now data "" savedName isViewOnlyMode st
       = Some (ResetRow (display_name (toMember data)) now)).
Proof.
  intros Hdata. unfold ensureMyRow. rewrite Hdata. cbn [String.eqb negb].
  split; [|split].
  - intros editor at_. destruct (negb (client st) || _); [done|].
    destruct (isStaleWeek _ _ _) eqn:Hstale; cbn [orb].
    + intros [= <- <-]. unfold presentRow. by rewrite Hstale.
    + destruct (is_legacy_unavailable_mode (toMember data)) eqn:Hlegacy; [|done].
      intros [= <- <-]. unfold presentRow. rewrite Hstale. cbn [cells].
      unfold toMember in *. cbn [cells is_legacy_unavailable_mode] in *.
      by rewrite Hlegacy.
  - intros name at_. destruct (negb (client st) || _); [done|].
    by destruct (_ || _).
  - intros Hc Hu Hmode. rewrite Hc.
    destruct (String.eqb_spec (userId st) "") as [|_]; [done|]. cbn [negb orb].
    unfold toMember. cbn [cells is_legacy_unavailable_mode display_name].
    rewrite Hmode. cbn [is_unavailable_mode String.eqb]. split; [done|].
    by rewrite orb_true_r.
Qed.

Lemma ensureMyRow_resets_shown_empty_witness :
  cells (toMember (JObj [("user_id", JStr "u1"); ("mode", JStr "unavailable");
                         ("cells", JObj [("0-0", JTrue)])])) = []
  ∧ ensureMyRow sampleParseDate "2026-10-29T08:00:00.000Z"
      (JObj [("user_id", JStr "u1"); ("mode", JStr "unavailable");
             ("cells", JObj [("0-0", JTrue)])]) "" "Ann" false sampleState
    = Some (ResetRow
              (display_name
                 (toMember (JObj [("user_id", JStr "u1");
                                  ("mode", JStr "unavailable");
                                  ("cells", JObj [("0-0", JTrue)])])))
              "2026-10-29T08:00:00.000Z").
Proof.
  refine (proj2 (proj2 (ensureMyRow_resets_shown_empty sampleParseDate
                          "2026-10-29T08:00:00.000Z"
                          (JObj [("user_id", JStr "u1"); ("mode", JStr "unavailable");
                                 ("cells", JObj [("0-0", JTrue)])])
                          "Ann" false sampleState _)) _ _ _).
  - reflexivity.
  - reflexivity.
  - discriminate.
  - reflexivity.
Defined.

(** ** The aggregation properties at the sample sessions *)

Lemma availabilityCountByCell_closed_form_witness :
  0 <= 2 <= memberCount (membersForCalculation sampleState).
Proof.
  refine (proj2 (proj2 (proj2 (availabilityCountByCell_closed_form
                                 (membersForCalculation sampleState))))
            "0-0"%string 2 _).
  reflexivity.
Defined.

Lemma commonCells_all_available_witness :
  membersForCalculation sampleStateAllFree ≠ []
  ∧ "0-1"%string ∈ gridKeys
  ∧ ∀ m, m ∈ membersForCalculation sampleStateAllFree →
         isAvailable m "0-1" = true.
Proof.
  refine (proj1 (commonCells_all_available
                   (membersForCalculation sampleStateAllFree) "0-1") _).
  unfold has_key. apply (bool_decide_unpack _). vm_compute. exact I.
Defined.
